(** * Solar-system simulation: the page scripts, embedded and verified

    The repository holds three variants of one browser program:

    - [script.js]: the class [SolarSystem] (module [Script] below);
    - an HTML page with an earlier copy of that class inlined, plus a
      page-level resize listener (module [Inline]);
    - an ES-module variant with a control panel, hover tooltip and
      camera tweens (module [Gui]).

    JavaScript numbers are modelled as real numbers: [Math.cos],
    [Math.sin] and [Math.PI] are [cos], [sin] and [PI], and rounding of
    IEEE doubles is not represented.  JavaScript objects that the code
    shares between the scene graph and its own tables live in a store
    indexed by object identity. *)

From Stdlib Require Import Reals Lra Lia ZArith String List Bool.
From stdpp Require Import gmap strings list.
Import ListNotations.

#[local] Open Scope R_scope.
#[local] Open Scope string_scope.
#[local] Open Scope list_scope.

(** ** The part of three.js the scripts rely on *)

Module Three.

(** Identity of an [Object3D]; three.js numbers its objects in
    construction order. *)
Definition ObjId := nat.

Record Vec2 := mkVec2 { v2x : R; v2y : R }.
Record Vec3 := mkVec3 { vx : R; vy : R; vz : R }.

Definition zero3 : Vec3 := mkVec3 0 0 0.

Inductive Geometry :=
| SphereGeometry (radius : R) (widthSegments heightSegments : nat)
| RingGeometry (innerRadius outerRadius : R) (thetaSegments : nat)
| BufferGeometry (vertices : N)
| NoGeometry.

Inductive ObjKind := Mesh | Line | Points | AmbientLight | PointLight | CSS2DObject.

(** An object attached below a scene-level object and referenced from
    nowhere else (Saturn's rings, the sun's light, a text label). *)
Record Leaf := mkLeaf {
  leaf_id : ObjId;
  leaf_kind : ObjKind;
  leaf_geometry : Geometry;
  leaf_color : Z;
  leaf_text : string;
  leaf_position : Vec3;
  leaf_rotation : Vec3 }.

Record Object3D := mkObject3D {
  obj_kind : ObjKind;
  obj_geometry : Geometry;
  obj_color : Z;
  obj_name : string;
  position : Vec3;
  rotation : Vec3;
  visible : bool;
  children : list Leaf }.

(** A freshly constructed object: at the origin, unrotated, visible,
    unnamed, without children. *)
Definition new_Object3D (k : ObjKind) (g : Geometry) (c : Z) : Object3D :=
  mkObject3D k g c "" zero3 zero3 true [].

Definition set_name (s : string) (o : Object3D) : Object3D :=
  mkObject3D (obj_kind o) (obj_geometry o) (obj_color o) s
             (position o) (rotation o) (visible o) (children o).

Definition set_position (p : Vec3) (o : Object3D) : Object3D :=
  mkObject3D (obj_kind o) (obj_geometry o) (obj_color o) (obj_name o)
             p (rotation o) (visible o) (children o).

Definition set_rotation (r : Vec3) (o : Object3D) : Object3D :=
  mkObject3D (obj_kind o) (obj_geometry o) (obj_color o) (obj_name o)
             (position o) r (visible o) (children o).

Definition set_visible (b : bool) (o : Object3D) : Object3D :=
  mkObject3D (obj_kind o) (obj_geometry o) (obj_color o) (obj_name o)
             (position o) (rotation o) b (children o).

Definition add_child (c : Leaf) (o : Object3D) : Object3D :=
  mkObject3D (obj_kind o) (obj_geometry o) (obj_color o) (obj_name o)
             (position o) (rotation o) (visible o) (children o ++ [c]).

Definition set_position_x (x : R) (o : Object3D) : Object3D :=
  set_position (mkVec3 x (vy (position o)) (vz (position o))) o.

Definition set_position_z (z : R) (o : Object3D) : Object3D :=
  set_position (mkVec3 (vx (position o)) (vy (position o)) z) o.

Definition set_rotation_x (x : R) (o : Object3D) : Object3D :=
  set_rotation (mkVec3 x (vy (rotation o)) (vz (rotation o))) o.

Definition add_rotation_y (d : R) (o : Object3D) : Object3D :=
  set_rotation (mkVec3 (vx (rotation o)) (vy (rotation o) + d) (vz (rotation o))) o.

(** The store of scene-level objects, with the counter that issues
    identities. *)
Record Store := mkStore { objects : gmap ObjId Object3D; nextId : ObjId }.

Definition empty_store : Store := mkStore ∅ 0%nat.

Definition alloc (o : Object3D) (s : Store) : ObjId * Store :=
  (nextId s, mkStore (<[nextId s := o]> (objects s)) (S (nextId s))).

(** An identity for an object that is kept inside its parent. *)
Definition fresh (s : Store) : ObjId * Store :=
  (nextId s, mkStore (objects s) (S (nextId s))).

Definition update (id : ObjId) (f : Object3D -> Object3D) (s : Store) : Store :=
  mkStore (alter f id (objects s)) (nextId s).

Definition get (id : ObjId) (s : Store) : option Object3D := objects s !! id.

(** *** Raycaster

    What the pick ray meets is geometry the library computes; a ray is
    represented by the distances at which it crosses each object. *)
Definition Ray := ObjId -> list R.

Record Intersection := mkIntersection { hit_distance : R; hit_object : ObjId }.

(** Only meshes, lines and point clouds implement [raycast]; for every
    other kind [Object3D.raycast] is empty. *)
Definition raycastable (k : ObjKind) : bool :=
  match k with
  | Mesh | Line | Points => true
  | AmbientLight | PointLight | CSS2DObject => false
  end.

Definition raycast (ray : Ray) (id : ObjId) (k : ObjKind) : list Intersection :=
  if raycastable k then map (fun d => mkIntersection d id) (ray id) else [].

Definition intersectObject (s : Store) (ray : Ray) (recursive : bool) (id : ObjId)
  : list Intersection :=
  match get id s with
  | None => []
  | Some o =>
      raycast ray id (obj_kind o) ++
      (if recursive
       then flat_map (fun c => raycast ray (leaf_id c) (leaf_kind c)) (children o)
       else [])
  end.

(** [intersects.sort(ascSort)], with [ascSort(a, b) = a.distance - b.distance]. *)
Fixpoint insert_hit (h : Intersection) (l : list Intersection) : list Intersection :=
  match l with
  | [] => [h]
  | h' :: t =>
      if Rle_dec (hit_distance h) (hit_distance h')
      then h :: h' :: t
      else h' :: insert_hit h t
  end.

Definition ascSort (l : list Intersection) : list Intersection :=
  foldr insert_hit [] l.

Definition intersectObjects (s : Store) (ray : Ray) (objs : list ObjId) (recursive : bool)
  : list Intersection :=
  ascSort (flat_map (intersectObject s ray recursive) objs).

(** [Math.round]: the nearest integer, halves upwards. *)
Definition Math_round (x : R) : R := IZR (Int_part (x + / 2)).

End Three.

(** ** Errors a script can raise *)

Inductive JsError :=
| TypeError (what : string)
| ReferenceError (identifier : string).

(** ** [script.js]: the class [SolarSystem] *)

Module Script.
Import Three.

Record Config := mkConfig { name : string; color : Z; size : R; distance : R }.

(** The table at the head of [createCelestialBodies]. *)
Definition planets_config : list Config :=
  [ mkConfig "Mercury" 0xA0522D 0.4 10;
    mkConfig "Venus" 0xDEB887 0.95 15;
    mkConfig "Earth" 0x4169E1 1 20;
    mkConfig "Mars" 0xFF4500 0.5 25;
    mkConfig "Jupiter" 0xDAA520 2.5 35;
    mkConfig "Saturn" 0xF4A460 2 45;
    mkConfig "Uranus" 0x87CEEB 1.7 55;
    mkConfig "Neptune" 0x0000CD 1.6 65 ].

(** [{ ...config, mesh: planet, orbit, angle }] *)
Record Planet := mkPlanet { config : Config; mesh : ObjId; orbit : ObjId; angle : R }.

Definition set_angle (a : R) (p : Planet) : Planet :=
  mkPlanet (config p) (mesh p) (orbit p) a.

(** [projectionAspect] is the aspect ratio baked into the projection
    matrix by the last [updateProjectionMatrix]; it is what a render
    draws with. *)
Record Camera := mkCamera {
  fov : R; aspect : R; near : R; far : R; camera_z : R; projectionAspect : R }.

Record Renderer := mkRenderer { width : R; height : R; pixelRatio : R }.

Record OrbitControls := mkOrbitControls {
  enableDamping : bool; dampingFactor : R; minDistance : R; maxDistance : R;
  autoRotate : bool; autoRotateSpeed : R }.

(** Text shown in an element.  Numbers formatted by [toLocaleString]
    are kept as numbers next to their unit. *)
Inductive Text :=
| PageText
| PlanetName (s : string)
| Kilometres (v : R)
| EarthDays (v : R)
| MillionKm (v : R)
| AutoRotateRunning
| AutoRotateStopped.

(** An element of the page: its text and whether its class list holds
    [active]. *)
Record Element := mkElement { textContent : Text; active : bool }.

Inductive Listener :=
| AutoRotateClick | ToggleOrbitsClick | SpeedControlInput
| WindowClick | CloseInfoPanelClick | WindowResize.

(** Calls into the libraries whose effect is outside the model:
    [controls.update()] and [renderer.render(scene, camera)], the
    latter with the aspect ratio and buffer size it draws with. *)
Inductive Call :=
| ControlsUpdate
| Render (frameAspect frameWidth frameHeight : R).

(** The browser side: the window, the document, the registered
    listeners, the console and the pending animation-frame request. *)
Record Page := mkPage {
  innerWidth : R;
  innerHeight : R;
  devicePixelRatio : R;
  random : N -> R;
  randomCalls : N;
  dom : gmap string Element;
  canvasAttached : bool;
  listeners : list Listener;
  console : list string;
  uncaught : list JsError;
  rafPending : bool;
  calls : list Call }.

(** The fields of the [SolarSystem] instance.  [None] is a field not
    yet assigned (or assigned [null]). *)
Record SolarSystem := mkSolarSystem {
  store : Store;
  scene : list ObjId;
  camera : option Camera;
  renderer : option Renderer;
  sun : option ObjId;
  planets : list Planet;
  controls : option OrbitControls;
  infoPanel : option string;
  closeInfoPanelButton : option string;
  simulationSpeed : option R;
  mouse : option Vec2 }.

Record World := mkWorld { page : Page; this : SolarSystem }.

Definition set_innerWidth (v : R) (r : Page) : Page :=
  mkPage v (innerHeight r) (devicePixelRatio r) (random r) (randomCalls r) (dom r)
    (canvasAttached r) (listeners r) (console r) (uncaught r) (rafPending r) (calls r).

Definition set_innerHeight (v : R) (r : Page) : Page :=
  mkPage (innerWidth r) v (devicePixelRatio r) (random r) (randomCalls r) (dom r)
    (canvasAttached r) (listeners r) (console r) (uncaught r) (rafPending r) (calls r).

Definition set_randomCalls (v : N) (r : Page) : Page :=
  mkPage (innerWidth r) (innerHeight r) (devicePixelRatio r) (random r) v (dom r)
    (canvasAttached r) (listeners r) (console r) (uncaught r) (rafPending r) (calls r).

Definition set_dom (v : gmap string Element) (r : Page) : Page :=
  mkPage (innerWidth r) (innerHeight r) (devicePixelRatio r) (random r) (randomCalls r) v
    (canvasAttached r) (listeners r) (console r) (uncaught r) (rafPending r) (calls r).

Definition set_canvasAttached (v : bool) (r : Page) : Page :=
  mkPage (innerWidth r) (innerHeight r) (devicePixelRatio r) (random r) (randomCalls r)
    (dom r) v (listeners r) (console r) (uncaught r) (rafPending r) (calls r).

Definition set_listeners (v : list Listener) (r : Page) : Page :=
  mkPage (innerWidth r) (innerHeight r) (devicePixelRatio r) (random r) (randomCalls r)
    (dom r) (canvasAttached r) v (console r) (uncaught r) (rafPending r) (calls r).

Definition set_console (v : list string) (r : Page) : Page :=
  mkPage (innerWidth r) (innerHeight r) (devicePixelRatio r) (random r) (randomCalls r)
    (dom r) (canvasAttached r) (listeners r) v (uncaught r) (rafPending r) (calls r).

Definition set_uncaught (v : list JsError) (r : Page) : Page :=
  mkPage (innerWidth r) (innerHeight r) (devicePixelRatio r) (random r) (randomCalls r)
    (dom r) (canvasAttached r) (listeners r) (console r) v (rafPending r) (calls r).

Definition set_rafPending (v : bool) (r : Page) : Page :=
  mkPage (innerWidth r) (innerHeight r) (devicePixelRatio r) (random r) (randomCalls r)
    (dom r) (canvasAttached r) (listeners r) (console r) (uncaught r) v (calls r).

Definition set_calls (v : list Call) (r : Page) : Page :=
  mkPage (innerWidth r) (innerHeight r) (devicePixelRatio r) (random r) (randomCalls r)
    (dom r) (canvasAttached r) (listeners r) (console r) (uncaught r) (rafPending r) v.

Definition set_store (v : Store) (r : SolarSystem) : SolarSystem :=
  mkSolarSystem v (scene r) (camera r) (renderer r) (sun r) (planets r) (controls r)
    (infoPanel r) (closeInfoPanelButton r) (simulationSpeed r) (mouse r).

Definition set_scene (v : list ObjId) (r : SolarSystem) : SolarSystem :=
  mkSolarSystem (store r) v (camera r) (renderer r) (sun r) (planets r) (controls r)
    (infoPanel r) (closeInfoPanelButton r) (simulationSpeed r) (mouse r).

Definition set_camera (v : option Camera) (r : SolarSystem) : SolarSystem :=
  mkSolarSystem (store r) (scene r) v (renderer r) (sun r) (planets r) (controls r)
    (infoPanel r) (closeInfoPanelButton r) (simulationSpeed r) (mouse r).

Definition set_renderer (v : option Renderer) (r : SolarSystem) : SolarSystem :=
  mkSolarSystem (store r) (scene r) (camera r) v (sun r) (planets r) (controls r)
    (infoPanel r) (closeInfoPanelButton r) (simulationSpeed r) (mouse r).

Definition set_sun (v : option ObjId) (r : SolarSystem) : SolarSystem :=
  mkSolarSystem (store r) (scene r) (camera r) (renderer r) v (planets r) (controls r)
    (infoPanel r) (closeInfoPanelButton r) (simulationSpeed r) (mouse r).

Definition set_planets (v : list Planet) (r : SolarSystem) : SolarSystem :=
  mkSolarSystem (store r) (scene r) (camera r) (renderer r) (sun r) v (controls r)
    (infoPanel r) (closeInfoPanelButton r) (simulationSpeed r) (mouse r).

Definition set_controls (v : option OrbitControls) (r : SolarSystem) : SolarSystem :=
  mkSolarSystem (store r) (scene r) (camera r) (renderer r) (sun r) (planets r) v
    (infoPanel r) (closeInfoPanelButton r) (simulationSpeed r) (mouse r).

Definition set_infoPanel (v : option string) (r : SolarSystem) : SolarSystem :=
  mkSolarSystem (store r) (scene r) (camera r) (renderer r) (sun r) (planets r)
    (controls r) v (closeInfoPanelButton r) (simulationSpeed r) (mouse r).

Definition set_closeInfoPanelButton (v : option string) (r : SolarSystem) : SolarSystem :=
  mkSolarSystem (store r) (scene r) (camera r) (renderer r) (sun r) (planets r)
    (controls r) (infoPanel r) v (simulationSpeed r) (mouse r).

Definition set_simulationSpeed (v : option R) (r : SolarSystem) : SolarSystem :=
  mkSolarSystem (store r) (scene r) (camera r) (renderer r) (sun r) (planets r)
    (controls r) (infoPanel r) (closeInfoPanelButton r) v (mouse r).

Definition set_mouse (v : option Vec2) (r : SolarSystem) : SolarSystem :=
  mkSolarSystem (store r) (scene r) (camera r) (renderer r) (sun r) (planets r)
    (controls r) (infoPanel r) (closeInfoPanelButton r) (simulationSpeed r) v.

Definition on_page (f : Page -> Page) (w : World) : World := mkWorld (f (page w)) (this w).
Definition on_this (f : SolarSystem -> SolarSystem) (w : World) : World :=
  mkWorld (page w) (f (this w)).

(** *** Running a method

    A method runs on the world and either completes or throws; in both
    cases the effects made so far stay. *)
Inductive Result (A : Type) :=
| Done (a : A) (w : World)
| Thrown (e : JsError) (w : World).
Arguments Done {A} a w.
Arguments Thrown {A} e w.

Definition M (A : Type) : Type := World -> Result A.

Definition ret {A} (a : A) : M A := fun w => Done a w.

Definition bind {A B} (m : M A) (k : A -> M B) : M B :=
  fun w => match m w with
           | Done a w' => k a w'
           | Thrown e w' => Thrown e w'
           end.

Definition throw {A} (e : JsError) : M A := fun w => Thrown e w.

Definition gets {A} (f : World -> A) : M A := fun w => Done (f w) w.

Definition modify (f : World -> World) : M unit := fun w => Done tt (f w).

Declare Scope js_scope.
Delimit Scope js_scope with js.
Notation "x <- m ;; k" := (bind m (fun x => k))
  (at level 62, m at next level, right associativity) : js_scope.
Notation "m ;;; k" := (bind m (fun _ => k))
  (at level 62, right associativity) : js_scope.
#[local] Open Scope js_scope.

(** Reading a property of [undefined] or [null] throws a [TypeError]. *)
Definition deref {A} (what : string) (o : option A) : M A :=
  match o with
  | Some a => ret a
  | None => throw (TypeError what)
  end.

Fixpoint mapM {A B} (f : A -> M B) (l : list A) : M (list B) :=
  match l with
  | [] => ret []
  | a :: t => b <- f a ;; bs <- mapM f t ;; ret (b :: bs)
  end.

Fixpoint forEachM {A} (f : A -> M unit) (l : list A) : M unit :=
  match l with
  | [] => ret tt
  | a :: t => f a ;;; forEachM f t
  end.

(** *** Browser primitives *)

Definition getElementById (id : string) : M (option Element) :=
  gets (fun w => dom (page w) !! id).

Definition addEventListener (l : Listener) : M unit :=
  modify (on_page (fun p => set_listeners (listeners p ++ [l]) p)).

Definition console_error (msg : string) : M unit :=
  modify (on_page (fun p => set_console (console p ++ [msg]) p)).

Definition requestAnimationFrame : M unit :=
  modify (on_page (set_rafPending true)).

Definition log_call (c : Call) : M unit :=
  modify (on_page (fun p => set_calls (calls p ++ [c]) p)).

Definition Math_random : M R :=
  r <- gets (fun w => random (page w) (randomCalls (page w))) ;;
  modify (on_page (fun p => set_randomCalls (randomCalls p + 1)%N p)) ;;;
  ret r.

(** [n] draws whose values the model does not keep. *)
Definition discard_random (n : N) : M unit :=
  modify (on_page (fun p => set_randomCalls (randomCalls p + n)%N p)).

(** [document.getElementById(id).textContent = t] *)
Definition set_textContent (id : string) (t : Text) : M unit :=
  e <- getElementById id ;;
  e <- deref id e ;;
  modify (on_page (fun p => set_dom (<[id := mkElement t (active e)]> (dom p)) p)).

(** [element.classList.add('active')] and [.remove('active')], for a
    field holding an element reference. *)
Definition set_active (what : string) (ref : option string) (b : bool) : M unit :=
  id <- deref what ref ;;
  e <- getElementById id ;;
  match e with
  | Some e => modify (on_page (fun p => set_dom (<[id := mkElement (textContent e) b]> (dom p)) p))
  | None => ret tt
  end.

(** *** Scene-graph primitives *)

Definition new_object (o : Object3D) : M ObjId :=
  fun w => let '(id, s) := alloc o (store (this w)) in
           Done id (on_this (set_store s) w).

Definition new_leaf_id : M ObjId :=
  fun w => let '(id, s) := fresh (store (this w)) in
           Done id (on_this (set_store s) w).

Definition update_object (id : ObjId) (f : Object3D -> Object3D) : M unit :=
  modify (on_this (fun t => set_store (update id f (store t)) t)).

Definition scene_add (id : ObjId) : M unit :=
  modify (on_this (fun t => set_scene (scene t ++ [id]) t)).

(** *** The methods of [SolarSystem] *)

Definition window_innerWidth : M R := gets (fun w => innerWidth (page w)).
Definition window_innerHeight : M R := gets (fun w => innerHeight (page w)).

(** The star field draws three coordinates for each of its 10000
    points; only their number is kept. *)
Definition initScene : M unit :=
  W <- window_innerWidth ;;
  H <- window_innerHeight ;;
  dpr <- gets (fun w => devicePixelRatio (page w)) ;;
  modify (on_this (set_camera (Some (mkCamera 75 (W / H) 0.1 1000 0 (W / H))))) ;;;
  modify (on_this (set_renderer (Some (mkRenderer W H dpr)))) ;;;
  modify (on_page (set_canvasAttached true)) ;;;
  discard_random 30000 ;;;
  starField <- new_object (new_Object3D Points (BufferGeometry 10000) 0xFFFFFF) ;;
  scene_add starField ;;;
  c <- gets (fun w => camera (this w)) ;;
  c <- deref "camera" c ;;
  modify (on_this (set_camera
    (Some (mkCamera (fov c) (aspect c) (near c) (far c) 50 (projectionAspect c))))).

(** The body of [planets.map(config => ...)]. *)
Definition create_planet (cfg : Config) : M Planet :=
  planet <- new_object (new_Object3D Mesh (SphereGeometry (size cfg) 32 32) (color cfg)) ;;
  (if String.eqb (name cfg) "Saturn"
   then
     ringsMesh <- new_leaf_id ;;
     update_object planet
       (add_child (mkLeaf ringsMesh Mesh
                     (RingGeometry (size cfg * 1.2) (size cfg * 2.2) 64)
                     0xcccccc "" zero3 (mkVec3 (PI * 0.4) 0 0)))
   else ret tt) ;;;
  orbit <- new_object
    (set_rotation_x (PI / 2)
       (new_Object3D Mesh (RingGeometry (distance cfg - 0.1) (distance cfg) 64) 0x444444)) ;;
  scene_add orbit ;;;
  r <- Math_random ;;
  ret (mkPlanet cfg planet orbit (r * PI * 2)).

Definition createCelestialBodies : M unit :=
  s <- new_object (new_Object3D Mesh (SphereGeometry 3 32 32) 0xFFD700) ;;
  modify (on_this (set_sun (Some s))) ;;;
  scene_add s ;;;
  ps <- mapM create_planet planets_config ;;
  modify (on_this (set_planets ps)) ;;;
  forEachM (fun p => scene_add (mesh p)) ps ;;;
  ambientLight <- new_object (new_Object3D AmbientLight NoGeometry 0xFFFFFF) ;;
  scene_add ambientLight ;;;
  sunLight <- new_leaf_id ;;
  s <- gets (fun w => sun (this w)) ;;
  s <- deref "sun" s ;;
  update_object s (add_child (mkLeaf sunLight PointLight NoGeometry 0xFFFFFF "" zero3 zero3)).

Definition setupControls : M unit :=
  modify (on_this (set_controls (Some (mkOrbitControls true 0.05 20 200 true 0.5)))).

Definition found (id : string) (e : option Element) : option string :=
  match e with
  | Some _ => Some id
  | None => None
  end.

Definition setupUI : M unit :=
  ip <- getElementById "infoPanel" ;;
  modify (on_this (set_infoPanel (found "infoPanel" ip))) ;;;
  cb <- getElementById "closeInfoPanel" ;;
  modify (on_this (set_closeInfoPanelButton (found "closeInfoPanel" cb))) ;;;
  match ip, cb with
  | Some _, Some _ =>
      b <- getElementById "autoRotate" ;;
      deref "autoRotate" b ;;;
      addEventListener AutoRotateClick ;;;
      b <- getElementById "toggleOrbits" ;;
      deref "toggleOrbits" b ;;;
      addEventListener ToggleOrbitsClick ;;;
      b <- getElementById "speedControl" ;;
      deref "speedControl" b ;;;
      addEventListener SpeedControlInput ;;;
      modify (on_this (set_mouse (Some (mkVec2 0 0)))) ;;;
      addEventListener WindowClick ;;;
      addEventListener CloseInfoPanelClick
  | _, _ =>
      console_error "Info panel or close button not found in the DOM!"
  end.

(** The listeners registered by [setupUI]. *)
Definition onAutoRotateClick : M unit :=
  c <- gets (fun w => controls (this w)) ;;
  c <- deref "controls" c ;;
  let c' := mkOrbitControls (enableDamping c) (dampingFactor c) (minDistance c)
                            (maxDistance c) (negb (autoRotate c)) (autoRotateSpeed c) in
  modify (on_this (set_controls (Some c'))) ;;;
  set_textContent "autoRotate"
    (if autoRotate c' then AutoRotateRunning else AutoRotateStopped).

Definition onToggleOrbitsClick : M unit :=
  ps <- gets (fun w => planets (this w)) ;;
  forEachM (fun p => update_object (orbit p) (fun o => set_visible (negb (visible o)) o)) ps.

(** [e.target.value] is the slider's value, a non-empty string. *)
Definition onSpeedControlInput (value : R) : M unit :=
  modify (on_this (set_simulationSpeed (Some value))).

Definition onCloseInfoPanelClick : M unit :=
  ip <- gets (fun w => infoPanel (this w)) ;;
  set_active "infoPanel" ip false.

Definition showPlanetInfo (planet : option Planet) : M unit :=
  planet <- deref "planet" planet ;;
  set_textContent "planetName" (PlanetName (name (config planet))) ;;;
  set_textContent "planetRadius" (Kilometres (size (config planet) * 12742)) ;;;
  set_textContent "orbitalPeriod" (EarthDays (Math_round (distance (config planet) * 10))) ;;;
  set_textContent "sunDistance" (MillionKm (distance (config planet) * 149.6)) ;;;
  ip <- gets (fun w => infoPanel (this w)) ;;
  set_active "infoPanel" ip true.

(** [intersectObjects] is called without its [recursive] argument; in
    the three.js release the page loads (r128) that means the children
    of the listed meshes are not tested. *)
Definition handlePlanetClick (clientX clientY : R) (ray : Ray) : M unit :=
  W <- window_innerWidth ;;
  H <- window_innerHeight ;;
  m <- gets (fun w => mouse (this w)) ;;
  deref "mouse" m ;;;
  modify (on_this (set_mouse (Some (mkVec2 (clientX / W * 2 - 1) (- (clientY / H) * 2 + 1))))) ;;;
  intersects <- gets (fun w =>
    intersectObjects (store (this w)) ray (map mesh (planets (this w))) false) ;;
  match intersects with
  | first :: _ =>
      planet <- gets (fun w =>
        find (fun p => Nat.eqb (mesh p) (hit_object first)) (planets (this w))) ;;
      showPlanetInfo planet
  | [] => ret tt
  end.

(** [this.simulationSpeed || 1]: the field is either unset or the
    slider's string, which is truthy whatever number it spells. *)
Definition speed_factor (o : option R) : R :=
  match o with
  | Some v => v
  | None => 1
  end.

(** The body of [this.planets.forEach(planet => ...)] in [animate]. *)
Definition animate_planet (k : R) (p : Planet) (s : Store) : Planet * Store :=
  let a := angle p + 0.005 * (10 / distance (config p)) * k in
  let s := update (mesh p) (set_position_x (cos a * distance (config p))) s in
  let s := update (mesh p) (set_position_z (sin a * distance (config p))) s in
  let s := update (mesh p) (add_rotation_y 0.02) s in
  (set_angle a p, s).

Fixpoint animate_planets (k : R) (ps : list Planet) (s : Store) : list Planet * Store :=
  match ps with
  | [] => ([], s)
  | p :: t =>
      let '(p', s') := animate_planet k p s in
      let '(t', s'') := animate_planets k t s' in
      (p' :: t', s'')
  end.

Definition animate : M unit :=
  requestAnimationFrame ;;;
  modify (on_this (fun t =>
    let '(ps, s) := animate_planets (speed_factor (simulationSpeed t)) (planets t) (store t) in
    set_store s (set_planets ps t))) ;;;
  c <- gets (fun w => controls (this w)) ;;
  deref "controls" c ;;;
  log_call ControlsUpdate ;;;
  r <- gets (fun w => renderer (this w)) ;;
  r <- deref "renderer" r ;;
  c <- gets (fun w => camera (this w)) ;;
  c <- deref "camera" c ;;
  log_call (Render (projectionAspect c) (width r) (height r)).

Definition handleResize : M unit :=
  c <- gets (fun w => camera (this w)) ;;
  r <- gets (fun w => renderer (this w)) ;;
  match c, r with
  | Some c, Some r =>
      W <- window_innerWidth ;;
      H <- window_innerHeight ;;
      modify (on_this (set_camera
        (Some (mkCamera (fov c) (W / H) (near c) (far c) (camera_z c) (projectionAspect c))))) ;;;
      modify (on_this (set_camera
        (Some (mkCamera (fov c) (W / H) (near c) (far c) (camera_z c) (W / H))))) ;;;
      modify (on_this (set_renderer (Some (mkRenderer W H (pixelRatio r)))))
  | _, _ => ret tt
  end.

Definition constructor : M unit :=
  initScene ;;;
  createCelestialBodies ;;;
  setupControls ;;;
  setupUI ;;;
  animate ;;;
  addEventListener WindowResize.

(** *** The page around the class

    What the browser supplies when the page loads. *)
Record Host := mkHost {
  host_innerWidth : R;
  host_innerHeight : R;
  host_devicePixelRatio : R;
  host_random : N -> R;
  host_dom : gmap string Element }.

Definition blank (h : Host) : World :=
  mkWorld
    (mkPage (host_innerWidth h) (host_innerHeight h) (host_devicePixelRatio h)
            (host_random h) 0%N (host_dom h) false [] [] [] false [])
    (mkSolarSystem empty_store [] None None None [] None None None None None).

(** An exception that leaves a listener is reported by the browser and
    the page lives on. *)
Definition run (m : M unit) (w : World) : World :=
  match m w with
  | Done _ w' => w'
  | Thrown e w' => on_page (fun p => set_uncaught (uncaught p ++ [e]) p) w'
  end.

(** [window.addEventListener('load', () => { new SolarSystem(); })] *)
Definition load (h : Host) : World := run constructor (blank h).

#[global] Instance Listener_eq_dec : EqDecision Listener.
Proof. solve_decision. Defined.

Definition registered (l : Listener) (w : World) : bool :=
  bool_decide (l ∈ listeners (page w)).

Definition fire (l : Listener) (m : M unit) (w : World) : World :=
  if registered l w then run m w else w.

Inductive ClickTarget :=
| AutoRotateButton | ToggleOrbitsButton | CloseInfoPanelButton | Elsewhere.

Inductive Event :=
| AnimationFrame
| Click (target : ClickTarget) (clientX clientY : R) (ray : Ray)
| SpeedInput (value : R)
| Resize (newWidth newHeight : R).

(** A click runs the listener of the element it lands on, then
    bubbles to the window. *)
Definition click_target (t : ClickTarget) (w : World) : World :=
  match t with
  | AutoRotateButton => fire AutoRotateClick onAutoRotateClick w
  | ToggleOrbitsButton => fire ToggleOrbitsClick onToggleOrbitsClick w
  | CloseInfoPanelButton => fire CloseInfoPanelClick onCloseInfoPanelClick w
  | Elsewhere => w
  end.

Definition dispatch (e : Event) (w : World) : World :=
  match e with
  | AnimationFrame =>
      if rafPending (page w)
      then run animate (on_page (set_rafPending false) w)
      else w
  | Click t x y ray =>
      fire WindowClick (handlePlanetClick x y ray) (click_target t w)
  | SpeedInput v =>
      fire SpeedControlInput (onSpeedControlInput v) w
  | Resize W H =>
      fire WindowResize handleResize
        (on_page (fun p => set_innerHeight H (set_innerWidth W p)) w)
  end.

Definition dispatch_all (es : list Event) (w : World) : World :=
  foldl (fun w e => dispatch e w) w es.

(** The page of the repository: the elements with an [id]. *)
Definition page_dom : gmap string Element :=
  list_to_map
    (map (fun id => (id, mkElement PageText false))
         [ "ui"; "autoRotate"; "toggleOrbits"; "speedControl"; "infoPanel";
           "closeInfoPanel"; "planetName"; "planetRadius"; "orbitalPeriod";
           "sunDistance" ]).

End Script.

(** ** The HTML page with the class inlined

    The class of the page is an earlier copy of the one in [script.js]
    (no rings, no close button, no [handleResize]); what differs for the
    window's resize event is the listener the page installs itself, at
    script level, after the class. *)

Module Inline.

(** The values a global identifier of the page can be bound to. *)
Inductive Global := HostObject | Library | ClassDeclaration | NamedElement.

(** The global scope of the page's script: the browser's objects,
    three.js, the elements that carry an [id], and the one declaration
    of the script.  The instance made by [new SolarSystem()] is bound
    to no name. *)
Definition globals : gmap string Global :=
  list_to_map
    ([ ("window", HostObject); ("document", HostObject);
       ("requestAnimationFrame", HostObject); ("THREE", Library);
       ("SolarSystem", ClassDeclaration) ] ++
     map (fun id => (id, NamedElement))
         [ "ui"; "autoRotate"; "toggleOrbits"; "speedControl"; "infoPanel";
           "closeInfoPanel"; "planetName"; "planetRadius"; "orbitalPeriod";
           "sunDistance" ]).

(** The window, and the two instance fields [initScene] sets up as in
    [script.js]. *)
Record World := mkWorld {
  innerWidth : R;
  innerHeight : R;
  camera : Script.Camera;
  renderer : Script.Renderer;
  uncaught : list JsError;
  calls : list Script.Call }.

Definition load (W H dpr : R) : World :=
  mkWorld W H (Script.mkCamera 75 (W / H) 0.1 1000 50 (W / H))
          (Script.mkRenderer W H dpr) [] [].

(** [camera.aspect = ...; camera.updateProjectionMatrix(); renderer.setSize(...)]
    with [camera] and [renderer] looked up in the global scope.  None
    of the values bound there has an [updateProjectionMatrix] method. *)
Definition onResize (w : World) : World :=
  match globals !! "camera" with
  | None =>
      mkWorld (innerWidth w) (innerHeight w) (camera w) (renderer w)
              (uncaught w ++ [ReferenceError "camera"]) (calls w)
  | Some _ =>
      mkWorld (innerWidth w) (innerHeight w) (camera w) (renderer w)
              (uncaught w ++ [TypeError "camera.updateProjectionMatrix"]) (calls w)
  end.

(** The end of [animate]: [this.renderer.render(this.scene, this.camera)]. *)
Definition render (w : World) : World :=
  mkWorld (innerWidth w) (innerHeight w) (camera w) (renderer w) (uncaught w)
          (calls w ++ [Script.Render (Script.projectionAspect (camera w))
                                     (Script.width (renderer w))
                                     (Script.height (renderer w))]).

Inductive Event := AnimationFrame | Resize (newWidth newHeight : R).

Definition dispatch (e : Event) (w : World) : World :=
  match e with
  | AnimationFrame => render w
  | Resize W H =>
      onResize (mkWorld W H (camera w) (renderer w) (uncaught w) (calls w))
  end.

End Inline.

(** ** The module variant with control panel, tooltip and camera tweens

    The page of this variant is not among the sources; the script uses
    [#infoPanel], [.tooltip] and [#resetButton] unguarded, and they are
    taken to be present, as is the tween library. *)

Module Gui.
Import Three.

Record PlanetData := mkPlanetData {
  d_radius : R; d_color : Z; d_distance : R; d_orbitSpeed : R;
  d_rotationSpeed : R; d_name : string; d_timeScale : R }.

Definition planetData : list PlanetData :=
  [ mkPlanetData 0.8 0xaaaaaa 15 0.02 0.005 "Mercury" 1.0;
    mkPlanetData 1.2 0xffa500 25 0.015 0.002 "Venus" 1.0;
    mkPlanetData 1.3 0x0000ff 35 0.01 0.02 "Earth" 1.0;
    mkPlanetData 0.9 0xff0000 45 0.008 0.018 "Mars" 1.0;
    mkPlanetData 3 0xff8c00 70 0.004 0.04 "Jupiter" 1.0;
    mkPlanetData 2.5 0xc2b280 100 0.002 0.035 "Saturn" 1.0;
    mkPlanetData 1.8 0xadd8e6 120 0.0015 0.025 "Uranus" 1.0;
    mkPlanetData 1.7 0x00008b 140 0.001 0.022 "Neptune" 1.0 ].

(** What [createPlanet] returns. *)
Record Body := mkBody {
  mesh : ObjId; orbitRadius : R; orbitSpeed : R; rotationSpeed : R;
  orbit : ObjId; timeScale : R }.

Definition set_timeScale (v : R) (b : Body) : Body :=
  mkBody (mesh b) (orbitRadius b) (orbitSpeed b) (rotationSpeed b) (orbit b) v.

Record Params := mkParams { params_timeScale : R; showOrbits : bool; pause : bool }.

Record Camera := mkCamera { aspect : R; projectionAspect : R }.

Record Size := mkSize { width : R; height : R }.

Record OrbitControls := mkOrbitControls { enabled : bool; target : Vec3 }.

(** The [display] style of an element: left to the style sheet, or
    set to [block] or [none] by the script. *)
Inductive Display := StyleSheet | Block | DisplayNone.

Record Tooltip := mkTooltip {
  tooltip_text : string; tooltip_display : Display; tooltip_left : R; tooltip_top : R }.

Inductive PanelContent :=
| PageContent
| PlanetInfo (name : string) (radius : R).

Record InfoPanel := mkInfoPanel { panel_display : Display; panel_content : PanelContent }.

Inductive LookAt := LookAtObject (id : ObjId) | LookAtScene.

(** A started tween of the camera position: its end point, what the
    camera is aimed at meanwhile, and its start time (ms). *)
Record Tween := mkTween { tween_to : Vec3; tween_lookAt : LookAt; tween_start : R }.

Inductive Call :=
| TweenUpdate
| HoverRaycast
| ControlsUpdate
| Render (frameAspect frameWidth frameHeight : R)
| LabelRender (frameWidth frameHeight : R).

Record World := mkWorld {
  innerWidth : R;
  innerHeight : R;
  store : Store;
  scene : list ObjId;
  camera : Camera;
  renderer : Size;
  labelRenderer : Size;
  controls : OrbitControls;
  sun : Body;
  planets : list Body;
  params : Params;
  mouse : Vec2;
  INTERSECTED : option ObjId;
  tooltip : Tooltip;
  infoPanel : InfoPanel;
  tweens : list Tween;
  rafPending : bool;
  calls : list Call }.

Definition set_innerWidth (v : R) (r : World) : World :=
  mkWorld v (innerHeight r) (store r) (scene r) (camera r) (renderer r) (labelRenderer r)
    (controls r) (sun r) (planets r) (params r) (mouse r) (INTERSECTED r) (tooltip r)
    (infoPanel r) (tweens r) (rafPending r) (calls r).

Definition set_innerHeight (v : R) (r : World) : World :=
  mkWorld (innerWidth r) v (store r) (scene r) (camera r) (renderer r) (labelRenderer r)
    (controls r) (sun r) (planets r) (params r) (mouse r) (INTERSECTED r) (tooltip r)
    (infoPanel r) (tweens r) (rafPending r) (calls r).

Definition set_store (v : Store) (r : World) : World :=
  mkWorld (innerWidth r) (innerHeight r) v (scene r) (camera r) (renderer r)
    (labelRenderer r) (controls r) (sun r) (planets r) (params r) (mouse r)
    (INTERSECTED r) (tooltip r) (infoPanel r) (tweens r) (rafPending r) (calls r).

Definition set_scene (v : list ObjId) (r : World) : World :=
  mkWorld (innerWidth r) (innerHeight r) (store r) v (camera r) (renderer r)
    (labelRenderer r) (controls r) (sun r) (planets r) (params r) (mouse r)
    (INTERSECTED r) (tooltip r) (infoPanel r) (tweens r) (rafPending r) (calls r).

Definition set_camera (v : Camera) (r : World) : World :=
  mkWorld (innerWidth r) (innerHeight r) (store r) (scene r) v (renderer r)
    (labelRenderer r) (controls r) (sun r) (planets r) (params r) (mouse r)
    (INTERSECTED r) (tooltip r) (infoPanel r) (tweens r) (rafPending r) (calls r).

Definition set_renderer (v : Size) (r : World) : World :=
  mkWorld (innerWidth r) (innerHeight r) (store r) (scene r) (camera r) v
    (labelRenderer r) (controls r) (sun r) (planets r) (params r) (mouse r)
    (INTERSECTED r) (tooltip r) (infoPanel r) (tweens r) (rafPending r) (calls r).

Definition set_labelRenderer (v : Size) (r : World) : World :=
  mkWorld (innerWidth r) (innerHeight r) (store r) (scene r) (camera r) (renderer r) v
    (controls r) (sun r) (planets r) (params r) (mouse r) (INTERSECTED r) (tooltip r)
    (infoPanel r) (tweens r) (rafPending r) (calls r).

Definition set_controls (v : OrbitControls) (r : World) : World :=
  mkWorld (innerWidth r) (innerHeight r) (store r) (scene r) (camera r) (renderer r)
    (labelRenderer r) v (sun r) (planets r) (params r) (mouse r) (INTERSECTED r)
    (tooltip r) (infoPanel r) (tweens r) (rafPending r) (calls r).

Definition set_sun (v : Body) (r : World) : World :=
  mkWorld (innerWidth r) (innerHeight r) (store r) (scene r) (camera r) (renderer r)
    (labelRenderer r) (controls r) v (planets r) (params r) (mouse r) (INTERSECTED r)
    (tooltip r) (infoPanel r) (tweens r) (rafPending r) (calls r).

Definition set_planets (v : list Body) (r : World) : World :=
  mkWorld (innerWidth r) (innerHeight r) (store r) (scene r) (camera r) (renderer r)
    (labelRenderer r) (controls r) (sun r) v (params r) (mouse r) (INTERSECTED r)
    (tooltip r) (infoPanel r) (tweens r) (rafPending r) (calls r).

Definition set_params (v : Params) (r : World) : World :=
  mkWorld (innerWidth r) (innerHeight r) (store r) (scene r) (camera r) (renderer r)
    (labelRenderer r) (controls r) (sun r) (planets r) v (mouse r) (INTERSECTED r)
    (tooltip r) (infoPanel r) (tweens r) (rafPending r) (calls r).

Definition set_mouse (v : Vec2) (r : World) : World :=
  mkWorld (innerWidth r) (innerHeight r) (store r) (scene r) (camera r) (renderer r)
    (labelRenderer r) (controls r) (sun r) (planets r) (params r) v (INTERSECTED r)
    (tooltip r) (infoPanel r) (tweens r) (rafPending r) (calls r).

Definition set_INTERSECTED (v : option ObjId) (r : World) : World :=
  mkWorld (innerWidth r) (innerHeight r) (store r) (scene r) (camera r) (renderer r)
    (labelRenderer r) (controls r) (sun r) (planets r) (params r) (mouse r) v (tooltip r)
    (infoPanel r) (tweens r) (rafPending r) (calls r).

Definition set_tooltip (v : Tooltip) (r : World) : World :=
  mkWorld (innerWidth r) (innerHeight r) (store r) (scene r) (camera r) (renderer r)
    (labelRenderer r) (controls r) (sun r) (planets r) (params r) (mouse r)
    (INTERSECTED r) v (infoPanel r) (tweens r) (rafPending r) (calls r).

Definition set_infoPanel (v : InfoPanel) (r : World) : World :=
  mkWorld (innerWidth r) (innerHeight r) (store r) (scene r) (camera r) (renderer r)
    (labelRenderer r) (controls r) (sun r) (planets r) (params r) (mouse r)
    (INTERSECTED r) (tooltip r) v (tweens r) (rafPending r) (calls r).

Definition set_tweens (v : list Tween) (r : World) : World :=
  mkWorld (innerWidth r) (innerHeight r) (store r) (scene r) (camera r) (renderer r)
    (labelRenderer r) (controls r) (sun r) (planets r) (params r) (mouse r)
    (INTERSECTED r) (tooltip r) (infoPanel r) v (rafPending r) (calls r).

Definition set_rafPending (v : bool) (r : World) : World :=
  mkWorld (innerWidth r) (innerHeight r) (store r) (scene r) (camera r) (renderer r)
    (labelRenderer r) (controls r) (sun r) (planets r) (params r) (mouse r)
    (INTERSECTED r) (tooltip r) (infoPanel r) (tweens r) v (calls r).

Definition set_calls (v : list Call) (r : World) : World :=
  mkWorld (innerWidth r) (innerHeight r) (store r) (scene r) (camera r) (renderer r)
    (labelRenderer r) (controls r) (sun r) (planets r) (params r) (mouse r)
    (INTERSECTED r) (tooltip r) (infoPanel r) (tweens r) (rafPending r) v.


Definition log_call (c : Call) (w : World) : World := set_calls (calls w ++ [c]) w.

(** *** Building the scene *)

(** The store under construction and [scene.children]. *)
Definition Builder : Type := Store * list ObjId.

Definition createPlanet (radius : R) (color : Z) (x y z : R)
    (orbitRadius orbitSpeed rotationSpeed : R) (name : string) (timeScale : R)
    (b : Builder) : Body * Builder :=
  let '(planet, s) :=
    alloc (set_name name
             (set_position (mkVec3 x y z)
                (new_Object3D Mesh (SphereGeometry radius 32 32) color))) (fst b) in
  let '(orbit, s) :=
    alloc (set_rotation_x (PI / 2)
             (new_Object3D Line
                (RingGeometry (orbitRadius - 0.1) (orbitRadius + 0.1) 128) 0x888888)) s in
  let sc := snd b ++ [orbit] in
  let '(planetLabel, s) := fresh s in
  let s :=
    update planet
      (add_child (mkLeaf planetLabel CSS2DObject NoGeometry 0 name
                         (mkVec3 0 (radius + 1) 0) zero3)) s in
  (mkBody planet orbitRadius orbitSpeed rotationSpeed orbit timeScale, (s, sc)).

(** [planetData.map(data => { ...; scene.add(planet.mesh); return planet; })] *)
Fixpoint create_planets (l : list PlanetData) (b : Builder) : list Body * Builder :=
  match l with
  | [] => ([], b)
  | data :: rest =>
      let '(planet, b1) :=
        createPlanet (d_radius data) (d_color data) (d_distance data) 0 0
                     (d_distance data) (d_orbitSpeed data) (d_rotationSpeed data)
                     (d_name data) (d_timeScale data) b in
      let b2 := (fst b1, snd b1 ++ [mesh planet]) in
      let '(planets, b3) := create_planets rest b2 in
      (planet :: planets, b3)
  end.

(** The script up to the line [const gui = new GUI()], on a window of
    the given size. *)
Definition build (W H : R) : World :=
  let '(ambientLight, s) := alloc (new_Object3D AmbientLight NoGeometry 0xffffff) empty_store in
  let '(sunLight, s) := alloc (new_Object3D PointLight NoGeometry 0xffffff) s in
  let '(sun, b) := createPlanet 5 0xffff00 0 0 0 0 0 0.01 "Sun" 1.0 (s, [ambientLight; sunLight]) in
  let b := (fst b, snd b ++ [mesh sun]) in
  let '(planets, b) := create_planets planetData b in
  mkWorld W H (fst b) (snd b)
          (mkCamera (W / H) (W / H)) (mkSize W H) (mkSize W H)
          (mkOrbitControls true zero3)
          sun planets
          (mkParams 1 true false)
          (mkVec2 0 0) None
          (mkTooltip "" StyleSheet 0 0)
          (mkInfoPanel StyleSheet PageContent)
          [] false [].

(** *** Reading objects through references

    A reference always denotes an object; the defaults below are for
    identities that are not in the store, which the script never
    holds. *)
Definition object_at (id : ObjId) (s : Store) : Object3D :=
  match get id s with
  | Some o => o
  | None => new_Object3D Mesh NoGeometry 0
  end.

(** [mesh.geometry.parameters.radius] *)
Definition parameters_radius (g : Geometry) : R :=
  match g with
  | SphereGeometry r _ _ => r
  | _ => 0
  end.

Definition add3 (a b : Vec3) : Vec3 := mkVec3 (vx a + vx b) (vy a + vy b) (vz a + vz b).

(** *** Tweens

    [TWEEN.update()] advances every started tween; one whose duration
    (1000 ms) has elapsed runs its [onComplete] and is dropped. *)
Definition tween_finished (now : R) (t : Tween) : bool :=
  if Rle_dec (tween_start t + 1000) now then true else false.

Definition lookAt_position (l : LookAt) (s : Store) : Vec3 :=
  match l with
  | LookAtObject id => position (object_at id s)
  | LookAtScene => zero3
  end.

(** [controls.target.copy(...); controls.update(); controls.enabled = true] *)
Definition onComplete (t : Tween) (w : World) : World :=
  let w := set_controls (mkOrbitControls (enabled (controls w))
                                         (lookAt_position (tween_lookAt t) (store w))) w in
  let w := log_call ControlsUpdate w in
  set_controls (mkOrbitControls true (target (controls w))) w.

Definition TWEEN_update (now : R) (w : World) : World :=
  let finished := List.filter (tween_finished now) (tweens w) in
  let running := List.filter (fun t => negb (tween_finished now t)) (tweens w) in
  foldl (fun w t => onComplete t w) (set_tweens running (log_call TweenUpdate w)) finished.

(** *** Listeners *)

Definition ndc (clientX clientY : R) (w : World) : Vec2 :=
  mkVec2 (clientX / innerWidth w * 2 - 1) (- (clientY / innerHeight w) * 2 + 1).

Definition onMouseMove (clientX clientY : R) (w : World) : World :=
  let w := set_mouse (ndc clientX clientY w) w in
  set_tooltip (mkTooltip (tooltip_text (tooltip w)) (tooltip_display (tooltip w))
                         (clientX + 10) (clientY - 25)) w.

Definition focusOnPlanet (planet : ObjId) (now : R) (w : World) : World :=
  let w := set_controls (mkOrbitControls false (target (controls w))) w in
  let o := object_at planet (store w) in
  let r := parameters_radius (obj_geometry o) in
  let cameraTargetPosition := add3 (position o) (mkVec3 (r * 2.5) (r * 1.5) (r * 2.5)) in
  let w := set_tweens (tweens w ++ [mkTween cameraTargetPosition (LookAtObject planet) now]) w in
  let w := set_controls (mkOrbitControls (enabled (controls w)) (position o)) w in
  log_call ControlsUpdate w.

(** The pick: the planets' meshes and, recursively, their children. *)
Definition pick (ray : Ray) (w : World) : list Intersection :=
  intersectObjects (store w) ray (map mesh (planets w)) true.

Definition onMouseClick (clientX clientY now : R) (ray : Ray) (w : World) : World :=
  let w := set_mouse (ndc clientX clientY w) w in
  match pick ray w with
  | first :: _ =>
      let selectedPlanet := hit_object first in
      let w := focusOnPlanet selectedPlanet now w in
      let o := object_at selectedPlanet (store w) in
      set_infoPanel
        (mkInfoPanel Block (PlanetInfo (obj_name o) (parameters_radius (obj_geometry o)))) w
  | [] =>
      set_infoPanel (mkInfoPanel DisplayNone (panel_content (infoPanel w))) w
  end.

Definition resetCamera (now : R) (w : World) : World :=
  let w := set_tweens (tweens w ++ [mkTween (mkVec3 0 50 150) LookAtScene now]) w in
  set_infoPanel (mkInfoPanel DisplayNone (panel_content (infoPanel w))) w.

(** The panel's check box flips [params.showOrbits] and calls the
    [onChange] callback with the new value. *)
Definition showOrbits_onChange (value : bool) (w : World) : World :=
  set_store (foldl (fun s planet => update (orbit planet) (set_visible value) s)
                   (store w) (planets w)) w.

Definition toggle_showOrbits (w : World) : World :=
  let value := negb (showOrbits (params w)) in
  let w := set_params (mkParams (params_timeScale (params w)) value (pause (params w))) w in
  showOrbits_onChange value w.

Definition toggle_pause (w : World) : World :=
  set_params (mkParams (params_timeScale (params w)) (showOrbits (params w))
                       (negb (pause (params w)))) w.

Definition set_globalTimeScale (v : R) (w : World) : World :=
  set_params (mkParams v (showOrbits (params w)) (pause (params w))) w.

Definition set_planetTimeScale (i : nat) (v : R) (w : World) : World :=
  set_planets (alter (set_timeScale v) i (planets w)) w.

Definition onResize (w : World) : World :=
  let a := innerWidth w / innerHeight w in
  let w := set_camera (mkCamera a (projectionAspect (camera w))) w in
  let w := set_camera (mkCamera (aspect (camera w)) (aspect (camera w))) w in
  let w := set_renderer (mkSize (innerWidth w) (innerHeight w)) w in
  set_labelRenderer (mkSize (innerWidth w) (innerHeight w)) w.

(** *** The frame *)

(** The body of [planets.forEach(planet => ...)] in [animate]. *)
Definition move_planet (time globalTimeScale : R) (planet : Body) (s : Store) : Store :=
  let angle := time * orbitSpeed planet * globalTimeScale * timeScale planet in
  let s := update (mesh planet) (set_position_x (cos angle * orbitRadius planet)) s in
  let s := update (mesh planet) (set_position_z (sin angle * orbitRadius planet)) s in
  update (mesh planet) (add_rotation_y (rotationSpeed planet)) s.

Definition move_planets (time globalTimeScale : R) (ps : list Body) (s : Store) : Store :=
  foldl (fun s planet => move_planet time globalTimeScale planet s) s ps.

(** The hover check at the end of every frame. *)
Definition hover (ray : Ray) (w : World) : World :=
  let w := log_call HoverRaycast w in
  match pick ray w with
  | first :: _ =>
      if bool_decide (INTERSECTED w = Some (hit_object first))
      then w
      else
        let w := set_INTERSECTED (Some (hit_object first)) w in
        set_tooltip (mkTooltip (obj_name (object_at (hit_object first) (store w))) Block
                               (tooltip_left (tooltip w)) (tooltip_top (tooltip w))) w
  | [] =>
      let w := set_tooltip (mkTooltip (tooltip_text (tooltip w)) DisplayNone
                                      (tooltip_left (tooltip w)) (tooltip_top (tooltip w))) w in
      set_INTERSECTED None w
  end.

(** [animate], run at time [now] (the value of [performance.now()]),
    with [ray] the ray through the stored mouse position. *)
Definition animate (now : R) (ray : Ray) (w : World) : World :=
  let w := set_rafPending true w in
  let w := TWEEN_update now w in
  let w :=
    if pause (params w)
    then w
    else
      let time := now * 0.001 in
      let s := move_planets time (params_timeScale (params w)) (planets w) (store w) in
      let s := update (mesh (sun w)) (add_rotation_y (rotationSpeed (sun w))) s in
      set_store s w in
  let w := hover ray w in
  let w := log_call ControlsUpdate w in
  let w := log_call (Render (projectionAspect (camera w))
                            (width (renderer w)) (height (renderer w))) w in
  log_call (LabelRender (width (labelRenderer w)) (height (labelRenderer w))) w.

(** *** The page *)

(** The whole script: the scene, the panel and the listeners, then the
    first [animate()]. *)
Definition load (W H now : R) (ray : Ray) : World := animate now ray (build W H).

Inductive ClickTarget := ShowOrbitsCheckbox | PauseCheckbox | ResetButton | Elsewhere.

Inductive Event :=
| AnimationFrame (now : R) (ray : Ray)
| MouseMove (clientX clientY : R)
| Click (target : ClickTarget) (clientX clientY now : R) (ray : Ray)
| GlobalTimeScale (value : R)
| PlanetTimeScale (index : nat) (value : R)
| Resize (newWidth newHeight : R).

Definition click_target (t : ClickTarget) (now : R) (w : World) : World :=
  match t with
  | ShowOrbitsCheckbox => toggle_showOrbits w
  | PauseCheckbox => toggle_pause w
  | ResetButton => resetCamera now w
  | Elsewhere => w
  end.

(** A click runs the listener of the control it lands on, then bubbles
    to the window. *)
Definition dispatch (e : Event) (w : World) : World :=
  match e with
  | AnimationFrame now ray =>
      if rafPending w then animate now ray (set_rafPending false w) else w
  | MouseMove x y => onMouseMove x y w
  | Click t x y now ray => onMouseClick x y now ray (click_target t now w)
  | GlobalTimeScale v => set_globalTimeScale v w
  | PlanetTimeScale i v => set_planetTimeScale i v w
  | Resize W H => onResize (set_innerHeight H (set_innerWidth W w))
  end.

Definition dispatch_all (es : list Event) (w : World) : World :=
  foldl (fun w e => dispatch e w) w es.

End Gui.

(** ** Vocabulary of the statements *)

(** The claim about wrapped angles reads the stored angle modulo 2π. *)
Definition wrap_2pi (x : R) : R := x - IZR (Int_part (x / (2 * PI))) * (2 * PI).

(** What survives of an object whatever the scripts do to it. *)
Definition shape (o : Three.Object3D)
  : Three.ObjKind * Three.Geometry * Z * string * list Three.Leaf :=
  (Three.obj_kind o, Three.obj_geometry o, Three.obj_color o, Three.obj_name o,
   Three.children o).

Definition flip_visible (o : Three.Object3D) : Three.Object3D :=
  Three.set_visible (negb (Three.visible o)) o.

(** An object with its visibility flag masked: what a change of the flag
    leaves alone. *)
Definition but_visible (o : Three.Object3D) : Three.Object3D := Three.set_visible true o.

Definition update_all (f : Three.Object3D -> Three.Object3D) (ids : list Three.ObjId)
    (s : Three.Store) : Three.Store :=
  foldl (fun s id => Three.update id f s) s ids.

(** The first element of a list of hits is a nearest one. *)
Definition head_least (l : list Three.Intersection) : Prop :=
  match l with
  | [] => True
  | h :: t => forall x, x ∈ t -> Three.hit_distance h <= Three.hit_distance x
  end.

Module ScriptSpec.
Import Three Script.

Definition run_to (m : M unit) (w : World) : World :=
  match m w with
  | Done _ w' => w'
  | Thrown _ w' => w'
  end.

(** The world once [initScene], [createCelestialBodies] and
    [setupControls] have run. *)
Definition after_initScene (h : Host) : World := run_to initScene (blank h).
Definition after_createCelestialBodies (h : Host) : World :=
  run_to createCelestialBodies (after_initScene h).
Definition built (h : Host) : World := run_to setupControls (after_createCelestialBodies h).

Definition null_host : Host := mkHost 1 1 1 (fun _ => 0) ∅.

(** The scene graph as built: it does not depend on the host. *)
Definition initial_store : Store := store (this (built null_host)).
Definition scene0 : list ObjId := scene (this (built null_host)).
Definition meshes0 : list ObjId := map mesh (planets (this (built null_host))).
Definition orbits0 : list ObjId := map orbit (planets (this (built null_host))).
Definition sun0 : ObjId := 1%nat.


(** The per-tick increment of a planet's angle at speed factor 1. *)
Definition orbitSpeed (p : Planet) : R := 0.005 * (10 / distance (config p)).

Definition next_angle (k : R) (p : Planet) : R :=
  angle p + 0.005 * (10 / distance (config p)) * k.

Definition moved (k : R) (p : Planet) (o : Object3D) : Object3D :=
  add_rotation_y 0.02
    (set_position_z (sin (next_angle k p) * distance (config p))
       (set_position_x (cos (next_angle k p) * distance (config p)) o)).

Definition animate_this (t : SolarSystem) : SolarSystem :=
  let r := animate_planets (speed_factor (simulationSpeed t)) (planets t) (store t) in
  set_store (snd r) (set_planets (fst r) t).

(** A frame that runs to its end. *)
Definition animate_world (w : World) : World :=
  mkWorld
    (set_calls
       (calls (page w) ++
        [ControlsUpdate;
         Render (match camera (this w) with Some c => projectionAspect c | None => 0 end)
                (match renderer (this w) with Some r => width r | None => 0 end)
                (match renderer (this w) with Some r => height r | None => 0 end)])
       (set_rafPending true (page w)))
    (animate_this (this w)).

(** [setupUI] when an anchor is missing, and when every element it
    looks up is there. *)
Definition guarded (w : World) : World :=
  mkWorld
    (set_console (console (page w) ++ ["Info panel or close button not found in the DOM!"])
                 (page w))
    (set_closeInfoPanelButton (found "closeInfoPanel" (dom (page w) !! "closeInfoPanel"))
       (set_infoPanel (found "infoPanel" (dom (page w) !! "infoPanel")) (this w))).

Definition wired (w : World) : World :=
  mkWorld
    (set_listeners
       (listeners (page w) ++
        [AutoRotateClick; ToggleOrbitsClick; SpeedControlInput; WindowClick;
         CloseInfoPanelClick])
       (page w))
    (set_mouse (Some (mkVec2 0 0))
       (set_closeInfoPanelButton (Some "closeInfoPanel")
          (set_infoPanel (Some "infoPanel") (this w)))).

Definition add_listener (l : Listener) (w : World) : World :=
  on_page (fun p => set_listeners (listeners p ++ [l]) p) w.

(** [setupUI] past its guard, before the first listener. *)
Definition anchored (w : World) : World :=
  on_this (fun t => set_closeInfoPanelButton (Some "closeInfoPanel")
                      (set_infoPanel (Some "infoPanel") t)) w.

Definition report (e : JsError) (w : World) : World :=
  on_page (fun p => set_uncaught (uncaught p ++ [e]) p) w.

(** The five ways the constructor can end, from the world [w] that
    [setupControls] leaves. *)
Inductive started (w : World) : World -> Prop :=
| started_wired :
    started w (add_listener WindowResize (animate_world (wired w)))
| started_guarded :
    started w (add_listener WindowResize (animate_world (guarded w)))
| started_without_autoRotate :
    started w (report (TypeError "autoRotate") (anchored w))
| started_without_toggleOrbits :
    started w (report (TypeError "toggleOrbits") (add_listener AutoRotateClick (anchored w)))
| started_without_speedControl :
    started w (report (TypeError "speedControl")
                 (add_listener ToggleOrbitsClick (add_listener AutoRotateClick (anchored w)))).

Definition anchors_missing (d : gmap string Element) : Prop :=
  d !! "infoPanel" = None \/ d !! "closeInfoPanel" = None.

Definition controls_present (d : gmap string Element) : Prop :=
  is_Some (d !! "autoRotate") /\ is_Some (d !! "toggleOrbits") /\
  is_Some (d !! "speedControl").

Definition frames (n : nat) (w : World) : World := Nat.iter n (dispatch AnimationFrame) w.

(** The mesh of [p] sits where the stored angle of [p] says. *)
Definition placed (s : Store) (p : Planet) : Prop :=
  exists o, get (mesh p) s = Some o /\
            vx (position o) = cos (angle p) * distance (config p) /\
            vz (position o) = sin (angle p) * distance (config p).

Definition on_orbit (s : Store) (p : Planet) : Prop :=
  exists o, get (mesh p) s = Some o /\
            (vx (position o))² + (vz (position o))² = (distance (config p))².

(** The planets' identities and configuration, which no listener
    changes. *)
Record structure_ok (t : SolarSystem) : Prop := mk_structure_ok {
  ok_scene : scene t = scene0;
  ok_sun : sun t = Some sun0;
  ok_meshes : map mesh (planets t) = meshes0;
  ok_orbits : map orbit (planets t) = orbits0;
  ok_configs : map config (planets t) = planets_config;
  ok_shapes : forall id, shape <$> get id (store t) = shape <$> get id initial_store;
  ok_camera : is_Some (camera t);
  ok_renderer : is_Some (renderer t);
  ok_controls : is_Some (controls t) }.

(** Visibility flags: every orbit path carries [b], everything else
    is visible as built. *)
Definition visibility_ok (b : bool) (s : Store) : Prop :=
  forall id, visible <$> get id s =
             if bool_decide (id ∈ orbits0) then Some b
             else visible <$> get id initial_store.

(** *** Invariants of the running page *)

(** A property of the world that a method keeps, whether it completes
    or throws. *)
Definition preserves (I : World -> Prop) {A : Type} (m : M A) : Prop :=
  forall w, I w ->
            match m w with
            | Done _ w' => I w'
            | Thrown _ w' => I w'
            end.

Definition same_keys (d d' : gmap string Element) : Prop :=
  forall id, is_Some (d' !! id) <-> is_Some (d !! id).

(** What is settled once the constructor has returned. *)
Record static_ok (w0 w : World) : Prop := mk_static_ok {
  st_listeners : listeners (page w) = listeners (page w0);
  st_console : console (page w) = console (page w0);
  st_infoPanel : infoPanel (this w) = infoPanel (this w0);
  st_closeButton : closeInfoPanelButton (this w) = closeInfoPanelButton (this w0);
  st_keys : same_keys (dom (page w0)) (dom (page w));
  st_mouse : is_Some (mouse (this w0)) -> is_Some (mouse (this w)) }.

Definition orbits_agree (w : World) : Prop :=
  exists b, visibility_ok b (store (this w)).

(** Once a frame has run, every mesh sits where its planet's angle
    says. *)
Definition planets_placed (w : World) : Prop :=
  rafPending (page w) = true -> Forall (placed (store (this w))) (planets (this w)).

Record invariant (h : Host) (w : World) : Prop := mk_invariant {
  inv_structure : structure_ok (this w);
  inv_static : static_ok (load h) w;
  inv_orbits : orbits_agree w;
  inv_placed : planets_placed w }.

Definition dom_set_text (id : string) (t : Text) (d : gmap string Element)
  : gmap string Element :=
  match d !! id with
  | Some e => <[id := mkElement t (active e)]> d
  | None => d
  end.

Definition dom_set_active (id : string) (b : bool) (d : gmap string Element)
  : gmap string Element :=
  match d !! id with
  | Some e => <[id := mkElement (textContent e) b]> d
  | None => d
  end.

(** The page after [showPlanetInfo(p)] has run to its end. *)
Definition dom_show (p : Planet) (d : gmap string Element) : gmap string Element :=
  dom_set_active "infoPanel" true
    (dom_set_text "sunDistance" (MillionKm (distance (config p) * 149.6))
       (dom_set_text "orbitalPeriod" (EarthDays (Math_round (distance (config p) * 10)))
          (dom_set_text "planetRadius" (Kilometres (size (config p) * 12742))
             (dom_set_text "planetName" (PlanetName (name (config p))) d)))).

Definition resize_this (W H : R) (t : SolarSystem) : SolarSystem :=
  match camera t, renderer t with
  | Some c, Some r =>
      set_renderer (Some (mkRenderer W H (pixelRatio r)))
        (set_camera (Some (mkCamera (fov c) (W / H) (near c) (far c) (camera_z c) (W / H))) t)
  | _, _ => t
  end.

(** The scene graph and the tables that refer to it. *)
Definition scene_state (t : SolarSystem) : Store * list ObjId * option ObjId * list Planet :=
  (store t, scene t, sun t, planets t).

(** A page with every element the class looks up by [id]. *)
Definition complete_page (d : gmap string Element) : Prop :=
  Forall (fun id => is_Some (d !! id))
    ["autoRotate"; "toggleOrbits"; "speedControl"; "infoPanel"; "closeInfoPanel";
     "planetName"; "planetRadius"; "orbitalPeriod"; "sunDistance"].

(** The listeners of a page whose constructor ran to its end past
    the guard of [setupUI]. *)
Definition all_listeners : list Listener :=
  [AutoRotateClick; ToggleOrbitsClick; SpeedControlInput; WindowClick;
   CloseInfoPanelClick; WindowResize].

(** [this.mouse] after a click at [(x, y)]. *)
Definition click_mouse (x y : R) (w : World) : World :=
  on_this (set_mouse (Some (mkVec2 (x / innerWidth (page w) * 2 - 1)
                                   (- (y / innerHeight (page w)) * 2 + 1)))) w.

(** What [handlePlanetClick] gets from the raycaster. *)
Definition picked (ray : Ray) (w : World) : list Intersection :=
  intersectObjects (store (this w)) ray (map mesh (planets (this w))) false.

(** What [setupUI] leaves once it is past its guard and every button
    is there. *)
Record wired_ok (w : World) : Prop := mk_wired_ok {
  wo_listeners : listeners (page w) = all_listeners;
  wo_infoPanel : infoPanel (this w) = Some "infoPanel";
  wo_closeButton : closeInfoPanelButton (this w) = Some "closeInfoPanel";
  wo_mouse : is_Some (mouse (this w));
  wo_dom : complete_page (dom (page w)) }.

(** A method that leaves the scene graph and its tables as they are,
    whether it completes or throws. *)
Definition keeps_scene {A : Type} (X : Store * list ObjId * option ObjId * list Planet)
    (m : M A) : Prop :=
  preserves (fun w => scene_state (this w) = X) m.

(** The text of the panel's heading. *)
Definition shown_name (w : World) : option Text :=
  textContent <$> (dom (page w) !! "planetName").
End ScriptSpec.

Module GuiSpec.
Import Three Gui.

(** The scene as the script builds it; it does not depend on the
    size of the window. *)
Definition initial : World := build 1 1.
Definition initial_store : Store := store initial.
Definition scene0 : list ObjId := scene initial.
Definition meshes0 : list ObjId := map mesh (planets initial).
Definition orbits0 : list ObjId := map orbit (planets initial).

(** What [createPlanet] returns, less the time scale the panel can
    change. *)
Definition body_fixed (b : Body) : ObjId * R * R * R * ObjId :=
  (mesh b, orbitRadius b, orbitSpeed b, rotationSpeed b, orbit b).

Record structure_ok (w : World) : Prop := mk_structure_ok {
  ok_scene : scene w = scene0;
  ok_sun : sun w = sun initial;
  ok_bodies : map body_fixed (planets w) = map body_fixed (planets initial);
  ok_shapes : forall id, shape <$> get id (store w) = shape <$> get id initial_store }.

(** The planets' orbit paths follow the panel's check box; every other
    object is visible as built. *)
Definition visibility_ok (w : World) : Prop :=
  forall id, visible <$> get id (store w) =
             if bool_decide (id ∈ orbits0) then Some (showOrbits (params w))
             else visible <$> get id initial_store.

Definition on_orbit (s : Store) (b : Body) : Prop :=
  exists o, get (mesh b) s = Some o /\
            (vx (position o))² + (vz (position o))² = (orbitRadius b)².

Record invariant (w : World) : Prop := mk_invariant {
  inv_structure : structure_ok w;
  inv_visibility : visibility_ok w;
  inv_orbit : Forall (on_orbit (store w)) (sun w :: planets w);
  inv_raf : rafPending w = true }.

(** Where [animate] puts a planet at clock value [now]. *)
Definition clock_angle (now : R) (w : World) (b : Body) : R :=
  now * 0.001 * orbitSpeed b * params_timeScale (params w) * timeScale b.

Definition moved (time globalTimeScale : R) (b : Body) (o : Object3D) : Object3D :=
  add_rotation_y (rotationSpeed b)
    (set_position_z (sin (time * orbitSpeed b * globalTimeScale * timeScale b) * orbitRadius b)
       (set_position_x (cos (time * orbitSpeed b * globalTimeScale * timeScale b)
                        * orbitRadius b) o)).

(** The store after a frame at clock value [now]. *)
Definition frame_store (now : R) (w : World) : Store :=
  if pause (params w) then store w
  else update (mesh (sun w)) (add_rotation_y (rotationSpeed (sun w)))
         (move_planets (now * 0.001) (params_timeScale (params w)) (planets w) (store w)).

(** The scene graph and the tables that refer to it. *)
Definition scene_state (w : World) : Store * list ObjId * Body * list Body :=
  (store w, scene w, sun w, planets w).

(** The orbit-path visuals [createPlanet] has made: the sun's and the
    planets'. *)
Definition orbit_paths (w : World) : list ObjId := orbit (sun w) :: map orbit (planets w).

Definition body_meshes (w : World) : list ObjId := mesh (sun w) :: map mesh (planets w).

(** Nothing below the object [id] answers the raycaster. *)
Definition children_inert (s : Store) (id : ObjId) : bool :=
  match get id s with
  | Some o => forallb (fun c => negb (raycastable (leaf_kind c))) (children o)
  | None => true
  end.

(** The mesh [id] is the sphere of the row [d] of the table. *)
Definition mesh_of (s : Store) (id : ObjId) (d : PlanetData) : Prop :=
  obj_kind <$> get id s = Some Mesh /\
  obj_name <$> get id s = Some (d_name d) /\
  obj_geometry <$> get id s = Some (SphereGeometry (d_radius d) 32 32).

(** The panel shows the page's own text or the name and radius of a
    row of the table. *)
Definition panel_ok (w : World) : Prop :=
  panel_content (infoPanel w) = PageContent \/
  exists d, d ∈ planetData /\
            panel_content (infoPanel w) = PlanetInfo (d_name d) (d_radius d).

(** The world when a click at [(x, y)] has focused on the mesh [id]. *)
Definition focused (id : ObjId) (x y now : R) (w : World) : World :=
  let o := object_at id (store w) in
  let r := parameters_radius (obj_geometry o) in
  set_infoPanel (mkInfoPanel Block (PlanetInfo (obj_name o) r))
    (log_call ControlsUpdate
       (set_controls (mkOrbitControls false (position o))
          (set_tweens
             (tweens w ++
              [mkTween (add3 (position o) (mkVec3 (r * 2.5) (r * 1.5) (r * 2.5)))
                       (LookAtObject id) now])
             (set_mouse (ndc x y w) w)))).

Definition hidden (w : World) : World :=
  set_infoPanel (mkInfoPanel DisplayNone (panel_content (infoPanel w))) w.
End GuiSpec.

(** ** The claims as the specification words them, where the code
       differs *)

Module Stated.

(** A page with every element of the repository's HTML, a generator
    that draws 0, and a window of 800 by 600. *)
Definition demo_host : Script.Host := Script.mkHost 800 600 1 (fun _ => 0) Script.page_dom.

(** The stored angle after [n] frames at speed 1 is the start angle
    plus [n] increments, wrapped modulo 2π. *)
Definition wrapped_angles (w : Script.World) (n : nat) : Prop :=
  Script.simulationSpeed (Script.this w) = None ->
  forall i p p',
    Script.planets (Script.this w) !! i = Some p ->
    Script.planets (Script.this (ScriptSpec.frames n w)) !! i = Some p' ->
    Script.angle p' = wrap_2pi (Script.angle p + INR n * ScriptSpec.orbitSpeed p).

Definition no_ray : Three.Ray := fun _ => [].

(** One activation of the check box flips the flag of every
    orbit-path visual. *)
Definition toggle_flips_every_orbit_path (w : Gui.World) : Prop :=
  forall id, id ∈ GuiSpec.orbit_paths w ->
             Three.visible <$> Three.get id (Gui.store (Gui.toggle_showOrbits w))
             = negb <$> (Three.visible <$> Three.get id (Gui.store w)).

(** All orbit-path visuals carry the same flag. *)
Definition orbit_paths_agree (w : Gui.World) : Prop :=
  forall a b, a ∈ GuiSpec.orbit_paths w -> b ∈ GuiSpec.orbit_paths w ->
              Three.visible <$> Three.get a (Gui.store w)
              = Three.visible <$> Three.get b (Gui.store w).

(** The page of the repository without its info panel. *)
Definition no_panel_host : Script.Host :=
  Script.mkHost 800 600 1 (fun _ => 0) (delete "infoPanel" Script.page_dom).

(** With an anchor missing, the constructor reports and starts
    nothing: no frame is drawn or requested, no listener is
    registered. *)
Definition aborts_without_anchor (h : Script.Host) : Prop :=
  ScriptSpec.anchors_missing (Script.host_dom h) ->
  Script.console (Script.page (Script.load h)) <> [] /\
  Script.rafPending (Script.page (Script.load h)) = false /\
  Script.calls (Script.page (Script.load h)) = [] /\
  Script.listeners (Script.page (Script.load h)) = [].

(** A ray that crosses Earth's mesh (the object numbered 6 in
    [script.js]) at distance 30, and nothing else. *)
Definition earth_ray : Three.Ray := fun id => if Nat.eqb id 6 then [30] else [].

(** A click whose ray meets no planet leaves the info panel hidden. *)
Definition miss_hides_panel (w : Script.World) : Prop :=
  forall t x y ray,
    ScriptSpec.picked ray (Script.click_target t w) = [] ->
    Script.active <$>
      (Script.dom (Script.page (Script.dispatch (Script.Click t x y ray) w)) !! "infoPanel")
    = Some false.
End Stated.

(** Sorting the children of the scene by what they draw. *)
Definition is_sphere_mesh (s : Three.Store) (id : Three.ObjId) : bool :=
  match Three.get id s with
  | Some o =>
      match Three.obj_kind o, Three.obj_geometry o with
      | Three.Mesh, Three.SphereGeometry _ _ _ => true
      | _, _ => false
      end
  | None => false
  end.

Definition is_ring_mesh (s : Three.Store) (id : Three.ObjId) : bool :=
  match Three.get id s with
  | Some o =>
      match Three.obj_kind o, Three.obj_geometry o with
      | Three.Mesh, Three.RingGeometry _ _ _ => true
      | _, _ => false
      end
  | None => false
  end.


(** ** Vocabulary of the further properties *)

Module ScriptView.
Import Three Script ScriptSpec.

(** The page without its document, its uncaught errors and its
    generator: what no listener but a frame changes. *)
Definition page_frame (p : Page)
  : R * R * R * N * bool * list Listener * list string * bool * list Call :=
  (innerWidth p, innerHeight p, devicePixelRatio p, randomCalls p, canvasAttached p,
   listeners p, console p, rafPending p, calls p).

Definition keeps_page {A : Type}
    (X : R * R * R * N * bool * list Listener * list string * bool * list Call)
    (m : M A) : Prop :=
  preserves (fun w => page_frame (page w) = X) m.

(** The text of the element [key]. *)
Definition text_of (key : string) (w : World) : option Text :=
  textContent <$> (dom (page w) !! key).

(** The settings [setupControls] makes, with auto-rotation on or off. *)
Definition controls_as_set (t : SolarSystem) : Prop :=
  exists b, controls t = Some (mkOrbitControls true 0.05 20 200 b 0.5).

(** The controls after a click on the auto-rotate button. *)
Definition toggled (c : OrbitControls) : OrbitControls :=
  mkOrbitControls (enableDamping c) (dampingFactor c) (minDistance c) (maxDistance c)
                  (negb (autoRotate c)) (autoRotateSpeed c).

Definition autoRotate_label (b : bool) : Text :=
  if b then AutoRotateRunning else AutoRotateStopped.

(** The children of a planet's mesh: Saturn's rings, which take the
    identity after the mesh's, or none. *)
Definition rings (mesh : ObjId) (c : Config) : list Leaf :=
  if String.eqb (name c) "Saturn"
  then [mkLeaf (S mesh) Mesh (RingGeometry (size c * 1.2) (size c * 2.2) 64)
               0xcccccc "" zero3 (mkVec3 (PI * 0.4) 0 0)]
  else [].

Definition planet_as_built (s : Store) (mesh : ObjId) (c : Config) : Prop :=
  shape <$> get mesh s
  = Some (Mesh, SphereGeometry (size c) 32 32, color c, "", rings mesh c).

(** Position and rotation of an object without the coordinates a
    frame sets. *)
Definition off_orbit (o : Object3D) : R * R * R :=
  (vy (position o), vx (rotation o), vz (rotation o)).
End ScriptView.

Module GuiView.
Import Three Gui GuiSpec.

(** The arguments of [createPlanet] for the sun, as a row of the
    table. *)
Definition sun_data : PlanetData := mkPlanetData 5 0xffff00 0 0 0.01 "Sun" 1.0.

(** What [createPlanet] makes from a row: the mesh with its label, the
    orbit path (which takes the identity after the mesh's, the label
    the one after that), and the record it returns. *)
Definition built_from (s : Store) (d : PlanetData) (f : ObjId * R * R * R * ObjId) : Prop :=
  let '(mesh, orbitRadius, orbitSpeed, rotationSpeed, orbit) := f in
  orbit = S mesh /\ orbitRadius = d_distance d /\ orbitSpeed = d_orbitSpeed d /\
  rotationSpeed = d_rotationSpeed d /\
  shape <$> get mesh s
  = Some (Mesh, SphereGeometry (d_radius d) 32 32, d_color d, d_name d,
          [mkLeaf (S orbit) CSS2DObject NoGeometry 0 (d_name d)
                  (mkVec3 0 (d_radius d + 1) 0) zero3]) /\
  but_visible <$> get orbit s
  = Some (mkObject3D Line (RingGeometry (d_distance d - 0.1) (d_distance d + 0.1) 128)
                     0x888888 "" zero3 (mkVec3 (PI / 2) 0 0) true []).

(** The orbit paths are as built, but for the visibility flag. *)
Definition orbits_kept (w : World) : Prop :=
  forall id, id ∈ orbit (sun initial) :: orbits0 ->
             but_visible <$> get id (store w) = but_visible <$> get id initial_store.

(** The camera is handed back: the controls are disabled only while a
    tween is under way. *)
Definition controls_released (w : World) : Prop :=
  enabled (controls w) = false -> tweens w <> [].

Definition off_orbit (o : Object3D) : R * R * R :=
  (vy (position o), vx (rotation o), vz (rotation o)).

(** A ray that crosses Earth's mesh (the object numbered 11 in the
    module variant) at distance 40, and nothing else. *)
Definition earth_ray : Ray := fun id => if Nat.eqb id 11 then [40] else [].


End GuiView.

(** ** The info panel of the HTML page with the class inlined

    [showPlanetInfo] of that page opens the panel and starts a timer
    that closes it 5000 ms later; nothing cancels a timer. *)

Module InlinePanel.

Record Info := mkInfo {
  info_name : string; info_radius : R; info_period : R; info_distance : R }.

(** The panel, and the times at which the pending timers are due, in
    the order they were started. *)
Record World := mkWorld {
  panel_active : bool;
  panel_info : option Info;
  timers : list R }.

Definition load : World := mkWorld false None [].

(** The four texts [showPlanetInfo] writes for a planet. *)
Definition info_of (c : Script.Config) : Info :=
  mkInfo (Script.name c) (Script.size c * 12742)
         (Three.Math_round (Script.distance c * 10))
         (Script.distance c * 149.6).

(** [showPlanetInfo(planet)] called at time [now] (ms). *)
Definition showPlanetInfo (c : Script.Config) (now : R) (w : World) : World :=
  mkWorld true (Some (info_of c)) (timers w ++ [now + 5000]).

(** The callback of a timer: [infoPanel.classList.remove('active')]. *)
Definition onTimeout (w : World) : World :=
  mkWorld false (panel_info w) (timers w).

(** The host runs the oldest pending timer, once it is due.  All the
    timers have the same delay, so this is the order in which they
    run. *)
Definition run_timer (now : R) (w : World) : World :=
  match timers w with
  | t :: rest =>
      if Rle_dec t now
      then onTimeout (mkWorld (panel_active w) (panel_info w) rest)
      else w
  | [] => w
  end.

Inductive Event :=
| ClickPlanet (c : Script.Config) (now : R)
| Timer (now : R).

Definition dispatch (e : Event) (w : World) : World :=
  match e with
  | ClickPlanet c now => showPlanetInfo c now w
  | Timer now => run_timer now w
  end.

Definition dispatch_all (es : list Event) (w : World) : World :=
  foldl (fun w e => dispatch e w) w es.

(** The planets of the page, as its table has them. *)
Definition earth : Script.Config := Script.mkConfig "Earth" 0x4169E1 1 20.
Definition mars : Script.Config := Script.mkConfig "Mars" 0xFF4500 0.5 25.

End InlinePanel.

(** ** Facts about the store and the raycaster *)

Section ThreeFacts.
Import Three.

Lemma get_update (id id' : ObjId) (f : Object3D -> Object3D) (s : Store) :
  get id (update id' f s) = if decide (id' = id) then f <$> get id s else get id s.
Proof.
  unfold get, update; simpl. rewrite lookup_alter.
  destruct (decide (id' = id)) as [->|]; reflexivity.
Qed.

Lemma get_update_eq id f s : get id (update id f s) = f <$> get id s.
Proof. rewrite get_update. destruct (decide (id = id)); congruence. Qed.

Lemma get_update_ne id id' f s : id' <> id -> get id (update id' f s) = get id s.
Proof. intros H. rewrite get_update. destruct (decide (id' = id)); congruence. Qed.

Lemma update_update id f g s : update id f (update id g s) = update id (f ∘ g) s.
Proof. unfold update; simpl. f_equal. apply alter_alter_eq. Qed.

Lemma store_eq (s s' : Store) :
  nextId s = nextId s' -> (forall id, get id s = get id s') -> s = s'.
Proof.
  destruct s as [m n], s' as [m' n']; unfold get; simpl. intros -> H.
  f_equal. apply map_eq, H.
Qed.

Lemma update_all_cons f i ids s :
  update_all f (i :: ids) s = update_all f ids (update i f s).
Proof. reflexivity. Qed.

Lemma nextId_update_all f ids s : nextId (update_all f ids s) = nextId s.
Proof.
  revert s. induction ids as [|i ids IH]; intros s; [reflexivity|].
  rewrite update_all_cons, IH. reflexivity.
Qed.

Lemma get_update_all_other f ids s id :
  id ∉ ids -> get id (update_all f ids s) = get id s.
Proof.
  revert s. induction ids as [|i ids IH]; intros s Hid; [reflexivity|].
  apply not_elem_of_cons in Hid as [Hne Hid].
  rewrite update_all_cons, IH by exact Hid. apply get_update_ne. congruence.
Qed.

Lemma get_update_all_elem f ids s id :
  NoDup ids -> id ∈ ids -> get id (update_all f ids s) = f <$> get id s.
Proof.
  revert s. induction ids as [|i ids IH]; intros s Hnd Hid; [inversion Hid|].
  apply NoDup_cons in Hnd as [Hi Hnd]. rewrite update_all_cons.
  apply elem_of_cons in Hid as [->|Hid].
  - rewrite get_update_all_other by exact Hi. apply get_update_eq.
  - rewrite IH by assumption.
    rewrite get_update_ne; [reflexivity|]. intros ->. contradiction.
Qed.

(** An update that keeps an observable of every object keeps it in
    the store. *)
Lemma update_observable {A} (obs : Object3D -> A) id f s id' :
  (forall o, obs (f o) = obs o) ->
  obs <$> get id' (update id f s) = obs <$> get id' s.
Proof.
  intros H. rewrite get_update. destruct (decide (id = id')); [|reflexivity].
  destruct (get id' s); simpl; [|reflexivity]. rewrite H. reflexivity.
Qed.

Lemma update_all_observable {A} (obs : Object3D -> A) f ids s id' :
  (forall o, obs (f o) = obs o) ->
  obs <$> get id' (update_all f ids s) = obs <$> get id' s.
Proof.
  intros H. revert s. induction ids as [|i ids IH]; intros s; [reflexivity|].
  rewrite update_all_cons, IH. apply update_observable, H.
Qed.

Lemma shapes_stored (s s0 : Store) id :
  shape <$> get id s = shape <$> get id s0 ->
  is_Some (get id s0) -> is_Some (get id s).
Proof.
  intros E [o Ho]. rewrite Ho in E. destruct (get id s); [eauto|discriminate].
Qed.

Lemma insert_hit_elem h x l : x ∈ insert_hit h l <-> x = h \/ x ∈ l.
Proof.
  induction l as [|a l IH]; simpl.
  - rewrite list_elem_of_singleton. split; [auto|]. intros [E|E]; [exact E|inversion E].
  - destruct (Rle_dec (hit_distance h) (hit_distance a)).
    + rewrite !elem_of_cons. tauto.
    + rewrite !elem_of_cons, IH. tauto.
Qed.

Lemma ascSort_elem x l : x ∈ ascSort l <-> x ∈ l.
Proof.
  induction l as [|a l IH]; simpl; [reflexivity|].
  rewrite insert_hit_elem, IH, elem_of_cons. reflexivity.
Qed.

Lemma insert_hit_head_least h l : head_least l -> head_least (insert_hit h l).
Proof.
  destruct l as [|a l]; simpl; [intros _ x Hx; inversion Hx|].
  intros Hl. destruct (Rle_dec (hit_distance h) (hit_distance a)) as [Hle|Hgt]; simpl.
  - intros x Hx. apply elem_of_cons in Hx as [->|Hx]; [exact Hle|].
    specialize (Hl x Hx). lra.
  - intros x Hx. apply insert_hit_elem in Hx as [->|Hx]; [lra|auto].
Qed.

Lemma ascSort_head_least l : head_least (ascSort l).
Proof.
  induction l as [|a l IH]; simpl; [exact I|]. apply insert_hit_head_least, IH.
Qed.

Lemma ascSort_first l h t :
  ascSort l = h :: t -> h ∈ l /\ forall x, x ∈ l -> hit_distance h <= hit_distance x.
Proof.
  intros E. split.
  - apply ascSort_elem. rewrite E. left.
  - intros x Hx. apply ascSort_elem in Hx. rewrite E in Hx.
    pose proof (ascSort_head_least l) as Hl. rewrite E in Hl. simpl in Hl.
    apply elem_of_cons in Hx as [->|Hx]; [lra|auto].
Qed.

Lemma ascSort_nil l : ascSort l = [] <-> l = [].
Proof.
  split; [|intros ->; reflexivity].
  intros E. destruct l as [|a l]; [reflexivity|].
  assert (a ∈ ascSort (a :: l)) as H by (apply ascSort_elem; left).
  rewrite E in H. inversion H.
Qed.

(** What [intersectObjects] finds, in terms of the ray. *)
Lemma raycast_elem ray id k x :
  x ∈ raycast ray id k <->
  raycastable k = true /\ hit_object x = id /\ hit_distance x ∈ ray id.
Proof.
  unfold raycast. destruct (raycastable k).
  - rewrite list_elem_of_fmap. split.
    + intros (d & -> & Hd). simpl. auto.
    + intros (_ & Hid & Hd). exists (hit_distance x). split; [|exact Hd].
      destruct x; simpl in *. congruence.
  - split; [intros H; inversion H|intros (H & _); discriminate].
Qed.

Lemma intersectObjects_flat_elem s ray objs x :
  x ∈ intersectObjects s ray objs false <->
  exists o, hit_object x ∈ objs /\ get (hit_object x) s = Some o /\
            raycastable (obj_kind o) = true /\ hit_distance x ∈ ray (hit_object x).
Proof.
  unfold intersectObjects. rewrite ascSort_elem, list_elem_of_In, in_flat_map.
  split.
  - intros (id & Hid & Hx). apply list_elem_of_In in Hid, Hx.
    unfold intersectObject in Hx. destruct (get id s) as [o|] eqn:E; [|inversion Hx].
    rewrite app_nil_r in Hx. apply raycast_elem in Hx as (Hk & <- & Hd).
    exists o. auto.
  - intros (o & Hid & Ho & Hk & Hd). exists (hit_object x).
    rewrite <- !list_elem_of_In. split; [exact Hid|].
    unfold intersectObject. rewrite Ho, app_nil_r. apply raycast_elem. auto.
Qed.

(** The result depends on the ray only through the listed objects. *)
Lemma intersectObjects_flat_ext s ray ray' objs :
  (forall id, id ∈ objs -> ray id = ray' id) ->
  intersectObjects s ray objs false = intersectObjects s ray' objs false.
Proof.
  intros H. unfold intersectObjects. f_equal.
  induction objs as [|id objs IH]; simpl; [reflexivity|].
  rewrite IH by (intros; apply H; right; assumption). f_equal.
  unfold intersectObject, raycast. rewrite (H id) by left. reflexivity.
Qed.
End ThreeFacts.
(** ** [script.js]: how the world is built *)

Section ScriptBuild.
Import Three Script ScriptSpec.

Lemma initScene_done h : initScene (blank h) = Done tt (after_initScene h).
Proof. reflexivity. Qed.

Lemma createCelestialBodies_done h :
  createCelestialBodies (after_initScene h) = Done tt (after_createCelestialBodies h).
Proof. vm_compute. reflexivity. Qed.

Lemma setupControls_done h :
  setupControls (after_createCelestialBodies h) = Done tt (built h).
Proof. reflexivity. Qed.

Lemma built_store h : store (this (built h)) = initial_store.
Proof. vm_compute. reflexivity. Qed.

Lemma built_scene h : scene (this (built h)) = scene0.
Proof. vm_compute. reflexivity. Qed.

Lemma built_sun h : sun (this (built h)) = Some sun0.
Proof. vm_compute. reflexivity. Qed.

Lemma built_meshes h : map mesh (planets (this (built h))) = meshes0.
Proof. vm_compute. reflexivity. Qed.

Lemma built_orbits h : map orbit (planets (this (built h))) = orbits0.
Proof. vm_compute. reflexivity. Qed.

Lemma built_configs h : map config (planets (this (built h))) = planets_config.
Proof. vm_compute. reflexivity. Qed.


Lemma built_camera h :
  camera (this (built h)) =
  Some (mkCamera 75 (host_innerWidth h / host_innerHeight h) 0.1 1000 50
                 (host_innerWidth h / host_innerHeight h)).
Proof. reflexivity. Qed.

Lemma built_renderer h :
  renderer (this (built h)) =
  Some (mkRenderer (host_innerWidth h) (host_innerHeight h) (host_devicePixelRatio h)).
Proof. reflexivity. Qed.

Lemma built_controls h :
  controls (this (built h)) = Some (mkOrbitControls true 0.05 20 200 true 0.5).
Proof. reflexivity. Qed.

Lemma built_page h :
  page (built h) =
  mkPage (host_innerWidth h) (host_innerHeight h) (host_devicePixelRatio h)
         (host_random h) 30008%N (host_dom h) true [] [] [] false [].
Proof. vm_compute. reflexivity. Qed.

Lemma built_ui h :
  infoPanel (this (built h)) = None /\ closeInfoPanelButton (this (built h)) = None /\
  simulationSpeed (this (built h)) = None /\ mouse (this (built h)) = None.
Proof. vm_compute. auto. Qed.

Lemma load_eq h :
  load h = run (setupUI ;;; animate ;;; addEventListener WindowResize)%js (built h).
Proof.
  unfold load, constructor, run, bind.
  rewrite initScene_done, createCelestialBodies_done, setupControls_done. reflexivity.
Qed.
End ScriptBuild.
(** ** [script.js]: what each method does to the world *)

Section ScriptMethods.
Import Three Script ScriptSpec.

Ltac setters :=
  cbv [set_innerWidth set_innerHeight set_randomCalls set_dom set_canvasAttached
       set_listeners set_console set_uncaught set_rafPending set_calls
       set_store set_scene set_camera set_renderer set_sun set_planets set_controls
       set_infoPanel set_closeInfoPanelButton set_simulationSpeed set_mouse
       on_page on_this add_listener];
  cbn [innerWidth innerHeight devicePixelRatio random randomCalls dom canvasAttached
       listeners console uncaught rafPending calls
       store scene camera renderer sun planets controls infoPanel closeInfoPanelButton
       simulationSpeed mouse page this].

Ltac monad :=
  cbv beta iota delta [bind ret gets modify throw deref getElementById addEventListener
                       console_error requestAnimationFrame log_call].

Lemma animate_planet_eq k p s :
  animate_planet k p s = (set_angle (next_angle k p) p, update (mesh p) (moved k p) s).
Proof.
  unfold animate_planet, moved, next_angle. f_equal.
  rewrite !update_update. reflexivity.
Qed.

Lemma animate_planets_cons k p ps s :
  animate_planets k (p :: ps) s =
  (set_angle (next_angle k p) p
     :: fst (animate_planets k ps (update (mesh p) (moved k p) s)),
   snd (animate_planets k ps (update (mesh p) (moved k p) s))).
Proof.
  change (animate_planets k (p :: ps) s)
    with (let '(p', s') := animate_planet k p s in
          let '(t', s'') := animate_planets k ps s' in (p' :: t', s'')).
  rewrite animate_planet_eq.
  destruct (animate_planets k ps _) as [t' s'']. reflexivity.
Qed.

Lemma animate_planets_fst k ps s :
  fst (animate_planets k ps s) = map (fun p => set_angle (next_angle k p) p) ps.
Proof.
  revert s. induction ps as [|p ps IH]; intros s; [reflexivity|].
  rewrite animate_planets_cons. simpl. f_equal. apply IH.
Qed.

Lemma animate_planets_snd k ps s :
  snd (animate_planets k ps s) = foldl (fun s p => update (mesh p) (moved k p) s) s ps.
Proof.
  revert s. induction ps as [|p ps IH]; intros s; [reflexivity|].
  rewrite animate_planets_cons. simpl. apply IH.
Qed.

Lemma moved_fold_get_other k ps s id :
  id ∉ map mesh ps ->
  get id (foldl (fun s p => update (mesh p) (moved k p) s) s ps) = get id s.
Proof.
  revert s. induction ps as [|p ps IH]; intros s Hid; simpl; [reflexivity|].
  simpl in Hid. apply not_elem_of_cons in Hid as [Hne Hid].
  rewrite IH by exact Hid. apply get_update_ne. congruence.
Qed.

Lemma moved_fold_get k ps s p :
  NoDup (map mesh ps) -> p ∈ ps ->
  get (mesh p) (foldl (fun s p => update (mesh p) (moved k p) s) s ps)
  = moved k p <$> get (mesh p) s.
Proof.
  revert s. induction ps as [|q ps IH]; intros s Hnd Hp; simpl; [inversion Hp|].
  simpl in Hnd. apply NoDup_cons in Hnd as [Hq Hnd].
  apply elem_of_cons in Hp as [->|Hp].
  - rewrite moved_fold_get_other by exact Hq. apply get_update_eq.
  - rewrite IH by assumption. rewrite get_update_ne; [reflexivity|].
    intros E. apply Hq. rewrite E. apply list_elem_of_fmap. eauto.
Qed.

Lemma animate_this_eq t :
  (let '(ps, s) := animate_planets (speed_factor (simulationSpeed t)) (planets t) (store t) in
   set_store s (set_planets ps t)) = animate_this t.
Proof. unfold animate_this. destruct (animate_planets _ _ _). reflexivity. Qed.

Lemma animate_this_fields t :
  controls (animate_this t) = controls t /\ renderer (animate_this t) = renderer t /\
  camera (animate_this t) = camera t.
Proof. unfold animate_this. simpl. auto. Qed.

(** A frame always reschedules itself and moves the planets, even if
    it ends in an exception. *)
Lemma run_animate w :
  exists cs us,
    run animate w =
    mkWorld (set_uncaught us (set_calls cs (set_rafPending true (page w))))
            (animate_this (this w)).
Proof.
  destruct w as [pg t].
  cbv beta iota delta [run animate bind requestAnimationFrame modify gets log_call deref
                       ret throw on_this on_page this page].
  rewrite animate_this_eq. destruct (animate_this_fields t) as (Ec & Er & Ea).
  destruct pg.
  rewrite Ec. destruct (controls t); [|setters; eexists _, _; reflexivity].
  cbv beta iota. rewrite Er. destruct (renderer t); [|setters; eexists _, _; reflexivity].
  cbv beta iota. rewrite Ea. destruct (camera t); setters; eexists _, _; reflexivity.
Qed.

Lemma animate_done w :
  is_Some (controls (this w)) -> is_Some (renderer (this w)) -> is_Some (camera (this w)) ->
  animate w = Done tt (animate_world w).
Proof.
  destruct w as [pg t]. simpl. intros [c Hc] [r Hr] [a Ha].
  cbv beta iota delta [animate animate_world bind requestAnimationFrame modify gets log_call
                       deref ret throw on_this on_page this page].
  rewrite animate_this_eq. destruct (animate_this_fields t) as (Ec & Er & Ea).
  rewrite Ec, Hc. cbv beta iota. rewrite Er, Hr. cbv beta iota. rewrite Ea, Ha.
  destruct pg. setters. rewrite <- app_assoc. reflexivity.
Qed.

Lemma setupUI_guarded w :
  anchors_missing (dom (page w)) -> setupUI w = Done tt (guarded w).
Proof.
  destruct w as [pg t]. unfold anchors_missing, setupUI, guarded. monad. setters.
  intros [H|H]; rewrite H; [reflexivity|].
  destruct (dom pg !! "infoPanel"); reflexivity.
Qed.

Ltac lookups :=
  repeat (setters; cbv beta iota;
          match goal with
          | H : ?d !! ?k = _ |- context [?d !! ?k] => rewrite H
          end).

Lemma setupUI_cases w :
  let d := dom (page w) in
  match d !! "infoPanel", d !! "closeInfoPanel" with
  | Some _, Some _ =>
      match d !! "autoRotate", d !! "toggleOrbits", d !! "speedControl" with
      | Some _, Some _, Some _ => setupUI w = Done tt (wired w)
      | Some _, Some _, None =>
          setupUI w = Thrown (TypeError "speedControl")
                        (add_listener ToggleOrbitsClick
                           (add_listener AutoRotateClick (anchored w)))
      | Some _, None, _ =>
          setupUI w = Thrown (TypeError "toggleOrbits")
                        (add_listener AutoRotateClick (anchored w))
      | None, _, _ => setupUI w = Thrown (TypeError "autoRotate") (anchored w)
      end
  | _, _ => setupUI w = Done tt (guarded w)
  end.
Proof.
  destruct w as [pg t]. destruct pg as [W H dpr rnd rc d ca ls co un raf cl].
  cbn [page dom]. cbv zeta.
  destruct (d !! "infoPanel") as [ip|] eqn:Eip;
    [|apply setupUI_guarded; left; exact Eip].
  destruct (d !! "closeInfoPanel") as [cb|] eqn:Ecb;
    [|apply setupUI_guarded; right; exact Ecb].
  destruct (d !! "autoRotate") as [a|] eqn:Ea;
    [destruct (d !! "toggleOrbits") as [b|] eqn:Eb;
     [destruct (d !! "speedControl") as [c|] eqn:Ec|]|];
    unfold setupUI, wired, anchored; monad; lookups;
    setters; simpl; rewrite <- ?app_assoc; reflexivity.
Qed.
End ScriptMethods.
(** ** [script.js]: properties kept by the methods *)

Section Preserves.
Import Three Script ScriptSpec.
Variable I : World -> Prop.

Lemma preserves_ret {A} (a : A) : preserves I (ret a).
Proof. intros w Hw. exact Hw. Qed.

Lemma preserves_throw {A} (e : JsError) : preserves I (@throw A e).
Proof. intros w Hw. exact Hw. Qed.

Lemma preserves_gets {A} (f : World -> A) : preserves I (gets f).
Proof. intros w Hw. exact Hw. Qed.

Lemma preserves_modify (f : World -> World) :
  (forall w, I w -> I (f w)) -> preserves I (modify f).
Proof. intros H w Hw. apply H, Hw. Qed.

Lemma preserves_bind {A B} (m : M A) (k : A -> M B) :
  preserves I m -> (forall a, preserves I (k a)) -> preserves I (bind m k).
Proof.
  intros Hm Hk w Hw. unfold bind. specialize (Hm w Hw).
  destruct (m w) as [a w'|e w']; [apply Hk, Hm|exact Hm].
Qed.

Lemma preserves_deref {A} (what : string) (o : option A) : preserves I (deref what o).
Proof. destruct o; [apply preserves_ret|apply preserves_throw]. Qed.

Lemma preserves_getElementById id : preserves I (getElementById id).
Proof. apply preserves_gets. Qed.

Lemma preserves_forEachM {A} (f : A -> M unit) (l : list A) :
  (forall a, preserves I (f a)) -> preserves I (forEachM f l).
Proof.
  intros Hf. induction l as [|a l IH]; simpl; [apply preserves_ret|].
  apply preserves_bind; [apply Hf|intros _; exact IH].
Qed.

Lemma preserves_run (m : M unit) (w : World) :
  preserves I m -> (forall e w, I w -> I (report e w)) -> I w -> I (run m w).
Proof.
  intros Hm Hr Hw. unfold run. specialize (Hm w Hw).
  destruct (m w) as [a w'|e w']; [exact Hm|apply Hr, Hm].
Qed.

Lemma preserves_fire (l : Listener) (m : M unit) (w : World) :
  preserves I m -> (forall e w, I w -> I (report e w)) -> I w -> I (fire l m w).
Proof.
  intros Hm Hr Hw. unfold fire. destruct (registered l w); [|exact Hw].
  apply preserves_run; assumption.
Qed.
End Preserves.

(** Breaking a method into the steps that change the world. *)
Ltac preserve_step :=
  lazymatch goal with
  | |- ScriptSpec.preserves _ (Script.bind _ _) => apply preserves_bind; [|intros ?]
  | |- ScriptSpec.preserves _ (Script.ret _) => apply preserves_ret
  | |- ScriptSpec.preserves _ (Script.throw _) => apply preserves_throw
  | |- ScriptSpec.preserves _ (Script.gets _) => apply preserves_gets
  | |- ScriptSpec.preserves _ (Script.deref _ _) => apply preserves_deref
  | |- ScriptSpec.preserves _ (Script.getElementById _) => apply preserves_getElementById
  | |- ScriptSpec.preserves _ (Script.forEachM _ _) => apply preserves_forEachM; intros ?
  | |- ScriptSpec.preserves _ (match ?x with _ => _ end) => destruct x
  end.

Ltac preserve_steps := repeat preserve_step.

Section ScriptInvariant.
Import Three Script ScriptSpec.

Ltac setters :=
  cbv [set_innerWidth set_innerHeight set_randomCalls set_dom set_canvasAttached
       set_listeners set_console set_uncaught set_rafPending set_calls
       set_store set_scene set_camera set_renderer set_sun set_planets set_controls
       set_infoPanel set_closeInfoPanelButton set_simulationSpeed set_mouse
       on_page on_this add_listener report];
  cbn [innerWidth innerHeight devicePixelRatio random randomCalls dom canvasAttached
       listeners console uncaught rafPending calls
       store scene camera renderer sun planets controls infoPanel closeInfoPanelButton
       simulationSpeed mouse page this].

Lemma moved_fold_observable {A} (obs : Object3D -> A) k ps s id :
  (forall p o, obs (moved k p o) = obs o) ->
  obs <$> get id (foldl (fun s p => update (mesh p) (moved k p) s) s ps) = obs <$> get id s.
Proof.
  intros H. revert s. induction ps as [|p ps IH]; intros s; simpl; [reflexivity|].
  rewrite IH. apply update_observable, H.
Qed.

Lemma same_keys_refl d : same_keys d d.
Proof. intros id. reflexivity. Qed.

Lemma same_keys_trans d1 d2 d3 : same_keys d1 d2 -> same_keys d2 d3 -> same_keys d1 d3.
Proof. intros H12 H23 id. etransitivity; [apply H23|apply H12]. Qed.

Lemma same_keys_insert d id e : is_Some (d !! id) -> same_keys d (<[id := e]> d).
Proof.
  intros Hid id'. destruct (decide (id = id')) as [<-|Hne].
  - rewrite lookup_insert_eq. split; [intros _; exact Hid|eauto].
  - rewrite lookup_insert_ne by exact Hne. reflexivity.
Qed.

(** *** Steps that keep the invariant *)

Lemma static_on_page w0 (f : Page -> Page) w :
  listeners (f (page w)) = listeners (page w) -> console (f (page w)) = console (page w) ->
  same_keys (dom (page w)) (dom (f (page w))) ->
  static_ok w0 w -> static_ok w0 (on_page f w).
Proof.
  intros El Ec Ek [Hl Hc Hi Hb Hk Hm].
  split; unfold on_page; cbn [page this];
    [congruence|congruence|exact Hi|exact Hb| |exact Hm].
  eapply same_keys_trans; [exact Hk|exact Ek].
Qed.

Lemma static_on_this w0 (f : SolarSystem -> SolarSystem) w :
  infoPanel (f (this w)) = infoPanel (this w) ->
  closeInfoPanelButton (f (this w)) = closeInfoPanelButton (this w) ->
  (is_Some (mouse (this w)) -> is_Some (mouse (f (this w)))) ->
  static_ok w0 w -> static_ok w0 (on_this f w).
Proof.
  intros Ei Eb Em [Hl Hc Hi Hb Hk Hm].
  split; unfold on_this; cbn [page this];
    [exact Hl|exact Hc|congruence|congruence|exact Hk|auto].
Qed.

Lemma invariant_on_page h (f : Page -> Page) w :
  (forall p, listeners (f p) = listeners p /\ console (f p) = console p /\
             same_keys (dom p) (dom (f p)) /\ rafPending (f p) = rafPending p) ->
  invariant h w -> invariant h (on_page f w).
Proof.
  intros Hf [Hs Ht Ho Hp].
  destruct (Hf (page w)) as (El & Ec & Ek & Er).
  split; [exact Hs| |exact Ho|].
  - apply static_on_page; assumption.
  - unfold planets_placed, on_page in *. cbn [page this]. rewrite Er. exact Hp.
Qed.

Lemma invariant_on_this h (f : SolarSystem -> SolarSystem) w :
  (forall t, store (f t) = store t /\ scene (f t) = scene t /\ sun (f t) = sun t /\
             planets (f t) = planets t /\ infoPanel (f t) = infoPanel t /\
             closeInfoPanelButton (f t) = closeInfoPanelButton t /\
             (is_Some (camera t) -> is_Some (camera (f t))) /\
             (is_Some (renderer t) -> is_Some (renderer (f t))) /\
             (is_Some (controls t) -> is_Some (controls (f t))) /\
             (is_Some (mouse t) -> is_Some (mouse (f t)))) ->
  invariant h w -> invariant h (on_this f w).
Proof.
  intros Hf [[S1 S2 S3 S4 S5 S6 S7 S8 S9] Ht Ho Hp].
  destruct (Hf (this w)) as (E1 & E2 & E3 & E4 & E5 & E6 & E7 & E8 & E9 & E10).
  split.
  - split; unfold on_this; cbn [page this]; rewrite ?E1, ?E2, ?E3, ?E4; auto.
  - apply static_on_this; assumption.
  - unfold orbits_agree, on_this in *. cbn [page this]. rewrite E1. exact Ho.
  - unfold planets_placed, on_this in *. cbn [page this]. rewrite E1, E4. exact Hp.
Qed.

Lemma invariant_report h e w : invariant h w -> invariant h (report e w).
Proof.
  apply (invariant_on_page h (fun p => set_uncaught (uncaught p ++ [e]) p)).
  intros p. cbn. auto using same_keys_refl.
Qed.

(** The two writes to the document keep the invariant: they replace
    an element that is there. *)
Lemma invariant_set_dom h d w :
  same_keys (dom (page w)) d -> invariant h w -> invariant h (on_page (set_dom d) w).
Proof.
  intros Hd [Hs Ht Ho Hp].
  split; [exact Hs| |exact Ho|exact Hp].
  apply static_on_page; [reflexivity|reflexivity|exact Hd|exact Ht].
Qed.

Lemma set_textContent_eq id t w :
  set_textContent id t w =
  match dom (page w) !! id with
  | Some _ => Done tt (on_page (set_dom (dom_set_text id t (dom (page w)))) w)
  | None => Thrown (TypeError id) w
  end.
Proof.
  unfold set_textContent, bind, getElementById, gets, deref, modify, ret, throw, dom_set_text.
  destruct (dom (page w) !! id) as [e|] eqn:E; reflexivity.
Qed.

Lemma set_active_eq what ref b w :
  set_active what ref b w =
  match ref with
  | Some id => Done tt (on_page (set_dom (dom_set_active id b (dom (page w)))) w)
  | None => Thrown (TypeError what) w
  end.
Proof.
  unfold set_active, bind, getElementById, gets, deref, modify, ret, throw, dom_set_active.
  destruct ref as [id|]; [|reflexivity].
  destruct (dom (page w) !! id) as [e|] eqn:E; [reflexivity|].
  destruct w as [pg t]. destruct pg. reflexivity.
Qed.

Lemma same_keys_set_text id t d : same_keys d (dom_set_text id t d).
Proof.
  unfold dom_set_text. destruct (d !! id) eqn:E; [|apply same_keys_refl].
  apply same_keys_insert. eauto.
Qed.

Lemma same_keys_set_active id b d : same_keys d (dom_set_active id b d).
Proof.
  unfold dom_set_active. destruct (d !! id) eqn:E; [|apply same_keys_refl].
  apply same_keys_insert. eauto.
Qed.

Lemma preserves_set_textContent h id t : preserves (invariant h) (set_textContent id t).
Proof.
  intros w Hw. rewrite set_textContent_eq. destruct (dom (page w) !! id); [|exact Hw].
  apply invariant_set_dom; [apply same_keys_set_text|exact Hw].
Qed.

Lemma preserves_set_active h what ref b : preserves (invariant h) (set_active what ref b).
Proof.
  intros w Hw. rewrite set_active_eq. destruct ref; [|exact Hw].
  apply invariant_set_dom; [apply same_keys_set_active|exact Hw].
Qed.

(** *** The listeners that only touch the page, the camera and the
    controls *)

Lemma preserves_onAutoRotateClick h : preserves (invariant h) onAutoRotateClick.
Proof.
  unfold onAutoRotateClick. preserve_steps.
  - apply preserves_modify. intros w. apply invariant_on_this.
    intros t. cbn. repeat split; eauto.
  - apply preserves_set_textContent.
Qed.

Lemma preserves_onSpeedControlInput h v : preserves (invariant h) (onSpeedControlInput v).
Proof.
  apply preserves_modify. intros w. apply invariant_on_this.
  intros t. cbn. repeat split; eauto.
Qed.

Lemma preserves_onCloseInfoPanelClick h : preserves (invariant h) onCloseInfoPanelClick.
Proof. unfold onCloseInfoPanelClick. preserve_steps. apply preserves_set_active. Qed.

Lemma preserves_showPlanetInfo h p : preserves (invariant h) (showPlanetInfo p).
Proof.
  unfold showPlanetInfo. preserve_steps;
    first [apply preserves_set_textContent|apply preserves_set_active].
Qed.

Lemma preserves_handlePlanetClick h x y ray :
  preserves (invariant h) (handlePlanetClick x y ray).
Proof.
  unfold handlePlanetClick, window_innerWidth, window_innerHeight. preserve_steps.
  - apply preserves_modify. intros w. apply invariant_on_this.
    intros t. cbn. repeat split; eauto.
  - apply preserves_showPlanetInfo.
Qed.

Lemma preserves_handleResize h : preserves (invariant h) handleResize.
Proof.
  unfold handleResize, window_innerWidth, window_innerHeight. preserve_steps;
    apply preserves_modify; intros w; apply invariant_on_this;
    intros t; cbn; repeat split; eauto.
Qed.
End ScriptInvariant.
(** ** [script.js]: the frame and the orbit toggle *)

Section ScriptFrame.
Import Three Script ScriptSpec.

#[local] Opaque initial_store scene0 meshes0 orbits0 load built.

Lemma meshes0_NoDup : NoDup meshes0.
Proof. apply (bool_decide_unpack _). vm_compute. reflexivity. Qed.

Lemma orbits0_NoDup : NoDup orbits0.
Proof. apply (bool_decide_unpack _). vm_compute. reflexivity. Qed.

Lemma meshes0_orbits0 id : id ∈ meshes0 -> id ∉ orbits0.
Proof.
  intros H. 
  assert (Forall (fun id => id ∉ orbits0) meshes0) as F.
  { apply (bool_decide_unpack _). vm_compute. reflexivity. }
  rewrite Forall_forall in F. apply F, H.
Qed.

Lemma sun0_not_picked : (sun0 ∉ meshes0) /\ (sun0 ∉ orbits0).
Proof. split; apply (bool_decide_unpack _); vm_compute; reflexivity. Qed.

Lemma meshes0_stored id : id ∈ meshes0 -> is_Some (get id initial_store).
Proof.
  intros H.
  assert (Forall (fun id => is_Some (get id initial_store)) meshes0) as F.
  { apply (bool_decide_unpack _). vm_compute. reflexivity. }
  rewrite Forall_forall in F. apply F, H.
Qed.

Lemma orbits0_stored id : id ∈ orbits0 -> is_Some (get id initial_store).
Proof.
  intros H.
  assert (Forall (fun id => is_Some (get id initial_store)) orbits0) as F.
  { apply (bool_decide_unpack _). vm_compute. reflexivity. }
  rewrite Forall_forall in F. apply F, H.
Qed.

Lemma planet_mesh_stored t p :
  structure_ok t -> p ∈ planets t -> is_Some (get (mesh p) (store t)).
Proof.
  intros S Hp. eapply shapes_stored; [apply (ok_shapes _ S)|].
  apply meshes0_stored. rewrite <- (ok_meshes _ S). apply list_elem_of_fmap. eauto.
Qed.

Lemma planet_orbit_stored t p :
  structure_ok t -> p ∈ planets t -> is_Some (get (orbit p) (store t)).
Proof.
  intros S Hp. eapply shapes_stored; [apply (ok_shapes _ S)|].
  apply orbits0_stored. rewrite <- (ok_orbits _ S). apply list_elem_of_fmap. eauto.
Qed.

Lemma planets_animate_this t :
  planets (animate_this t) =
  map (fun p => set_angle (next_angle (speed_factor (simulationSpeed t)) p) p) (planets t).
Proof. unfold animate_this. cbn. apply animate_planets_fst. Qed.

Lemma store_animate_this t :
  store (animate_this t) =
  foldl (fun s p => update (mesh p) (moved (speed_factor (simulationSpeed t)) p) s)
        (store t) (planets t).
Proof. unfold animate_this. cbn. apply animate_planets_snd. Qed.

Lemma structure_animate_this t : structure_ok t -> structure_ok (animate_this t).
Proof.
  intros [S1 S2 S3 S4 S5 S6 S7 S8 S9].
  split; try (unfold animate_this; cbn; assumption).
  - rewrite planets_animate_this, map_map. exact S3.
  - rewrite planets_animate_this, map_map. exact S4.
  - rewrite planets_animate_this, map_map. exact S5.
  - intros id. rewrite store_animate_this, <- S6.
    apply moved_fold_observable. intros p o. reflexivity.
Qed.

Lemma placed_animate_this t :
  structure_ok t -> Forall (placed (store (animate_this t))) (planets (animate_this t)).
Proof.
  intros S. rewrite planets_animate_this, store_animate_this.
  apply Forall_forall. intros p' Hp'.
  apply list_elem_of_fmap in Hp' as (p & -> & Hp).
  destruct (planet_mesh_stored t p S Hp) as [o Ho].
  exists (moved (speed_factor (simulationSpeed t)) p o). split.
  - cbn [mesh set_angle]. rewrite moved_fold_get; [rewrite Ho; reflexivity| |exact Hp].
    rewrite (ok_meshes _ S). apply meshes0_NoDup.
  - cbn. auto.
Qed.

Lemma invariant_animate h w : invariant h w -> invariant h (run animate w).
Proof.
  intros [Hs Ht Ho Hp]. destruct (run_animate w) as (cs & us & ->).
  split; cbn [page this].
  - apply structure_animate_this, Hs.
  - destruct Ht as [Hl Hc Hi Hb Hk Hm].
    split; cbn [page this]; unfold animate_this; cbn; assumption.
  - destruct Ho as [b Hb]. exists b. intros id. cbn [this]. rewrite <- Hb.
    rewrite store_animate_this. apply moved_fold_observable. intros p o. reflexivity.
  - intros _. cbn [this]. apply placed_animate_this, Hs.
Qed.

Lemma forEachM_update_object (key : Planet -> ObjId) f ps w :
  forEachM (fun p => update_object (key p) f) ps w =
  Done tt (on_this (fun t => set_store (update_all f (map key ps) (store t)) t) w).
Proof.
  revert w. induction ps as [|p ps IH]; intros w.
  - destruct w as [pg []]. reflexivity.
  - cbn [forEachM]. unfold bind at 1. unfold update_object at 1, modify.
    rewrite IH. destruct w as [pg []]. reflexivity.
Qed.

(** The toggle flips every orbit path and touches nothing else. *)
Lemma run_onToggleOrbitsClick w :
  run onToggleOrbitsClick w =
  on_this (fun t => set_store (update_all flip_visible (map orbit (planets t)) (store t)) t) w.
Proof.
  unfold run, onToggleOrbitsClick, bind, gets.
  rewrite (forEachM_update_object orbit). reflexivity.
Qed.

Lemma invariant_toggle h w : invariant h w -> invariant h (run onToggleOrbitsClick w).
Proof.
  intros [Hs Ht Ho Hp]. rewrite run_onToggleOrbitsClick.
  pose proof Hs as [S1 S2 S3 S4 S5 S6 S7 S8 S9].
  split; unfold on_this; cbn [page this].
  - split; cbn; try assumption.
    intros id. rewrite <- S6. apply update_all_observable. reflexivity.
  - destruct Ht. split; cbn; assumption.
  - destruct Ho as [b Hb]. exists (negb b). intros id. cbn [this store set_store].
    rewrite S4. specialize (Hb id). case_bool_decide as Hid.
    + rewrite get_update_all_elem by (auto using orbits0_NoDup).
      destruct (get id (store (this w))) as [o|]; [|discriminate Hb].
      injection Hb as <-. reflexivity.
    + rewrite get_update_all_other by exact Hid. exact Hb.
  - intros Hr. specialize (Hp Hr). cbn [this store planets set_store].
    eapply Forall_impl; [exact Hp|]. intros p (o & Ho' & Hx & Hz).
    assert (position <$> get (mesh p)
              (update_all flip_visible (map orbit (planets (this w))) (store (this w)))
            = Some (position o)) as E.
    { rewrite update_all_observable by reflexivity. rewrite Ho'. reflexivity. }
    unfold placed.
    destruct (get (mesh p) (update_all _ _ _)) as [o'|]; [|discriminate E].
    exists o'. injection E as E. split; [reflexivity|]. rewrite E. auto.
Qed.
End ScriptFrame.
(** ** [script.js]: the loaded page and the states it reaches *)

Section ScriptReach.
Import Three Script ScriptSpec.

(** The constructor from [setupUI] on, on any world whose camera,
    renderer and controls are set. *)
Lemma constructor_rest_cases w :
  is_Some (controls (this w)) -> is_Some (renderer (this w)) -> is_Some (camera (this w)) ->
  let d := dom (page w) in
  let rest := run (setupUI ;;; animate ;;; addEventListener WindowResize)%js w in
  match d !! "infoPanel", d !! "closeInfoPanel" with
  | Some _, Some _ =>
      match d !! "autoRotate", d !! "toggleOrbits", d !! "speedControl" with
      | Some _, Some _, Some _ =>
          rest = add_listener WindowResize (animate_world (wired w))
      | Some _, Some _, None =>
          rest = report (TypeError "speedControl")
                   (add_listener ToggleOrbitsClick (add_listener AutoRotateClick (anchored w)))
      | Some _, None, _ =>
          rest = report (TypeError "toggleOrbits") (add_listener AutoRotateClick (anchored w))
      | None, _, _ => rest = report (TypeError "autoRotate") (anchored w)
      end
  | _, _ => rest = add_listener WindowResize (animate_world (guarded w))
  end.
Proof.
  intros Hc Hr Ha. cbv zeta. pose proof (setupUI_cases w) as C. cbv zeta in C.
  unfold run, bind.
  assert (animate (guarded w) = Done tt (animate_world (guarded w))) as Ag
      by (apply animate_done; assumption).
  assert (animate (wired w) = Done tt (animate_world (wired w))) as Aw
      by (apply animate_done; assumption).
  destruct (dom (page w) !! "infoPanel") as [ip|].
  2:{ rewrite C, Ag. reflexivity. }
  destruct (dom (page w) !! "closeInfoPanel") as [cb|].
  2:{ rewrite C, Ag. reflexivity. }
  destruct (dom (page w) !! "autoRotate") as [a|]; [|rewrite C; reflexivity].
  destruct (dom (page w) !! "toggleOrbits") as [b|]; [|rewrite C; reflexivity].
  destruct (dom (page w) !! "speedControl") as [c|]; [|rewrite C; reflexivity].
  rewrite C, Aw. reflexivity.
Qed.

#[local] Opaque initial_store scene0 meshes0 orbits0 load built.

Lemma built_dom h : dom (page (built h)) = host_dom h.
Proof. rewrite built_page. reflexivity. Qed.

Lemma load_cases h :
  let d := host_dom h in
  match d !! "infoPanel", d !! "closeInfoPanel" with
  | Some _, Some _ =>
      match d !! "autoRotate", d !! "toggleOrbits", d !! "speedControl" with
      | Some _, Some _, Some _ =>
          load h = add_listener WindowResize (animate_world (wired (built h)))
      | Some _, Some _, None =>
          load h = report (TypeError "speedControl")
                     (add_listener ToggleOrbitsClick
                        (add_listener AutoRotateClick (anchored (built h))))
      | Some _, None, _ =>
          load h = report (TypeError "toggleOrbits")
                     (add_listener AutoRotateClick (anchored (built h)))
      | None, _, _ => load h = report (TypeError "autoRotate") (anchored (built h))
      end
  | _, _ => load h = add_listener WindowResize (animate_world (guarded (built h)))
  end.
Proof.
  cbv zeta. rewrite load_eq, <- built_dom.
  apply (constructor_rest_cases (built h)).
  - rewrite built_controls. eauto.
  - rewrite built_renderer. eauto.
  - rewrite built_camera. eauto.
Qed.

Lemma load_started h : started (built h) (load h).
Proof.
  pose proof (load_cases h) as C. cbv zeta in C.
  destruct (host_dom h !! "infoPanel"); [|rewrite C; apply started_guarded].
  destruct (host_dom h !! "closeInfoPanel"); [|rewrite C; apply started_guarded].
  destruct (host_dom h !! "autoRotate"); [|rewrite C; apply started_without_autoRotate].
  destruct (host_dom h !! "toggleOrbits"); [|rewrite C; apply started_without_toggleOrbits].
  destruct (host_dom h !! "speedControl"); [|rewrite C; apply started_without_speedControl].
  rewrite C. apply started_wired.
Qed.

Lemma orbits0_visible id :
  id ∈ orbits0 -> visible <$> get id initial_store = Some true.
Proof.
  intros H.
  assert (Forall (fun id => visible <$> get id initial_store = Some true) orbits0) as F.
  { apply (bool_decide_unpack _). vm_compute. reflexivity. }
  rewrite Forall_forall in F. apply F, H.
Qed.

Lemma built_structure h : structure_ok (this (built h)).
Proof.
  split.
  - apply built_scene.
  - apply built_sun.
  - apply built_meshes.
  - apply built_orbits.
  - apply built_configs.
  - intros id. rewrite built_store. reflexivity.
  - rewrite built_camera. eauto.
  - rewrite built_renderer. eauto.
  - rewrite built_controls. eauto.
Qed.

Lemma built_visibility h : visibility_ok true (store (this (built h))).
Proof.
  intros id. rewrite built_store. case_bool_decide as Hid; [|reflexivity].
  apply orbits0_visible, Hid.
Qed.

Lemma built_rafPending h : rafPending (page (built h)) = false.
Proof. rewrite built_page. reflexivity. Qed.

Lemma static_ok_refl w : static_ok w w.
Proof. split; auto using same_keys_refl. Qed.

Lemma structure_ui_fields ip cb m t :
  structure_ok t ->
  structure_ok (set_mouse m (set_closeInfoPanelButton cb (set_infoPanel ip t))).
Proof. intros []. split; assumption. Qed.

Lemma structure_anchor_fields ip cb t :
  structure_ok t -> structure_ok (set_closeInfoPanelButton cb (set_infoPanel ip t)).
Proof. intros []. split; assumption. Qed.

Lemma visibility_animate_this b t :
  visibility_ok b (store t) -> visibility_ok b (store (animate_this t)).
Proof.
  intros Hb id. rewrite <- Hb, store_animate_this.
  apply moved_fold_observable. intros p o. reflexivity.
Qed.

(** However the constructor ends, the world it leaves is in order. *)
Lemma started_ok w w' :
  structure_ok (this w) -> visibility_ok true (store (this w)) ->
  rafPending (page w) = false -> started w w' ->
  structure_ok (this w') /\ orbits_agree w' /\ planets_placed w'.
Proof.
  intros Hs Hv Hr Hw'. destruct Hw'; unfold orbits_agree, planets_placed.
  - split; [|split].
    + apply structure_animate_this. apply structure_ui_fields, Hs.
    + exists true. apply (visibility_animate_this true (this (wired w))), Hv.
    + intros _. apply (placed_animate_this (this (wired w))).
      apply structure_ui_fields, Hs.
  - split; [|split].
    + apply structure_animate_this. apply structure_anchor_fields, Hs.
    + exists true. apply (visibility_animate_this true (this (guarded w))), Hv.
    + intros _. apply (placed_animate_this (this (guarded w))).
      apply structure_anchor_fields, Hs.
  - split; [|split].
    + apply structure_anchor_fields, Hs.
    + exists true. exact Hv.
    + cbn. rewrite Hr. discriminate 1.
  - split; [|split].
    + apply structure_anchor_fields, Hs.
    + exists true. exact Hv.
    + cbn. rewrite Hr. discriminate 1.
  - split; [|split].
    + apply structure_anchor_fields, Hs.
    + exists true. exact Hv.
    + cbn. rewrite Hr. discriminate 1.
Qed.

Lemma invariant_load h : invariant h (load h).
Proof.
  destruct (started_ok (built h) (load h)) as (Hs & Ho & Hp).
  - apply built_structure.
  - apply built_visibility.
  - apply built_rafPending.
  - apply load_started.
  - split; [exact Hs|apply static_ok_refl|exact Ho|exact Hp].
Qed.

Lemma invariant_dispatch h e w : invariant h w -> invariant h (dispatch e w).
Proof.
  intros Hw. destruct e as [|t x y ray|v|W H]; unfold dispatch.
  - destruct (rafPending (page w)) eqn:Hr; [|exact Hw].
    apply invariant_animate.
    destruct Hw as [Hs Ht Ho Hp]. split; [exact Hs| |exact Ho|].
    + apply static_on_page; [reflexivity|reflexivity|apply same_keys_refl|exact Ht].
    + unfold planets_placed, on_page. cbn [page rafPending set_rafPending].
      discriminate 1.
  - apply preserves_fire;
      [apply preserves_handlePlanetClick|apply invariant_report|].
    destruct t; unfold click_target; [| | |exact Hw].
    + apply preserves_fire;
        [apply preserves_onAutoRotateClick|apply invariant_report|exact Hw].
    + unfold fire. destruct (registered _ _); [apply invariant_toggle|]; exact Hw.
    + apply preserves_fire;
        [apply preserves_onCloseInfoPanelClick|apply invariant_report|exact Hw].
  - apply preserves_fire;
      [apply preserves_onSpeedControlInput|apply invariant_report|exact Hw].
  - apply preserves_fire; [apply preserves_handleResize|apply invariant_report|].
    apply invariant_on_page; [|exact Hw].
    intros p. cbn. auto using same_keys_refl.
Qed.

Lemma invariant_dispatch_all h es w :
  invariant h w -> invariant h (dispatch_all es w).
Proof.
  revert w. induction es as [|e es IH]; intros w Hw; [exact Hw|].
  apply IH, invariant_dispatch, Hw.
Qed.

(** Every state of the page satisfies the invariant. *)
Lemma invariant_reachable h es : invariant h (dispatch_all es (load h)).
Proof. apply invariant_dispatch_all, invariant_load. Qed.
End ScriptReach.
(** ** The module variant: the scene and what the listeners keep *)

Section GuiFacts.
Import Three Gui GuiSpec.

Lemma build_store W H : store (build W H) = initial_store.
Proof. vm_compute. reflexivity. Qed.

Lemma build_scene W H : scene (build W H) = scene0.
Proof. vm_compute. reflexivity. Qed.

Lemma build_sun W H : sun (build W H) = sun initial.
Proof. vm_compute. reflexivity. Qed.

Lemma build_planets W H : planets (build W H) = planets initial.
Proof. vm_compute. reflexivity. Qed.

Lemma build_params W H : params (build W H) = mkParams 1 true false.
Proof. reflexivity. Qed.

Lemma build_rest W H :
  tweens (build W H) = [] /\ calls (build W H) = [] /\ INTERSECTED (build W H) = None /\
  controls (build W H) = mkOrbitControls true zero3 /\
  camera (build W H) = mkCamera (W / H) (W / H) /\
  renderer (build W H) = mkSize W H /\ labelRenderer (build W H) = mkSize W H /\
  innerWidth (build W H) = W /\ innerHeight (build W H) = H.
Proof. vm_compute. repeat split. Qed.

Lemma gui_meshes0_NoDup : NoDup (mesh (sun initial) :: meshes0).
Proof. apply (bool_decide_unpack _). vm_compute. reflexivity. Qed.

Lemma gui_orbits0_NoDup : NoDup (orbit (sun initial) :: orbits0).
Proof. apply (bool_decide_unpack _). vm_compute. reflexivity. Qed.

Lemma gui_meshes0_orbits0 id :
  id ∈ mesh (sun initial) :: meshes0 -> id ∉ orbit (sun initial) :: orbits0.
Proof.
  intros H0.
  assert (Forall (fun id => id ∉ orbit (sun initial) :: orbits0)
                 (mesh (sun initial) :: meshes0)) as F.
  { apply (bool_decide_unpack _). vm_compute. reflexivity. }
  rewrite Forall_forall in F. apply F, H0.
Qed.

Lemma gui_orbits0_visible id :
  id ∈ orbit (sun initial) :: orbits0 -> visible <$> get id initial_store = Some true.
Proof.
  intros H0.
  assert (Forall (fun id => visible <$> get id initial_store = Some true)
                 (orbit (sun initial) :: orbits0)) as F.
  { apply (bool_decide_unpack _). vm_compute. reflexivity. }
  rewrite Forall_forall in F. apply F, H0.
Qed.

Lemma gui_meshes0_stored id :
  id ∈ mesh (sun initial) :: meshes0 -> is_Some (get id initial_store).
Proof.
  intros H0.
  assert (Forall (fun id => is_Some (get id initial_store))
                 (mesh (sun initial) :: meshes0)) as F.
  { apply (bool_decide_unpack _). vm_compute. reflexivity. }
  rewrite Forall_forall in F. apply F, H0.
Qed.

Lemma initial_on_orbit : Forall (on_orbit initial_store) (sun initial :: planets initial).
Proof.
  apply Forall_forall. intros b Hb.
  set (l := sun initial :: planets initial) in Hb. vm_compute in l. subst l.
  unfold on_orbit.
  repeat (apply elem_of_cons in Hb as [->|Hb];
          [vm_compute; eexists; split; [reflexivity|vm_compute; ring]|]).
  inversion Hb.
Qed.
Lemma map_fixed_mesh (l l' : list Body) :
  map body_fixed l = map body_fixed l' -> map mesh l = map mesh l'.
Proof.
  intros E. apply (f_equal (map (fun x => fst (fst (fst (fst x)))))) in E.
  rewrite !map_map in E. exact E.
Qed.

Lemma map_fixed_orbit (l l' : list Body) :
  map body_fixed l = map body_fixed l' -> map orbit l = map orbit l'.
Proof.
  intros E. apply (f_equal (map snd)) in E. rewrite !map_map in E. exact E.
Qed.

Lemma planets_meshes w : structure_ok w -> map mesh (planets w) = meshes0.
Proof. intros S. apply map_fixed_mesh, (ok_bodies _ S). Qed.

Lemma planets_orbits w : structure_ok w -> map orbit (planets w) = orbits0.
Proof. intros S. apply map_fixed_orbit, (ok_bodies _ S). Qed.
End GuiFacts.
Section GuiListeners.
Import Three Gui GuiSpec.

#[local] Opaque initial initial_store scene0 meshes0 orbits0.

Lemma circle_point (a r : R) : (cos a * r)² + (sin a * r)² = r².
Proof.
  unfold Rsqr. pose proof (sin2_cos2 a) as E. unfold Rsqr in E.
  replace (cos a * r * (cos a * r) + sin a * r * (sin a * r))
    with ((sin a * sin a + cos a * cos a) * (r * r)) by ring.
  rewrite E. ring.
Qed.

(** *** What the tween update touches *)

Lemma onComplete_scene t w :
  scene_state (onComplete t w) = scene_state w /\ params (onComplete t w) = params w /\
  rafPending (onComplete t w) = rafPending w /\ camera (onComplete t w) = camera w /\
  renderer (onComplete t w) = renderer w /\ labelRenderer (onComplete t w) = labelRenderer w /\
  INTERSECTED (onComplete t w) = INTERSECTED w /\ tooltip (onComplete t w) = tooltip w /\
  infoPanel (onComplete t w) = infoPanel w /\ tweens (onComplete t w) = tweens w /\
  mouse (onComplete t w) = mouse w.
Proof. repeat split. Qed.

Lemma foldl_onComplete_scene ts w :
  let w' := foldl (fun w t => onComplete t w) w ts in
  scene_state w' = scene_state w /\ params w' = params w /\
  rafPending w' = rafPending w /\ camera w' = camera w /\
  renderer w' = renderer w /\ labelRenderer w' = labelRenderer w /\
  INTERSECTED w' = INTERSECTED w /\ tooltip w' = tooltip w /\
  infoPanel w' = infoPanel w /\ tweens w' = tweens w /\ mouse w' = mouse w.
Proof.
  revert w. induction ts as [|t ts IH]; intros w; [repeat split|].
  cbn [foldl]. specialize (IH (onComplete t w)). cbv zeta in *.
  destruct IH as (E1 & E2 & E3 & E4 & E5 & E6 & E7 & E8 & E9 & E10 & E11).
  rewrite E1, E2, E3, E4, E5, E6, E7, E8, E9, E10, E11. repeat split.
Qed.

Lemma TWEEN_update_scene now w :
  let w' := TWEEN_update now w in
  scene_state w' = scene_state w /\ params w' = params w /\
  rafPending w' = rafPending w /\ camera w' = camera w /\
  renderer w' = renderer w /\ labelRenderer w' = labelRenderer w /\
  INTERSECTED w' = INTERSECTED w /\ tooltip w' = tooltip w /\
  infoPanel w' = infoPanel w /\ mouse w' = mouse w /\
  tweens w' = List.filter (fun t => negb (tween_finished now t)) (tweens w).
Proof.
  cbv zeta. unfold TWEEN_update.
  destruct (foldl_onComplete_scene (List.filter (tween_finished now) (tweens w))
              (set_tweens (List.filter (fun t => negb (tween_finished now t)) (tweens w))
                          (log_call TweenUpdate w)))
    as (E1 & E2 & E3 & E4 & E5 & E6 & E7 & E8 & E9 & E10 & E11).
  rewrite E1, E2, E3, E4, E5, E6, E7, E8, E9, E10, E11. repeat split.
Qed.

(** *** The planets' move *)

Lemma move_planet_eq time g b s :
  move_planet time g b s = update (mesh b) (moved time g b) s.
Proof. unfold move_planet, moved. rewrite !update_update. reflexivity. Qed.

Lemma move_planets_observable {A} (obs : Object3D -> A) time g bs s id :
  (forall b o, obs (moved time g b o) = obs o) ->
  obs <$> get id (move_planets time g bs s) = obs <$> get id s.
Proof.
  intros Hobs. revert s. induction bs as [|b bs IH]; intros s; [reflexivity|].
  unfold move_planets in *. cbn [foldl]. rewrite IH, move_planet_eq.
  rewrite get_update. destruct (decide (mesh b = id)); [|reflexivity].
  destruct (get id s); [|reflexivity]. cbn. rewrite Hobs. reflexivity.
Qed.

Lemma move_planets_other time g bs s id :
  id ∉ map mesh bs -> get id (move_planets time g bs s) = get id s.
Proof.
  revert s. induction bs as [|b bs IH]; intros s Hid; [reflexivity|].
  cbn [map] in Hid. apply not_elem_of_cons in Hid as [Hne Hid].
  unfold move_planets in *. cbn [foldl]. rewrite IH by exact Hid.
  rewrite move_planet_eq. apply get_update_ne. congruence.
Qed.

Lemma move_planets_get time g bs s b :
  NoDup (map mesh bs) -> b ∈ bs ->
  get (mesh b) (move_planets time g bs s) = moved time g b <$> get (mesh b) s.
Proof.
  revert s. induction bs as [|q bs IH]; intros s Hnd Hb; [inversion Hb|].
  cbn [map] in Hnd. apply NoDup_cons in Hnd as [Hq Hnd].
  change (move_planets time g (q :: bs) s)
    with (move_planets time g bs (move_planet time g q s)).
  apply elem_of_cons in Hb as [->|Hb].
  - rewrite move_planets_other by exact Hq. rewrite move_planet_eq. apply get_update_eq.
  - rewrite IH by assumption. rewrite move_planet_eq, get_update_ne; [reflexivity|].
    intros E. apply Hq. rewrite E. apply list_elem_of_fmap. eauto.
Qed.

Lemma showOrbits_onChange_eq value w :
  showOrbits_onChange value w =
  set_store (update_all (set_visible value) (map orbit (planets w)) (store w)) w.
Proof.
  unfold showOrbits_onChange. f_equal.
  generalize (store w). induction (planets w) as [|b bs IH]; intros s; [reflexivity|].
  cbn [foldl map]. rewrite update_all_cons. apply IH.
Qed.

End GuiListeners.
Section GuiInvariant.
Import Three Gui GuiSpec.

#[local] Opaque initial initial_store scene0 meshes0 orbits0.

Lemma hover_scene ray w :
  let w' := hover ray w in
  scene_state w' = scene_state w /\ params w' = params w /\
  rafPending w' = rafPending w /\ camera w' = camera w /\
  renderer w' = renderer w /\ labelRenderer w' = labelRenderer w /\
  tweens w' = tweens w /\ controls w' = controls w /\ infoPanel w' = infoPanel w /\
  mouse w' = mouse w /\ calls w' = calls w ++ [HoverRaycast].
Proof.
  cbv zeta. unfold hover.
  change (pick ray (log_call HoverRaycast w)) with (pick ray w).
  destruct (pick ray w) as [|first rest]; [repeat split|].
  destruct (bool_decide _); repeat split.
Qed.

Lemma animate_scene now ray w :
  let w' := animate now ray w in
  store w' = frame_store now w /\ scene w' = scene w /\ sun w' = sun w /\
  planets w' = planets w /\ params w' = params w /\ rafPending w' = true /\
  camera w' = camera w /\ renderer w' = renderer w /\ labelRenderer w' = labelRenderer w /\
  infoPanel w' = infoPanel w /\ mouse w' = mouse w /\
  tweens w' = List.filter (fun t => negb (tween_finished now t)) (tweens w).
Proof.
  cbv zeta. unfold animate, frame_store.
  set (w1 := TWEEN_update now (set_rafPending true w)).
  destruct (TWEEN_update_scene now (set_rafPending true w))
    as (E1 & E2 & E3 & E4 & E5 & E6 & E7 & E8 & E9 & E10 & E11).
  fold w1 in E1, E2, E3, E4, E5, E6, E7, E8, E9, E10, E11.
  unfold scene_state in E1. injection E1 as Es Ec Eu Ep.
  cbn [store scene sun planets params rafPending camera renderer labelRenderer
       INTERSECTED tooltip infoPanel mouse tweens set_rafPending] in *.
  set (w2 := if pause (params w1) then w1 else _).
  assert (store w2 = (if pause (params w) then store w
                      else update (mesh (sun w)) (add_rotation_y (rotationSpeed (sun w)))
                             (move_planets (now * 0.001) (params_timeScale (params w))
                                           (planets w) (store w)))
          /\ scene w2 = scene w /\ sun w2 = sun w /\ planets w2 = planets w /\
          params w2 = params w /\ rafPending w2 = true /\ camera w2 = camera w /\
          renderer w2 = renderer w /\ labelRenderer w2 = labelRenderer w /\
          infoPanel w2 = infoPanel w /\ mouse w2 = mouse w /\
          tweens w2 = List.filter (fun t => negb (tween_finished now t)) (tweens w)) as H2.
  { subst w2. rewrite E2. destruct (pause (params w)).
    - repeat split; assumption.
    - cbn [store scene sun planets params rafPending camera renderer labelRenderer
           infoPanel mouse tweens set_store].
      rewrite Es, Eu, Ep, E2. repeat split; assumption. }
  clearbody w2. clear - H2.
  destruct H2 as (F1 & F2 & F3 & F4 & F5 & F6 & F7 & F8 & F9 & F10 & F11 & F12).
  destruct (hover_scene ray w2) as (G1 & G2 & G3 & G4 & G5 & G6 & G7 & G8 & G9 & G10 & G11).
  unfold scene_state in G1. injection G1 as Gs Gc Gu Gp.
  unfold log_call.
  cbn [store scene sun planets params rafPending camera renderer labelRenderer
       infoPanel mouse tweens set_calls].
  rewrite Gs, Gc, Gu, Gp, G2, G3, G4, G5, G6, G7, G9, G10.
  repeat split; assumption.
Qed.

Lemma gui_invariant_same w w' :
  scene_state w' = scene_state w -> showOrbits (params w') = showOrbits (params w) ->
  rafPending w' = rafPending w -> invariant w -> invariant w'.
Proof.
  unfold scene_state. intros E Ep Er [[S1 S2 S3 S4] Hv Ho Hr].
  injection E as Es Ec Eu El.
  split.
  - split; rewrite ?Es, ?Ec, ?Eu, ?El; assumption.
  - unfold visibility_ok. rewrite Es, Ep. exact Hv.
  - rewrite Es, Eu, El. exact Ho.
  - congruence.
Qed.

Lemma body_mesh_stored w b :
  structure_ok w -> b ∈ sun w :: planets w -> is_Some (get (mesh b) (store w)).
Proof.
  intros S Hb. eapply shapes_stored; [apply (ok_shapes _ S)|].
  apply gui_meshes0_stored. rewrite <- (planets_meshes w S), <- (ok_sun w S).
  change (mesh b ∈ map mesh (sun w :: planets w)). apply list_elem_of_fmap. eauto.
Qed.

Lemma frame_store_observable {A} (obs : Object3D -> A) now w id :
  (forall o d, obs (add_rotation_y d o) = obs o) ->
  (forall t g b o, obs (moved t g b o) = obs o) ->
  obs <$> get id (frame_store now w) = obs <$> get id (store w).
Proof.
  intros H1 H2. unfold frame_store. destruct (pause (params w)); [reflexivity|].
  rewrite get_update. destruct (decide (mesh (sun w) = id)).
  - rewrite <- (move_planets_observable obs (now * 0.001) (params_timeScale (params w))
                  (planets w) (store w) id) by (intros; apply H2).
    destruct (get id (move_planets _ _ _ _)); [|reflexivity]. cbn. rewrite H1. reflexivity.
  - apply move_planets_observable. intros; apply H2.
Qed.

Lemma frame_store_on_orbit now w :
  structure_ok w -> Forall (on_orbit (store w)) (sun w :: planets w) ->
  Forall (on_orbit (frame_store now w)) (sun w :: planets w).
Proof.
  intros S Ho. unfold frame_store. destruct (pause (params w)); [exact Ho|].
  pose proof gui_meshes0_NoDup as Hnd.
  rewrite <- (planets_meshes w S), <- (ok_sun w S) in Hnd.
  apply NoDup_cons in Hnd as [Hsun Hnd].
  apply Forall_cons. split.
  - apply Forall_cons in Ho as [(o & Hg & Hc) _].
    exists (add_rotation_y (rotationSpeed (sun w)) o). split; [|exact Hc].
    rewrite get_update_eq, move_planets_other by exact Hsun. rewrite Hg. reflexivity.
  - apply Forall_forall. intros b Hb.
    destruct (body_mesh_stored w b S) as [o Hg]; [right; exact Hb|].
    exists (moved (now * 0.001) (params_timeScale (params w)) b o). split.
    + rewrite get_update_ne.
      * rewrite move_planets_get by assumption. rewrite Hg. reflexivity.
      * intros E. apply Hsun. rewrite E. apply list_elem_of_fmap. eauto.
    + cbn. apply circle_point.
Qed.

(** A frame keeps what holds of the scene and leaves the loop
    running. *)
Lemma gui_invariant_animate now ray w :
  structure_ok w -> visibility_ok w -> Forall (on_orbit (store w)) (sun w :: planets w) ->
  invariant (animate now ray w).
Proof.
  intros S Hv Ho.
  destruct (animate_scene now ray w)
    as (E1 & E2 & E3 & E4 & E5 & E6 & _).
  pose proof S as [S1 S2 S3 S4].
  split.
  - split; rewrite ?E1, ?E2, ?E3, ?E4; try assumption.
    intros id. rewrite <- S4. apply frame_store_observable; reflexivity.
  - intros id. rewrite E1, E5, <- Hv. apply frame_store_observable; reflexivity.
  - rewrite E1, E3, E4. apply frame_store_on_orbit; assumption.
  - exact E6.
Qed.

Lemma invariant_toggle_showOrbits w : invariant w -> invariant (toggle_showOrbits w).
Proof.
  intros [S Hv Ho Hr]. pose proof S as [S1 S2 S3 S4].
  unfold toggle_showOrbits. rewrite showOrbits_onChange_eq.
  cbn [planets store set_params params showOrbits].
  rewrite (planets_orbits w S).
  split.
  - split; cbn [scene sun planets store set_store set_params]; try assumption.
    intros id. rewrite <- S4. apply update_all_observable. reflexivity.
  - intros id. cbn [store params set_store set_params showOrbits].
    specialize (Hv id). case_bool_decide as Hid.
    + rewrite get_update_all_elem.
      * destruct (get id (store w)); [reflexivity|discriminate Hv].
      * pose proof gui_orbits0_NoDup as Hnd. apply NoDup_cons in Hnd as [_ Hnd]. exact Hnd.
      * exact Hid.
    + rewrite get_update_all_other by exact Hid. exact Hv.
  - cbn [store sun planets set_store set_params].
    eapply Forall_impl; [exact Ho|]. intros b (o & Hg & Hc). unfold on_orbit.
    assert (position <$> get (mesh b) (update_all (set_visible (negb (showOrbits (params w))))
                                         orbits0 (store w)) = Some (position o)) as E.
    { rewrite update_all_observable by reflexivity. rewrite Hg. reflexivity. }
    destruct (get (mesh b) (update_all _ _ _)) as [o'|]; [|discriminate E].
    injection E as E. exists o'. split; [reflexivity|]. rewrite E. exact Hc.
  - exact Hr.
Qed.

Lemma invariant_set_planetTimeScale i v w :
  invariant w -> invariant (set_planetTimeScale i v w).
Proof.
  intros [[S1 S2 S3 S4] Hv Ho Hr]. unfold set_planetTimeScale.
  assert (forall l : list Body,
             map body_fixed (alter (set_timeScale v) i l) = map body_fixed l) as Hfix.
  { clear. intros l. revert i. induction l as [|b l IH]; intros [|i]; cbn; try reflexivity.
    f_equal. apply IH. }
  split.
  - split; cbn [scene sun planets store set_planets]; try assumption.
    rewrite Hfix. exact S3.
  - exact Hv.
  - cbn [store sun planets set_planets].
    apply Forall_cons in Ho as [Hsun Ho]. apply Forall_cons. split; [exact Hsun|].
    clear - Ho. revert i. induction Ho as [|b l Hb Hl IH]; intros [|i]; cbn.
    + constructor.
    + constructor.
    + constructor; [exact Hb|exact Hl].
    + constructor; [exact Hb|apply IH].
  - exact Hr.
Qed.

Lemma focusOnPlanet_scene p now w :
  scene_state (focusOnPlanet p now w) = scene_state w /\
  params (focusOnPlanet p now w) = params w /\
  rafPending (focusOnPlanet p now w) = rafPending w.
Proof. repeat split. Qed.

Lemma onMouseClick_scene x y now ray w :
  scene_state (onMouseClick x y now ray w) = scene_state w /\
  params (onMouseClick x y now ray w) = params w /\
  rafPending (onMouseClick x y now ray w) = rafPending w.
Proof.
  unfold onMouseClick.
  change (pick ray (set_mouse (ndc x y w) w)) with (pick ray w).
  destruct (pick ray w); repeat split.
Qed.

Lemma gui_invariant_dispatch e w : invariant w -> invariant (dispatch e w).
Proof.
  intros Hw. destruct e as [now ray|x y|t x y now ray|v|i v|W H]; unfold dispatch.
  - pose proof Hw as [S Hv Ho Hr]. rewrite Hr.
    apply gui_invariant_animate; [destruct S; split; assumption|exact Hv|exact Ho].
  - eapply gui_invariant_same; [| | |exact Hw]; reflexivity.
  - destruct (onMouseClick_scene x y now ray (click_target t now w)) as (E1 & E2 & E3).
    eapply gui_invariant_same; [exact E1|rewrite E2; reflexivity|exact E3|].
    destruct t; unfold click_target.
    + apply invariant_toggle_showOrbits, Hw.
    + eapply gui_invariant_same; [| | |exact Hw]; reflexivity.
    + eapply gui_invariant_same; [| | |exact Hw]; reflexivity.
    + exact Hw.
  - eapply gui_invariant_same; [| | |exact Hw]; reflexivity.
  - apply invariant_set_planetTimeScale, Hw.
  - eapply gui_invariant_same; [| | |exact Hw]; reflexivity.
Qed.

Lemma build_structure W H : structure_ok (build W H).
Proof.
  split.
  - apply build_scene.
  - apply build_sun.
  - rewrite build_planets. reflexivity.
  - intros id. rewrite build_store. reflexivity.
Qed.

Lemma build_visibility W H : visibility_ok (build W H).
Proof.
  intros id. rewrite build_store, build_params. cbn [showOrbits].
  case_bool_decide as Hid; [|reflexivity].
  apply gui_orbits0_visible. right. exact Hid.
Qed.

Lemma gui_invariant_load W H now ray : invariant (load W H now ray).
Proof.
  apply gui_invariant_animate.
  - apply build_structure.
  - apply build_visibility.
  - rewrite build_store, build_sun, build_planets. apply initial_on_orbit.
Qed.

Lemma gui_invariant_dispatch_all es w : invariant w -> invariant (dispatch_all es w).
Proof.
  revert w. induction es as [|e es IH]; intros w Hw; [exact Hw|].
  apply IH, gui_invariant_dispatch, Hw.
Qed.

Lemma gui_invariant_reachable W H now ray es :
  invariant (dispatch_all es (load W H now ray)).
Proof. apply gui_invariant_dispatch_all, gui_invariant_load. Qed.
End GuiInvariant.

(** ** [script.js]: what a click does *)

Section ScriptClick.
Import Three Script ScriptSpec.
#[local] Open Scope js_scope.
#[local] Opaque initial_store scene0 meshes0 orbits0 load built.

Lemma meshes0_kind id :
  id ∈ meshes0 -> exists o, get id initial_store = Some o /\ obj_kind o = Mesh.
Proof.
  intros H.
  assert (Forall (fun id => is_sphere_mesh initial_store id = true) meshes0) as F.
  { apply (bool_decide_unpack _). vm_compute. reflexivity. }
  rewrite Forall_forall in F. specialize (F _ H). unfold is_sphere_mesh in F.
  destruct (get id initial_store) as [o|]; [|discriminate F].
  exists o. split; [reflexivity|]. destruct (obj_kind o); try discriminate F; reflexivity.
Qed.

Lemma planet_mesh_kind t p :
  structure_ok t -> p ∈ planets t ->
  exists o, get (mesh p) (store t) = Some o /\ obj_kind o = Mesh.
Proof.
  intros S Hp.
  assert (mesh p ∈ meshes0) as H0
      by (rewrite <- (ok_meshes _ S); apply list_elem_of_fmap; eauto).
  destruct (meshes0_kind _ H0) as (o0 & Ho0 & Hk0).
  pose proof (ok_shapes _ S (mesh p)) as Hs. rewrite Ho0 in Hs.
  destruct (get (mesh p) (store t)) as [o|]; [|discriminate Hs].
  exists o. split; [reflexivity|].
  cbn [fmap option_fmap option_map] in Hs. unfold shape in Hs.
  injection Hs as Hs _ _ _ _. rewrite Hs. exact Hk0.
Qed.

Lemma on_page_set_dom d d' w :
  on_page (set_dom d') (on_page (set_dom d) w) = on_page (set_dom d') w.
Proof. destruct w as [pg t]. reflexivity. Qed.

Lemma set_textContent_done id t w :
  is_Some (dom (page w) !! id) ->
  set_textContent id t w = Done tt (on_page (set_dom (dom_set_text id t (dom (page w)))) w).
Proof. intros [e He]. rewrite set_textContent_eq, He. reflexivity. Qed.

Lemma showPlanetInfo_done p w :
  infoPanel (this w) = Some "infoPanel" ->
  Forall (fun id => is_Some (dom (page w) !! id))
         ["planetName"; "planetRadius"; "orbitalPeriod"; "sunDistance"] ->
  showPlanetInfo (Some p) w = Done tt (on_page (set_dom (dom_show p (dom (page w)))) w).
Proof.
  intros Hip Hd.
  apply Forall_cons in Hd as [H1 Hd]. apply Forall_cons in Hd as [H2 Hd].
  apply Forall_cons in Hd as [H3 Hd]. apply Forall_cons in Hd as [H4 _].
  unfold showPlanetInfo, dom_show.
  unfold bind at 1. cbn [deref ret].
  set (t1 := PlanetName (name (config p))).
  set (t2 := Kilometres (size (config p) * 12742)).
  set (t3 := EarthDays (Math_round (distance (config p) * 10))).
  set (t4 := MillionKm (distance (config p) * 149.6)).
  unfold bind at 1. rewrite (set_textContent_done _ t1 w H1).
  set (d1 := dom_set_text "planetName" t1 (dom (page w))).
  assert (same_keys (dom (page w)) d1) as K1 by apply same_keys_set_text.
  unfold bind at 1. rewrite set_textContent_done; cbn [on_page page this set_dom dom];
    [|apply K1, H2].
  set (d2 := dom_set_text "planetRadius" t2 d1).
  assert (same_keys (dom (page w)) d2) as K2
      by (eapply same_keys_trans; [exact K1|apply same_keys_set_text]).
  unfold bind at 1. rewrite set_textContent_done; cbn [on_page page this set_dom dom];
    [|apply K2, H3].
  set (d3 := dom_set_text "orbitalPeriod" t3 d2).
  assert (same_keys (dom (page w)) d3) as K3
      by (eapply same_keys_trans; [exact K2|apply same_keys_set_text]).
  unfold bind at 1. rewrite set_textContent_done; cbn [on_page page this set_dom dom];
    [|apply K3, H4].
  set (d4 := dom_set_text "sunDistance" t4 d3).
  unfold bind, gets. rewrite !on_page_set_dom.
  change (this (on_page (set_dom d4) w)) with (this w).
  rewrite Hip, set_active_eq, on_page_set_dom.
  destruct w as [pg t]. reflexivity.
Qed.

Lemma handlePlanetClick_eq x y ray w :
  is_Some (mouse (this w)) ->
  handlePlanetClick x y ray w =
  match picked ray w with
  | first :: _ =>
      showPlanetInfo (find (fun p => Nat.eqb (mesh p) (hit_object first)) (planets (this w)))
                     (click_mouse x y w)
  | [] => Done tt (click_mouse x y w)
  end.
Proof.
  intros [m Hm].
  unfold handlePlanetClick, window_innerWidth, window_innerHeight, bind, gets, modify.
  cbv beta iota. rewrite Hm. cbn [deref ret]. cbv beta iota.
  unfold picked, click_mouse. destruct w as [pg t].
  cbn [this page store planets set_mouse on_this].
  destruct (intersectObjects _ _ _ _); reflexivity.
Qed.

Lemma find_mesh ps id :
  id ∈ map mesh ps ->
  exists p, find (fun p => Nat.eqb (mesh p) id) ps = Some p /\ p ∈ ps /\ mesh p = id.
Proof.
  induction ps as [|q ps IH]; cbn [map find]; intros Hid.
  - apply elem_of_nil in Hid. destruct Hid.
  - destruct (Nat.eqb_spec (mesh q) id) as [E|N].
    + exists q. split; [reflexivity|]. split; [left|exact E].
    + apply elem_of_cons in Hid as [Hid|Hid]; [congruence|].
      destruct (IH Hid) as (p & Hf & Hp & Hm). exists p.
      split; [exact Hf|]. split; [right; exact Hp|exact Hm].
Qed.

(** The first hit is of a planet's mesh, and no crossing of the ray
    with a planet's mesh is nearer. *)
Lemma picked_first ray w first rest :
  structure_ok (this w) ->
  picked ray w = first :: rest ->
  exists p, find (fun p => Nat.eqb (mesh p) (hit_object first)) (planets (this w)) = Some p /\
            p ∈ planets (this w) /\ mesh p = hit_object first /\
            hit_distance first ∈ ray (mesh p) /\
            forall q d, q ∈ planets (this w) -> d ∈ ray (mesh q) -> hit_distance first <= d.
Proof.
  intros S Hp.
  assert (first ∈ picked ray w) as Hin by (rewrite Hp; left).
  apply intersectObjects_flat_elem in Hin as (o & Ho & Hg & Hk & Hd).
  destruct (find_mesh _ _ Ho) as (p & Hf & Hpp & Hm).
  exists p. split; [exact Hf|]. split; [exact Hpp|]. split; [exact Hm|].
  split; [rewrite Hm; exact Hd|].
  intros q d Hq Hdq.
  assert (mkIntersection d (mesh q) ∈ picked ray w) as Hx.
  { apply intersectObjects_flat_elem. cbn [hit_object hit_distance].
    destruct (planet_mesh_kind _ q S Hq) as (oq & Hoq & Hkq).
    exists oq. split; [apply list_elem_of_fmap; eauto|]. split; [exact Hoq|].
    split; [rewrite Hkq; reflexivity|exact Hdq]. }
  rewrite Hp in Hx. apply elem_of_cons in Hx as [Hx|Hx].
  - rewrite <- Hx. cbn [hit_distance]. apply Rle_refl.
  - pose proof (ascSort_head_least
                  (flat_map (intersectObject (store (this w)) ray false)
                            (map mesh (planets (this w))))) as Hl.
    fold (intersectObjects (store (this w)) ray (map mesh (planets (this w))) false) in Hl.
    fold (picked ray w) in Hl. rewrite Hp in Hl. cbn [head_least] in Hl.
    apply (Hl _ Hx).
Qed.

Lemma picked_nil ray w :
  structure_ok (this w) ->
  picked ray w = [] <-> forall p, p ∈ planets (this w) -> ray (mesh p) = [].
Proof.
  intros S. split.
  - intros Hp p Hpp. destruct (ray (mesh p)) as [|d l] eqn:Hr; [reflexivity|].
    assert (mkIntersection d (mesh p) ∈ picked ray w) as Hx; [|rewrite Hp in Hx; inversion Hx].
    apply intersectObjects_flat_elem. cbn [hit_object hit_distance].
    destruct (planet_mesh_kind _ p S Hpp) as (o & Ho & Hk).
    exists o. split; [apply list_elem_of_fmap; eauto|]. split; [exact Ho|].
    split; [rewrite Hk; reflexivity|rewrite Hr; left].
  - intros Hr. destruct (picked ray w) as [|x l] eqn:Hp; [reflexivity|].
    assert (x ∈ picked ray w) as Hin by (rewrite Hp; left).
    apply intersectObjects_flat_elem in Hin as (o & Ho & _ & _ & Hd).
    apply list_elem_of_fmap in Ho as (p & Hm & Hpp).
    rewrite Hm, (Hr p Hpp) in Hd. inversion Hd.
Qed.
End ScriptClick.

(** ** [script.js]: the page with all its elements *)

Section ScriptWired.
Import Three Script ScriptSpec.
#[local] Open Scope js_scope.
#[local] Opaque initial_store scene0 meshes0 orbits0 load built.

Lemma complete_page_keys d d' : same_keys d d' -> complete_page d -> complete_page d'.
Proof.
  intros K C. unfold complete_page. eapply Forall_impl; [exact C|].
  intros id H. apply K, H.
Qed.

Lemma load_complete h :
  complete_page (host_dom h) ->
  load h = add_listener WindowResize (animate_world (wired (built h))).
Proof.
  intros C. pose proof (load_cases h) as L. cbv zeta in L.
  unfold complete_page in C.
  apply Forall_cons in C as [[e1 H1] C]. apply Forall_cons in C as [[e2 H2] C].
  apply Forall_cons in C as [[e3 H3] C]. apply Forall_cons in C as [[e4 H4] C].
  apply Forall_cons in C as [[e5 H5] _].
  rewrite H1, H2, H3, H4, H5 in L. exact L.
Qed.

Lemma load_wired h : complete_page (host_dom h) -> wired_ok (load h).
Proof.
  intros C. rewrite (load_complete h C).
  unfold add_listener, animate_world, wired, on_page.
  cbn [page this listeners set_listeners set_calls set_rafPending dom
       infoPanel closeInfoPanelButton mouse animate_this set_store set_planets
       set_mouse set_closeInfoPanelButton set_infoPanel].
  rewrite (built_page h). cbn [listeners dom].
  split; [reflexivity|reflexivity|reflexivity|eauto|exact C].
Qed.

Lemma wired_static w0 w : static_ok w0 w -> wired_ok w0 -> wired_ok w.
Proof.
  intros [Hl _ Hi Hb Hk Hm] [Wl Wi Wb Wm Wd].
  split; [congruence|congruence|congruence|auto|].
  eapply complete_page_keys; [|exact Wd]. exact Hk.
Qed.

Lemma wired_invariant h w : complete_page (host_dom h) -> invariant h w -> wired_ok w.
Proof.
  intros C [_ St _ _]. eapply wired_static; [exact St|]. apply load_wired, C.
Qed.

Lemma wired_registered l w : wired_ok w -> registered l w = true.
Proof.
  intros W. unfold registered. rewrite (wo_listeners _ W).
  destruct l; reflexivity.
Qed.

Lemma invariant_click_target h t w : invariant h w -> invariant h (click_target t w).
Proof.
  intros Hw. destruct t; unfold click_target; [| | |exact Hw].
  - apply preserves_fire;
      [apply preserves_onAutoRotateClick|apply invariant_report|exact Hw].
  - unfold fire. destruct (registered _ _); [apply invariant_toggle|]; exact Hw.
  - apply preserves_fire;
      [apply preserves_onCloseInfoPanelClick|apply invariant_report|exact Hw].
Qed.

(** *** The window's click listener on such a page *)

Lemma click_miss x y ray w :
  wired_ok w -> picked ray w = [] ->
  fire WindowClick (handlePlanetClick x y ray) w = click_mouse x y w.
Proof.
  intros W Hp. unfold fire, run. rewrite (wired_registered _ _ W).
  rewrite (handlePlanetClick_eq x y ray w (wo_mouse _ W)), Hp. reflexivity.
Qed.

Lemma click_hit x y ray w first rest :
  wired_ok w -> structure_ok (this w) -> picked ray w = first :: rest ->
  exists p, p ∈ planets (this w) /\ mesh p = hit_object first /\
            hit_distance first ∈ ray (mesh p) /\
            (forall q d, q ∈ planets (this w) -> d ∈ ray (mesh q) -> hit_distance first <= d) /\
            fire WindowClick (handlePlanetClick x y ray) w
            = on_page (set_dom (dom_show p (dom (page w)))) (click_mouse x y w).
Proof.
  intros W S Hp.
  destruct (picked_first ray w first rest S Hp) as (p & Hf & Hpp & Hm & Hd & Hn).
  exists p. split; [exact Hpp|]. split; [exact Hm|]. split; [exact Hd|]. split; [exact Hn|].
  unfold fire, run. rewrite (wired_registered _ _ W).
  rewrite (handlePlanetClick_eq x y ray w (wo_mouse _ W)), Hp, Hf.
  rewrite showPlanetInfo_done.
  - reflexivity.
  - apply (wo_infoPanel _ W).
  - pose proof (wo_dom _ W) as C. unfold complete_page in C.
    do 5 (apply Forall_cons in C as [_ C]). exact C.
Qed.

(** *** What [showPlanetInfo] leaves in the page *)

Lemma dom_set_text_lookup id t d :
  is_Some (d !! id) -> textContent <$> (dom_set_text id t d !! id) = Some t.
Proof.
  intros [e He]. unfold dom_set_text. rewrite He, lookup_insert_eq. reflexivity.
Qed.

Lemma dom_set_text_other id id' t d : id <> id' -> dom_set_text id t d !! id' = d !! id'.
Proof.
  intros N. unfold dom_set_text. destruct (d !! id); [|reflexivity].
  apply lookup_insert_ne, N.
Qed.

Lemma dom_set_text_active id id' t d :
  active <$> (dom_set_text id t d !! id') = active <$> (d !! id').
Proof.
  unfold dom_set_text. destruct (d !! id) as [e|] eqn:He; [|reflexivity].
  destruct (decide (id = id')) as [<-|N].
  - rewrite lookup_insert_eq, He. reflexivity.
  - rewrite lookup_insert_ne by exact N. reflexivity.
Qed.

Lemma dom_set_active_lookup id b d :
  is_Some (d !! id) -> active <$> (dom_set_active id b d !! id) = Some b.
Proof.
  intros [e He]. unfold dom_set_active. rewrite He, lookup_insert_eq. reflexivity.
Qed.

Lemma dom_set_active_other id id' b d : id <> id' -> dom_set_active id b d !! id' = d !! id'.
Proof.
  intros N. unfold dom_set_active. destruct (d !! id); [|reflexivity].
  apply lookup_insert_ne, N.
Qed.

Lemma dom_set_active_text id id' b d :
  textContent <$> (dom_set_active id b d !! id') = textContent <$> (d !! id').
Proof.
  unfold dom_set_active. destruct (d !! id) as [e|] eqn:He; [|reflexivity].
  destruct (decide (id = id')) as [<-|N].
  - rewrite lookup_insert_eq, He. reflexivity.
  - rewrite lookup_insert_ne by exact N. reflexivity.
Qed.

Lemma dom_show_lookup p d :
  complete_page d ->
  textContent <$> (dom_show p d !! "planetName") = Some (PlanetName (name (config p))) /\
  textContent <$> (dom_show p d !! "planetRadius")
  = Some (Kilometres (size (config p) * 12742)) /\
  textContent <$> (dom_show p d !! "orbitalPeriod")
  = Some (EarthDays (Math_round (distance (config p) * 10))) /\
  textContent <$> (dom_show p d !! "sunDistance")
  = Some (MillionKm (distance (config p) * 149.6)) /\
  active <$> (dom_show p d !! "infoPanel") = Some true.
Proof.
  intros C. unfold complete_page in C.
  do 3 (apply Forall_cons in C as [_ C]).
  apply Forall_cons in C as [Hip C]. apply Forall_cons in C as [_ C].
  apply Forall_cons in C as [H1 C]. apply Forall_cons in C as [H2 C].
  apply Forall_cons in C as [H3 C]. apply Forall_cons in C as [H4 _].
  unfold dom_show.
  repeat split.
  - rewrite dom_set_active_text.
    rewrite !dom_set_text_other by discriminate.
    apply dom_set_text_lookup, H1.
  - rewrite dom_set_active_text.
    rewrite !dom_set_text_other by discriminate.
    apply dom_set_text_lookup. rewrite dom_set_text_other by discriminate. exact H2.
  - rewrite dom_set_active_text.
    rewrite !dom_set_text_other by discriminate.
    apply dom_set_text_lookup. rewrite !dom_set_text_other by discriminate. exact H3.
  - rewrite dom_set_active_text.
    apply dom_set_text_lookup. rewrite !dom_set_text_other by discriminate. exact H4.
  - apply dom_set_active_lookup. rewrite !dom_set_text_other by discriminate. exact Hip.
Qed.
End ScriptWired.

(** ** The raycaster on a list of stored meshes *)

Section Picking.
Import Three.

Lemma flat_first s ray objs first rest :
  (forall id, id ∈ objs -> exists o, get id s = Some o /\ raycastable (obj_kind o) = true) ->
  intersectObjects s ray objs false = first :: rest ->
  hit_object first ∈ objs /\ hit_distance first ∈ ray (hit_object first) /\
  forall id d, id ∈ objs -> d ∈ ray id -> hit_distance first <= d.
Proof.
  intros Hs Hp.
  assert (first ∈ intersectObjects s ray objs false) as Hin by (rewrite Hp; left).
  apply intersectObjects_flat_elem in Hin as (o & Ho & Hg & Hk & Hd).
  split; [exact Ho|]. split; [exact Hd|].
  intros id d Hid Hdi.
  assert (mkIntersection d id ∈ intersectObjects s ray objs false) as Hx.
  { apply intersectObjects_flat_elem. cbn [hit_object hit_distance].
    destruct (Hs id Hid) as (oi & Hoi & Hki). exists oi. auto. }
  rewrite Hp in Hx. apply elem_of_cons in Hx as [Hx|Hx].
  - rewrite <- Hx. cbn [hit_distance]. apply Rle_refl.
  - pose proof (ascSort_head_least (flat_map (intersectObject s ray false) objs)) as Hl.
    fold (intersectObjects s ray objs false) in Hl.
    rewrite Hp in Hl. cbn [head_least] in Hl. apply (Hl _ Hx).
Qed.

Lemma flat_nil s ray objs :
  (forall id, id ∈ objs -> exists o, get id s = Some o /\ raycastable (obj_kind o) = true) ->
  intersectObjects s ray objs false = [] <-> forall id, id ∈ objs -> ray id = [].
Proof.
  intros Hs. split.
  - intros Hp id Hid. destruct (ray id) as [|d l] eqn:Hr; [reflexivity|].
    assert (mkIntersection d id ∈ intersectObjects s ray objs false) as Hx;
      [|rewrite Hp in Hx; inversion Hx].
    apply intersectObjects_flat_elem. cbn [hit_object hit_distance].
    destruct (Hs id Hid) as (o & Ho & Hk). exists o.
    split; [exact Hid|]. split; [exact Ho|]. split; [exact Hk|rewrite Hr; left].
  - intros Hr. destruct (intersectObjects s ray objs false) as [|x l] eqn:Hp; [reflexivity|].
    assert (x ∈ intersectObjects s ray objs false) as Hin by (rewrite Hp; left).
    apply intersectObjects_flat_elem in Hin as (o & Ho & _ & _ & Hd).
    rewrite (Hr _ Ho) in Hd. inversion Hd.
Qed.

Lemma raycast_inert ray c :
  raycastable (leaf_kind c) = false -> raycast ray (leaf_id c) (leaf_kind c) = [].
Proof. intros H. unfold raycast. rewrite H. reflexivity. Qed.

Lemma intersectObject_inert s ray id :
  GuiSpec.children_inert s id = true ->
  intersectObject s ray true id = intersectObject s ray false id.
Proof.
  unfold GuiSpec.children_inert, intersectObject.
  destruct (get id s) as [o|]; [|reflexivity].
  intros H. f_equal. induction (children o) as [|c l IH]; [reflexivity|].
  cbn [forallb] in H. apply andb_true_iff in H as [Hc Hl].
  cbn [flat_map]. rewrite raycast_inert by (apply negb_true_iff, Hc).
  apply IH, Hl.
Qed.

Lemma intersectObjects_inert s ray objs :
  Forall (fun id => GuiSpec.children_inert s id = true) objs ->
  intersectObjects s ray objs true = intersectObjects s ray objs false.
Proof.
  intros H. unfold intersectObjects. f_equal.
  induction H as [|id l Hid _ IH]; [reflexivity|].
  cbn [flat_map]. rewrite IH, (intersectObject_inert _ _ _ Hid). reflexivity.
Qed.
End Picking.

(** ** The module variant: what a click does *)

Section GuiClick.
Import Three Gui GuiSpec.

Lemma gui_meshes0_data : Forall2 (mesh_of initial_store) meshes0 planetData.
Proof.
  set (l := meshes0). vm_compute in l. subst l. unfold planetData.
  repeat (apply Forall2_cons; split; [repeat split; vm_compute; reflexivity|]).
  apply Forall2_nil. exact I.
Qed.

Lemma gui_meshes0_inert : Forall (fun id => children_inert initial_store id = true) meshes0.
Proof. apply (bool_decide_unpack _). vm_compute. reflexivity. Qed.

#[local] Opaque initial initial_store scene0 meshes0 orbits0.

Lemma shape_fields (s s0 : Store) id :
  shape <$> get id s = shape <$> get id s0 ->
  obj_kind <$> get id s = obj_kind <$> get id s0 /\
  obj_name <$> get id s = obj_name <$> get id s0 /\
  obj_geometry <$> get id s = obj_geometry <$> get id s0 /\
  children <$> get id s = children <$> get id s0.
Proof.
  destruct (get id s) as [o|], (get id s0) as [o0|]; cbn [fmap option_fmap option_map];
    intros H; try discriminate H; [|repeat split].
  unfold shape in H. injection H as -> -> _ -> ->. repeat split.
Qed.

Lemma planet_mesh_of w b :
  structure_ok w -> b ∈ planets w -> exists d, d ∈ planetData /\ mesh_of (store w) (mesh b) d.
Proof.
  intros S Hb.
  assert (mesh b ∈ meshes0) as H0
      by (rewrite <- (planets_meshes w S); apply list_elem_of_fmap; eauto).
  apply list_elem_of_lookup_1 in H0 as [i Hi].
  destruct (Forall2_lookup_l _ _ _ _ _ gui_meshes0_data Hi) as (d & Hd & (Hk & Hn & Hg)).
  exists d. split; [eapply list_elem_of_lookup_2, Hd|].
  destruct (shape_fields _ _ _ (ok_shapes w S (mesh b))) as (Ek & En & Eg & _).
  unfold mesh_of. rewrite Ek, En, Eg. auto.
Qed.

Lemma planet_mesh_inert w :
  structure_ok w -> Forall (fun id => children_inert (store w) id = true) (map mesh (planets w)).
Proof.
  intros S. rewrite (planets_meshes w S).
  eapply Forall_impl; [exact gui_meshes0_inert|].
  intros id H. unfold children_inert in *.
  destruct (shape_fields _ _ id (ok_shapes w S id)) as (_ & _ & _ & Ec).
  destruct (get id (store w)) as [o|], (get id initial_store) as [o0|];
    cbn [fmap option_fmap option_map] in Ec; try discriminate Ec; [|reflexivity].
  injection Ec as ->. exact H.
Qed.

Lemma pick_flat ray w :
  structure_ok w -> pick ray w = intersectObjects (store w) ray (map mesh (planets w)) false.
Proof. intros S. apply intersectObjects_inert, planet_mesh_inert, S. Qed.

Lemma planet_meshes_answer w id :
  structure_ok w -> id ∈ map mesh (planets w) ->
  exists o, get id (store w) = Some o /\ raycastable (obj_kind o) = true.
Proof.
  intros S Hid. apply list_elem_of_fmap in Hid as (b & -> & Hb).
  destruct (planet_mesh_of w b S Hb) as (d & _ & (Hk & _ & _)).
  destruct (get (mesh b) (store w)) as [o|]; [|discriminate Hk].
  exists o. split; [reflexivity|]. injection Hk as ->. reflexivity.
Qed.

Lemma pick_first ray w first rest :
  structure_ok w -> pick ray w = first :: rest ->
  exists b, b ∈ planets w /\ mesh b = hit_object first /\
            hit_distance first ∈ ray (mesh b) /\
            forall q d, q ∈ planets w -> d ∈ ray (mesh q) -> hit_distance first <= d.
Proof.
  intros S Hp. rewrite (pick_flat ray w S) in Hp.
  destruct (flat_first _ _ _ _ _ (fun id => planet_meshes_answer w id S) Hp)
    as (Ho & Hd & Hn).
  apply list_elem_of_fmap in Ho as (b & Hm & Hb).
  exists b. split; [exact Hb|]. split; [symmetry; exact Hm|].
  split; [rewrite <- Hm; exact Hd|].
  intros q d Hq Hdq. apply (Hn (mesh q)); [apply list_elem_of_fmap; eauto|exact Hdq].
Qed.

Lemma pick_nil ray w :
  structure_ok w -> pick ray w = [] <-> forall b, b ∈ planets w -> ray (mesh b) = [].
Proof.
  intros S. rewrite (pick_flat ray w S).
  rewrite (flat_nil _ _ _ (fun id => planet_meshes_answer w id S)). split.
  - intros H b Hb. apply H, list_elem_of_fmap. eauto.
  - intros H id Hid. apply list_elem_of_fmap in Hid as (b & -> & Hb). apply H, Hb.
Qed.

Lemma pick_ext ray ray' w :
  structure_ok w -> (forall b, b ∈ planets w -> ray (mesh b) = ray' (mesh b)) ->
  pick ray w = pick ray' w.
Proof.
  intros S H. rewrite !(pick_flat _ w S). apply intersectObjects_flat_ext.
  intros id Hid. apply list_elem_of_fmap in Hid as (b & -> & Hb). apply H, Hb.
Qed.

Lemma onMouseClick_eq x y now ray w :
  onMouseClick x y now ray w =
  match pick ray w with
  | first :: _ => focused (hit_object first) x y now w
  | [] => hidden (set_mouse (ndc x y w) w)
  end.
Proof.
  unfold onMouseClick, focused, hidden.
  change (pick ray (set_mouse (ndc x y w) w)) with (pick ray w).
  destruct (pick ray w); reflexivity.
Qed.
End GuiClick.

(** ** Listeners that leave the scene graph alone *)

Section ScriptScene.
Import Three Script ScriptSpec.
#[local] Open Scope js_scope.
Variable X : Store * list ObjId * option ObjId * list Planet.

Lemma keeps_scene_on_page (f : Page -> Page) : keeps_scene X (modify (on_page f)).
Proof. apply preserves_modify. intros w H. exact H. Qed.

Lemma keeps_scene_on_this (f : SolarSystem -> SolarSystem) :
  (forall t, scene_state (f t) = scene_state t) -> keeps_scene X (modify (on_this f)).
Proof. intros Hf. apply preserves_modify. intros w H. cbn [on_this this]. rewrite Hf. exact H. Qed.

Lemma keeps_scene_set_textContent id t : keeps_scene X (set_textContent id t).
Proof. unfold keeps_scene, set_textContent. preserve_steps. apply keeps_scene_on_page. Qed.

Lemma keeps_scene_set_active what ref b : keeps_scene X (set_active what ref b).
Proof. unfold keeps_scene, set_active. preserve_steps. apply keeps_scene_on_page. Qed.

Lemma keeps_scene_showPlanetInfo p : keeps_scene X (showPlanetInfo p).
Proof.
  unfold keeps_scene, showPlanetInfo. preserve_steps;
    first [apply keeps_scene_set_textContent|apply keeps_scene_set_active].
Qed.

Lemma keeps_scene_handlePlanetClick x y ray : keeps_scene X (handlePlanetClick x y ray).
Proof.
  unfold keeps_scene, handlePlanetClick, window_innerWidth, window_innerHeight.
  preserve_steps.
  - apply keeps_scene_on_this. intros t. reflexivity.
  - apply keeps_scene_showPlanetInfo.
Qed.

Lemma keeps_scene_onAutoRotateClick : keeps_scene X onAutoRotateClick.
Proof.
  unfold keeps_scene, onAutoRotateClick. preserve_steps.
  - apply keeps_scene_on_this. intros t. reflexivity.
  - apply keeps_scene_set_textContent.
Qed.

Lemma keeps_scene_onCloseInfoPanelClick : keeps_scene X onCloseInfoPanelClick.
Proof. unfold keeps_scene, onCloseInfoPanelClick. preserve_steps. apply keeps_scene_set_active. Qed.

Lemma keeps_scene_onSpeedControlInput v : keeps_scene X (onSpeedControlInput v).
Proof. apply keeps_scene_on_this. intros t. reflexivity. Qed.

Lemma keeps_scene_handleResize : keeps_scene X handleResize.
Proof.
  unfold keeps_scene, handleResize, window_innerWidth, window_innerHeight.
  preserve_steps; apply keeps_scene_on_this; intros t; reflexivity.
Qed.

Lemma keeps_scene_fire l (m : M unit) w :
  keeps_scene X m -> scene_state (this w) = X -> scene_state (this (fire l m w)) = X.
Proof.
  intros Hm Hw.
  apply (preserves_fire (fun w => scene_state (this w) = X)); [exact Hm| |exact Hw].
  intros e w0 H. exact H.
Qed.
End ScriptScene.

Section Toggles.
Import Three.

Lemma flip_visible_twice o : flip_visible (flip_visible o) = o.
Proof. destruct o. unfold flip_visible, set_visible. cbn. rewrite negb_involutive. reflexivity. Qed.

Lemma flip_twice ids s :
  NoDup ids -> update_all flip_visible ids (update_all flip_visible ids s) = s.
Proof.
  intros Hnd. apply store_eq; [rewrite !nextId_update_all; reflexivity|].
  intros id. destruct (decide (id ∈ ids)) as [Hin|Hout].
  - rewrite !get_update_all_elem by assumption.
    destruct (get id s) as [o|]; [|reflexivity].
    cbn [fmap option_fmap option_map]. rewrite flip_visible_twice. reflexivity.
  - rewrite !get_update_all_other by assumption. reflexivity.
Qed.

Lemma set_visible_back v ids s :
  NoDup ids -> (forall id, id ∈ ids -> visible <$> get id s = Some v) ->
  update_all (set_visible v) ids (update_all (set_visible (negb v)) ids s) = s.
Proof.
  intros Hnd Hv. apply store_eq; [rewrite !nextId_update_all; reflexivity|].
  intros id. destruct (decide (id ∈ ids)) as [Hin|Hout].
  - rewrite !get_update_all_elem by assumption. specialize (Hv id Hin).
    destruct (get id s) as [o|]; [|reflexivity].
    cbn [fmap option_fmap option_map] in *. injection Hv as Hv.
    destruct o. cbn in *. rewrite Hv. reflexivity.
  - rewrite !get_update_all_other by assumption. reflexivity.
Qed.

Lemma but_visible_update_all v ids s id :
  but_visible <$> get id (update_all (set_visible v) ids s) = but_visible <$> get id s.
Proof. apply update_all_observable. intros o. reflexivity. Qed.

Lemma but_visible_flip_all ids s id :
  but_visible <$> get id (update_all flip_visible ids s) = but_visible <$> get id s.
Proof. apply update_all_observable. intros o. reflexivity. Qed.

Lemma visible_flip_all ids s id :
  NoDup ids -> id ∈ ids ->
  visible <$> get id (update_all flip_visible ids s) = negb <$> (visible <$> get id s).
Proof.
  intros Hnd Hin. rewrite get_update_all_elem by assumption.
  destruct (get id s); reflexivity.
Qed.
End Toggles.

(** ** The module variant: what a frame runs *)

Section GuiFrame.
Import Three Gui GuiSpec.
#[local] Opaque initial initial_store scene0 meshes0 orbits0.

Lemma foldl_onComplete_calls ts w :
  calls (foldl (fun w t => onComplete t w) w ts)
  = calls w ++ replicate (length ts) ControlsUpdate.
Proof.
  revert w. induction ts as [|t ts IH]; intros w; cbn [foldl length replicate].
  - rewrite app_nil_r. reflexivity.
  - rewrite IH. unfold onComplete, log_call. cbn [calls set_calls set_controls].
    rewrite <- app_assoc. reflexivity.
Qed.

Lemma TWEEN_update_calls now w :
  calls (TWEEN_update now w)
  = calls w ++
    TweenUpdate :: replicate (length (List.filter (tween_finished now) (tweens w)))
                             ControlsUpdate.
Proof.
  unfold TWEEN_update. rewrite foldl_onComplete_calls.
  unfold log_call. cbn [calls set_calls set_tweens]. rewrite <- app_assoc. reflexivity.
Qed.

Lemma foldl_onComplete_enabled ts w :
  ts <> [] -> enabled (controls (foldl (fun w t => onComplete t w) w ts)) = true.
Proof.
  intros Hne. destruct ts as [|t ts _] using rev_ind; [congruence|].
  rewrite foldl_app. reflexivity.
Qed.

Lemma foldl_onComplete_rafPending b ts w :
  foldl (fun w t => onComplete t w) (set_rafPending b w) ts
  = set_rafPending b (foldl (fun w t => onComplete t w) w ts).
Proof.
  revert w. induction ts as [|t ts IH]; intros w; [reflexivity|].
  cbn [foldl]. rewrite <- IH. reflexivity.
Qed.

Lemma TWEEN_update_rafPending b now w :
  TWEEN_update now (set_rafPending b w) = set_rafPending b (TWEEN_update now w).
Proof. unfold TWEEN_update. rewrite <- foldl_onComplete_rafPending. reflexivity. Qed.

(** The frame, split at the hover check. *)
Lemma animate_split now w :
  exists w2,
    (forall ray,
        animate now ray w
        = log_call (LabelRender (width (labelRenderer w)) (height (labelRenderer w)))
            (log_call (Render (projectionAspect (camera w)) (width (renderer w))
                              (height (renderer w)))
               (log_call ControlsUpdate (hover ray w2)))) /\
    store w2 = frame_store now w /\ planets w2 = planets w /\
    INTERSECTED w2 = INTERSECTED w /\ tooltip w2 = tooltip w /\
    calls w2 = calls w ++
               TweenUpdate :: replicate (length (List.filter (tween_finished now) (tweens w)))
                                        ControlsUpdate /\
    controls w2 = controls (TWEEN_update now w) /\
    scene w2 = scene w /\ sun w2 = sun w.
Proof.
  unfold animate. cbv zeta.
  set (w1 := TWEEN_update now (set_rafPending true w)).
  destruct (TWEEN_update_scene now (set_rafPending true w))
    as (E1 & E2 & E3 & E4 & E5 & E6 & E7 & E8 & E9 & E10 & E11).
  fold w1 in E1, E2, E3, E4, E5, E6, E7, E8, E9, E10, E11.
  unfold scene_state in E1. injection E1 as Es Ec Eu Ep.
  pose proof (TWEEN_update_calls now (set_rafPending true w)) as Ecalls. fold w1 in Ecalls.
  assert (controls w1 = controls (TWEEN_update now w)) as Ectl
      by (subst w1; rewrite TWEEN_update_rafPending; reflexivity).
  cbn [store scene sun planets params rafPending camera renderer labelRenderer
       INTERSECTED tooltip infoPanel mouse tweens calls set_rafPending] in *.
  set (w2 := if pause (params w1) then w1 else _).
  assert (store w2 = frame_store now w /\ planets w2 = planets w /\
          INTERSECTED w2 = INTERSECTED w /\ tooltip w2 = tooltip w /\
          calls w2 = calls w1 /\ controls w2 = controls w1 /\
          camera w2 = camera w /\ renderer w2 = renderer w /\
          labelRenderer w2 = labelRenderer w /\ scene w2 = scene w /\ sun w2 = sun w) as H2.
  { subst w2. unfold frame_store. rewrite E2. destruct (pause (params w)).
    - repeat split; assumption.
    - cbn [store planets INTERSECTED tooltip calls controls camera renderer labelRenderer
           scene sun set_store].
      rewrite Es, Eu, Ep. repeat split; assumption. }
  clearbody w2.
  destruct H2 as (F1 & F2 & F3 & F4 & F5 & F6 & F7 & F8 & F9 & F10 & F11).
  exists w2. split; [|rewrite F5, F6; repeat split; assumption].
  intros ray.
  destruct (hover_scene ray w2) as (_ & _ & _ & G4 & G5 & G6 & _).
  unfold log_call. cbn [camera renderer labelRenderer set_calls].
  rewrite G4, G5, G6, F7, F8, F9. reflexivity.
Qed.

Lemma hover_cases ray w :
  (pick ray w = [] ->
   INTERSECTED (hover ray w) = None /\
   tooltip (hover ray w)
   = mkTooltip (tooltip_text (tooltip w)) DisplayNone
               (tooltip_left (tooltip w)) (tooltip_top (tooltip w))) /\
  (forall first rest,
      pick ray w = first :: rest ->
      INTERSECTED (hover ray w) = Some (hit_object first) /\
      (INTERSECTED w = Some (hit_object first) -> tooltip (hover ray w) = tooltip w) /\
      (INTERSECTED w <> Some (hit_object first) ->
       tooltip (hover ray w)
       = mkTooltip (obj_name (object_at (hit_object first) (store w))) Block
                   (tooltip_left (tooltip w)) (tooltip_top (tooltip w)))).
Proof.
  unfold hover. change (pick ray (log_call HoverRaycast w)) with (pick ray w).
  split.
  - intros ->. split; reflexivity.
  - intros first rest ->.
    change (INTERSECTED (log_call HoverRaycast w)) with (INTERSECTED w).
    case_bool_decide as Hi.
    + split; [exact Hi|]. split; [reflexivity|]. intros Hn. destruct (Hn Hi).
    + split; [reflexivity|]. split; [intros Hy; destruct (Hi Hy)|reflexivity].
Qed.

Lemma animate_calls now ray w :
  calls (animate now ray w)
  = calls w ++
    TweenUpdate :: replicate (length (List.filter (tween_finished now) (tweens w)))
                             ControlsUpdate ++
    [HoverRaycast; ControlsUpdate;
     Render (projectionAspect (camera w)) (width (renderer w)) (height (renderer w));
     LabelRender (width (labelRenderer w)) (height (labelRenderer w))].
Proof.
  destruct (animate_split now w) as (w2 & Ea & _ & _ & _ & _ & Ec & _).
  rewrite Ea.
  destruct (hover_scene ray w2) as (_ & _ & _ & _ & _ & _ & _ & _ & _ & _ & Eh).
  unfold log_call. cbn [calls set_calls]. rewrite Eh, Ec.
  rewrite <- !app_assoc. reflexivity.
Qed.

(** What the hover check of a frame finds, by what the ray meets once
    the planets have moved. *)
Lemma animate_hover now ray w :
  let hits := intersectObjects (frame_store now w) ray (map mesh (planets w)) true in
  (hits = [] ->
   INTERSECTED (animate now ray w) = None /\
   tooltip (animate now ray w)
   = mkTooltip (tooltip_text (tooltip w)) DisplayNone
               (tooltip_left (tooltip w)) (tooltip_top (tooltip w))) /\
  (forall first rest,
      hits = first :: rest ->
      INTERSECTED (animate now ray w) = Some (hit_object first) /\
      (INTERSECTED w = Some (hit_object first) -> tooltip (animate now ray w) = tooltip w) /\
      (INTERSECTED w <> Some (hit_object first) ->
       tooltip (animate now ray w)
       = mkTooltip (obj_name (object_at (hit_object first) (frame_store now w))) Block
                   (tooltip_left (tooltip w)) (tooltip_top (tooltip w)))).
Proof.
  cbv zeta.
  destruct (animate_split now w) as (w2 & Ea & Es & Ep & Ei & Et & _ & _).
  rewrite Ea.
  destruct (hover_cases ray w2) as (Hn & Hh). unfold pick in Hn, Hh.
  rewrite Es, Ep in Hn, Hh. rewrite Ei, Et in Hh. rewrite Et in Hn.
  unfold log_call. cbn [INTERSECTED tooltip set_calls].
  split; [exact Hn|exact Hh].
Qed.

Lemma hover_ext ray ray' w :
  structure_ok w -> (forall b, b ∈ planets w -> ray (mesh b) = ray' (mesh b)) ->
  hover ray w = hover ray' w.
Proof.
  intros S H. unfold hover.
  change (pick ray (log_call HoverRaycast w)) with (pick ray w).
  change (pick ray' (log_call HoverRaycast w)) with (pick ray' w).
  rewrite (pick_ext ray ray' w S H). reflexivity.
Qed.

(** A frame depends on the ray only through what it meets of the
    planets' meshes. *)
Lemma animate_ext now ray ray' w :
  structure_ok w -> (forall b, b ∈ planets w -> ray (mesh b) = ray' (mesh b)) ->
  animate now ray w = animate now ray' w.
Proof.
  intros [S1 S2 S3 S4] H.
  destruct (animate_split now w) as (w2 & Ea & Es & Ep & _ & _ & _ & _ & Esc & Esun).
  rewrite !Ea. rewrite (hover_ext ray ray' w2); [reflexivity| |rewrite Ep; exact H].
  split; [congruence|congruence|congruence|].
  intros id. rewrite Es, <- S4. apply frame_store_observable; intros; reflexivity.
Qed.
End GuiFrame.

(** ** What the pick depends on *)

Section ScriptPick.
Import Three Script ScriptSpec.
#[local] Open Scope js_scope.
#[local] Opaque initial_store scene0 meshes0 orbits0 load built.

Lemma picked_ext ray ray' w :
  (forall p, p ∈ planets (this w) -> ray (mesh p) = ray' (mesh p)) ->
  picked ray w = picked ray' w.
Proof.
  intros H. apply intersectObjects_flat_ext.
  intros id Hid. apply list_elem_of_fmap in Hid as (p & -> & Hp). apply H, Hp.
Qed.

Lemma handlePlanetClick_throws x y ray w :
  mouse (this w) = None -> handlePlanetClick x y ray w = Thrown (TypeError "mouse") w.
Proof.
  intros Hm.
  unfold handlePlanetClick, window_innerWidth, window_innerHeight, bind, gets, modify.
  cbv beta iota. rewrite Hm. reflexivity.
Qed.

Lemma handlePlanetClick_ext x y ray ray' w :
  (forall p, p ∈ planets (this w) -> ray (mesh p) = ray' (mesh p)) ->
  handlePlanetClick x y ray w = handlePlanetClick x y ray' w.
Proof.
  intros H. destruct (mouse (this w)) as [m|] eqn:Hm.
  - rewrite !handlePlanetClick_eq by (rewrite Hm; eauto).
    rewrite (picked_ext ray ray' w H). reflexivity.
  - rewrite !handlePlanetClick_throws by exact Hm. reflexivity.
Qed.

Lemma planets_click_target t w :
  planets (this (click_target t w)) = planets (this w).
Proof.
  assert (scene_state (this (click_target t w)) = scene_state (this w)
          \/ click_target t w = run onToggleOrbitsClick w) as [E|E].
  { destruct t; unfold click_target.
    - left. apply keeps_scene_fire; [apply keeps_scene_onAutoRotateClick|reflexivity].
    - unfold fire. destruct (registered _ _); [right|left]; reflexivity.
    - left. apply keeps_scene_fire; [apply keeps_scene_onCloseInfoPanelClick|reflexivity].
    - left. reflexivity. }
  - unfold scene_state in E. injection E as _ _ _ E. exact E.
  - rewrite E, run_onToggleOrbitsClick. reflexivity.
Qed.

(** Two rays that meet the planets' meshes alike give the same click. *)
Lemma click_ext t x y ray ray' w :
  (forall p, p ∈ planets (this w) -> ray (mesh p) = ray' (mesh p)) ->
  dispatch (Click t x y ray) w = dispatch (Click t x y ray') w.
Proof.
  intros H. unfold dispatch, fire, run.
  rewrite (handlePlanetClick_ext x y ray ray' (click_target t w)); [reflexivity|].
  rewrite planets_click_target. exact H.
Qed.

Lemma sun_not_a_planet t :
  structure_ok t -> sun t = Some sun0 /\ sun0 ∉ map mesh (planets t).
Proof.
  intros S. split; [apply (ok_sun _ S)|].
  rewrite (ok_meshes _ S). apply sun0_not_picked.
Qed.
End ScriptPick.

Section GuiPick.
Import Three Gui GuiSpec.
#[local] Opaque initial initial_store scene0 meshes0 orbits0.

Lemma build_panel W H :
  tooltip (build W H) = mkTooltip "" StyleSheet 0 0 /\
  infoPanel (build W H) = mkInfoPanel StyleSheet PageContent.
Proof. vm_compute. split; reflexivity. Qed.

Lemma gui_invariant_click_target t now w : invariant w -> invariant (click_target t now w).
Proof.
  intros Hw. destruct t; unfold click_target.
  - apply invariant_toggle_showOrbits, Hw.
  - eapply gui_invariant_same; [| | |exact Hw]; reflexivity.
  - eapply gui_invariant_same; [| | |exact Hw]; reflexivity.
  - exact Hw.
Qed.

Lemma gui_sun_not_a_planet w : structure_ok w -> mesh (sun w) ∉ map mesh (planets w).
Proof.
  intros S. rewrite (planets_meshes w S), (ok_sun w S).
  pose proof gui_meshes0_NoDup as H. apply NoDup_cons in H as [H _]. exact H.
Qed.

Lemma planetData_no_sun d : d ∈ planetData -> d_name d <> "Sun".
Proof.
  intros H.
  assert (Forall (fun d => d_name d <> "Sun") planetData) as F.
  { unfold planetData. repeat (apply Forall_cons; split; [discriminate|]).
    apply Forall_nil. exact I. }
  rewrite Forall_forall in F. apply F, H.
Qed.

Lemma focused_panel id x y now w d :
  mesh_of (store w) id d ->
  infoPanel (focused id x y now w) = mkInfoPanel Block (PlanetInfo (d_name d) (d_radius d)).
Proof.
  intros (_ & Hn & Hg). unfold focused, object_at. cbv zeta.
  cbn [infoPanel set_infoPanel].
  destruct (get id (store w)) as [o|]; [|discriminate Hn].
  cbn [fmap option_fmap option_map] in Hn, Hg.
  injection Hn as ->. injection Hg as ->. reflexivity.
Qed.

Lemma onMouseClick_panel x y now ray w :
  structure_ok w -> panel_ok w -> panel_ok (onMouseClick x y now ray w).
Proof.
  intros S P. rewrite onMouseClick_eq.
  destruct (pick ray w) as [|first rest] eqn:Hp; [exact P|].
  destruct (pick_first ray w first rest S Hp) as (b & Hb & Hm & _).
  destruct (planet_mesh_of w b S Hb) as (d & Hd & Hmo).
  right. exists d. split; [exact Hd|].
  rewrite <- Hm, (focused_panel _ x y now w d Hmo). reflexivity.
Qed.

Lemma panel_dispatch e w : invariant w -> panel_ok w -> panel_ok (dispatch e w).
Proof.
  intros Iw P. destruct e as [now ray|x y|t x y now ray|v|i v|W H]; unfold dispatch.
  - destruct (rafPending w); [|exact P].
    destruct (animate_scene now ray (set_rafPending false w))
      as (_ & _ & _ & _ & _ & _ & _ & _ & _ & E & _).
    unfold panel_ok. rewrite E. exact P.
  - exact P.
  - apply onMouseClick_panel.
    + apply (inv_structure _ (gui_invariant_click_target t now w Iw)).
    + destruct t; exact P.
  - exact P.
  - exact P.
  - exact P.
Qed.

Lemma panel_reachable W H now ray es : panel_ok (dispatch_all es (load W H now ray)).
Proof.
  assert (forall es w, invariant w -> panel_ok w -> panel_ok (dispatch_all es w)) as Hall.
  { clear es. intros es. induction es as [|e es IH]; intros w Iw P; [exact P|].
    apply IH; [apply gui_invariant_dispatch, Iw|apply panel_dispatch; assumption]. }
  apply Hall; [apply gui_invariant_load|].
  unfold load.
  destruct (animate_scene now ray (build W H)) as (_ & _ & _ & _ & _ & _ & _ & _ & _ & E & _).
  unfold panel_ok. rewrite E. left.
  destruct (build_panel W H) as (_ & ->). reflexivity.
Qed.

Lemma gui_click_ext t x y now ray ray' w :
  invariant w ->
  (forall b, b ∈ planets w -> ray (mesh b) = ray' (mesh b)) ->
  dispatch (Click t x y now ray) w = dispatch (Click t x y now ray') w.
Proof.
  intros Iw H. unfold dispatch. rewrite !onMouseClick_eq.
  pose proof (gui_invariant_click_target t now w Iw) as [S _ _ _].
  rewrite (pick_ext ray ray' _ S); [reflexivity|].
  intros b Hb. apply H.
  assert (planets (click_target t now w) = planets w) as <-; [|exact Hb].
  destruct t; reflexivity.
Qed.
End GuiPick.

(** * The claims *)

Section Claim1.
Import Three Script ScriptSpec.

Lemma wrap_2pi_range x : 0 <= wrap_2pi x < 2 * PI.
Proof.
  unfold wrap_2pi. pose proof PI_RGT_0 as HPI.
  destruct (base_Int_part (x / (2 * PI))) as [H1 H2].
  assert (x = x / (2 * PI) * (2 * PI)) as E by (field; lra).
  set (k := IZR (Int_part (x / (2 * PI)))) in *.
  set (q := x / (2 * PI)) in *.
  split; rewrite E at 1; nra.
Qed.

Lemma frame_this w :
  rafPending (page w) = true ->
  this (dispatch AnimationFrame w) = animate_this (this w) /\
  rafPending (page (dispatch AnimationFrame w)) = true.
Proof.
  intros Hr. unfold dispatch. rewrite Hr.
  destruct (run_animate (on_page (set_rafPending false) w)) as (cs & us & ->).
  split; reflexivity.
Qed.

Lemma frames_S n w : frames (S n) w = dispatch AnimationFrame (frames n w).
Proof. reflexivity. Qed.

Lemma frames_planets n w :
  rafPending (page w) = true -> speed_factor (simulationSpeed (this w)) = 1 ->
  planets (this (frames n w)) =
    map (fun p => set_angle (angle p + INR n * orbitSpeed p) p) (planets (this w)) /\
  rafPending (page (frames n w)) = true /\
  simulationSpeed (this (frames n w)) = simulationSpeed (this w).
Proof.
  intros Hr Hk. induction n as [|n (IHp & IHr & IHs)].
  - split; [|split; [exact Hr|reflexivity]].
    change (frames 0 w) with w. rewrite <- (map_id (planets (this w))) at 1.
    apply map_ext. intros [c m o a]. unfold set_angle. cbn. f_equal. lra.
  - rewrite frames_S. destruct (frame_this (frames n w) IHr) as (Et & Er).
    split; [|split; [exact Er|]].
    + rewrite Et, planets_animate_this, IHp, IHs, Hk, map_map.
      apply map_ext. intros p. unfold set_angle, next_angle, orbitSpeed. cbn [config mesh orbit angle].
      f_equal. rewrite S_INR. lra.
    + rewrite Et. unfold animate_this. cbn [simulationSpeed set_store set_planets]. exact IHs.
Qed.

(** In the module variant a running frame places each planet from the
    clock alone. *)
Lemma gui_frame_position now ray w b :
  GuiSpec.invariant w -> Gui.pause (Gui.params w) = false -> b ∈ Gui.planets w ->
  exists o, get (Gui.mesh b) (Gui.store (Gui.dispatch (Gui.AnimationFrame now ray) w)) = Some o /\
            vx (position o) = cos (GuiSpec.clock_angle now w b) * Gui.orbitRadius b /\
            vz (position o) = sin (GuiSpec.clock_angle now w b) * Gui.orbitRadius b.
Proof.
  intros [S Hv Ho Hr] Hp Hb. unfold Gui.dispatch. rewrite Hr.
  destruct (animate_scene now ray (Gui.set_rafPending false w)) as (E1 & _).
  rewrite E1. unfold GuiSpec.frame_store.
  cbn [Gui.params Gui.store Gui.sun Gui.planets Gui.set_rafPending]. rewrite Hp.
  pose proof gui_meshes0_NoDup as Hnd.
  rewrite <- (planets_meshes w S), <- (GuiSpec.ok_sun w S) in Hnd.
  apply NoDup_cons in Hnd as [Hsun Hnd].
  destruct (body_mesh_stored w b S) as [o Hg]; [right; exact Hb|].
  exists (GuiSpec.moved (now * 0.001) (Gui.params_timeScale (Gui.params w)) b o).
  split; [|split; reflexivity].
  rewrite get_update_ne.
  - rewrite move_planets_get by assumption. rewrite Hg. reflexivity.
  - intros E. apply Hsun. rewrite E. apply list_elem_of_fmap. eauto.
Qed.

Lemma wrapped_angles_fail w n i p :
  rafPending (page w) = true -> simulationSpeed (this w) = None ->
  planets (this w) !! i = Some p -> 2 * PI <= angle p + INR n * orbitSpeed p ->
  ~ Stated.wrapped_angles w n.
Proof.
  intros Hr Hn Hp Hbig Hc.
  destruct (frames_planets n w Hr) as (Ep & _); [rewrite Hn; reflexivity|].
  specialize (Hc Hn i p (set_angle (angle p + INR n * orbitSpeed p) p) Hp).
  rewrite Ep, list_lookup_fmap, Hp in Hc. specialize (Hc eq_refl).
  cbn [angle set_angle] in Hc.
  pose proof (wrap_2pi_range (angle p + INR n * orbitSpeed p)) as [_ Hw].
  rewrite <- Hc in Hw. lra.
Qed.

(** C1, as worded, fails on [script.js]: with the generator drawing 0,
    Mercury's stored angle after the first 2000 frames that follow the
    load is 10.005, which is no value of an angle wrapped into
    [0, 2π). *)
Lemma C1_stored_angle_is_not_wrapped : ~ Stated.wrapped_angles (load Stated.demo_host) 2000.
Proof.
  assert (exists p, planets (this (load Stated.demo_host)) !! 0%nat = Some p /\
                    angle p = 0.005 /\ orbitSpeed p = 0.005) as (p & Hp & Ha & Hs).
  { eexists. split; [vm_compute; reflexivity|]. split; vm_compute; lra. }
  apply (wrapped_angles_fail (load Stated.demo_host) 2000 0%nat p).
  - vm_compute. reflexivity.
  - vm_compute. reflexivity.
  - exact Hp.
  - rewrite Ha, Hs.
    replace (INR 2000) with 2000 by (rewrite INR_IZR_INZ; reflexivity).
    pose proof PI_4. lra.
Qed.

(** C1, amended.  In [script.js], while the speed factor is 1 (the
    slider untouched, or set to 1), [n] frames add [n] times
    0.005 * (10 / distance) to every planet's stored angle, and the
    stored angle is never reduced modulo 2π.  In the module variant no
    angle is stored: a running frame at clock value [now] (ms) puts
    each planet at angle
    [now * 0.001 * orbitSpeed * globalTimeScale * timeScale] on its
    circle. *)
Theorem C1_angle_after_ticks :
  (forall (w : World) (n : nat),
      rafPending (page w) = true ->
      speed_factor (simulationSpeed (this w)) = 1 ->
      planets (this (frames n w)) =
      map (fun p => set_angle (angle p + INR n * orbitSpeed p) p) (planets (this w)))
  /\
  (forall W H now0 ray0 es now ray b,
      let w := Gui.dispatch_all es (Gui.load W H now0 ray0) in
      Gui.pause (Gui.params w) = false -> b ∈ Gui.planets w ->
      exists o,
        get (Gui.mesh b) (Gui.store (Gui.dispatch (Gui.AnimationFrame now ray) w)) = Some o /\
        vx (position o) = cos (GuiSpec.clock_angle now w b) * Gui.orbitRadius b /\
        vz (position o) = sin (GuiSpec.clock_angle now w b) * Gui.orbitRadius b).
Proof.
  split.
  - intros w n Hr Hk. apply frames_planets; assumption.
  - intros W H now0 ray0 es now ray b w Hp Hb.
    apply gui_frame_position; [apply gui_invariant_reachable|exact Hp|exact Hb].
Qed.

Lemma C1_angle_after_ticks_witness :
  planets (this (frames 3 (load Stated.demo_host))) =
  map (fun p => set_angle (angle p + INR 3 * orbitSpeed p) p)
      (planets (this (load Stated.demo_host))).
Proof.
  apply (proj1 C1_angle_after_ticks); vm_compute; reflexivity.
Defined.
End Claim1.

Section Claim2.
Import Three.

Lemma placed_on_orbit s p : ScriptSpec.placed s p -> ScriptSpec.on_orbit s p.
Proof.
  intros (o & Hg & Hx & Hz). exists o. split; [exact Hg|].
  rewrite Hx, Hz. apply circle_point.
Qed.

(** C2.  Once a frame has run, every planet's mesh lies on the circle
    of its orbital distance, in every state the page reaches: after
    every later frame and whatever the slider, the toggles, the clicks
    or a resize did in between.  In the module variant the same holds
    from the start, paused or not, for the planets and for the sun
    (orbit radius 0). *)
Theorem C2_circular_orbit :
  (forall h es p,
      let w := Script.dispatch_all es (Script.load h) in
      Script.rafPending (Script.page w) = true ->
      p ∈ Script.planets (Script.this w) ->
      exists o, get (Script.mesh p) (Script.store (Script.this w)) = Some o /\
                (vx (position o))² + (vz (position o))²
                = (Script.distance (Script.config p))²)
  /\
  (forall W H now ray es b,
      let w := Gui.dispatch_all es (Gui.load W H now ray) in
      b ∈ Gui.sun w :: Gui.planets w ->
      exists o, get (Gui.mesh b) (Gui.store w) = Some o /\
                (vx (position o))² + (vz (position o))² = (Gui.orbitRadius b)²).
Proof.
  split.
  - intros h es p w Hr Hp.
    destruct (invariant_reachable h es) as [_ _ _ Hpl].
    specialize (Hpl Hr). rewrite Forall_forall in Hpl.
    apply placed_on_orbit, Hpl, Hp.
  - intros W H now ray es b w Hb.
    destruct (gui_invariant_reachable W H now ray es) as [_ _ Ho _].
    rewrite Forall_forall in Ho. apply Ho, Hb.
Qed.

Lemma C2_circular_orbit_witness :
  Forall (fun p =>
            exists o,
              get (Script.mesh p)
                  (Script.store
                     (Script.this (Script.dispatch_all [] (Script.load Stated.demo_host))))
              = Some o /\
              (vx (position o))² + (vz (position o))² = (Script.distance (Script.config p))²)
         (Script.planets (Script.this (Script.dispatch_all [] (Script.load Stated.demo_host)))).
Proof.
  apply Forall_forall. intros p Hp.
  refine (proj1 C2_circular_orbit Stated.demo_host [] p _ Hp).
  vm_compute. reflexivity.
Defined.
End Claim2.

(** ** Clicks *)

Section Claim3.
Import Three.
#[local] Opaque ScriptSpec.initial_store ScriptSpec.scene0 ScriptSpec.meshes0
  ScriptSpec.orbits0 Script.load ScriptSpec.built
  GuiSpec.initial GuiSpec.initial_store GuiSpec.scene0 GuiSpec.meshes0 GuiSpec.orbits0.

(** C3, as worded, fails on [script.js]: after a click on Earth has
    opened the panel, a click that meets no planet leaves it open. *)
Lemma C3_miss_leaves_panel_open :
  ~ Stated.miss_hides_panel
      (Script.dispatch (Script.Click Script.Elsewhere 400 300 Stated.earth_ray)
                       (Script.load Stated.demo_host)).
Proof.
  intros Hc. specialize (Hc Script.Elsewhere 400 300 Stated.no_ray).
  assert (Some true = Some false) as E; [|discriminate E].
  etransitivity; [|apply Hc].
  - vm_compute. reflexivity.
  - vm_compute. reflexivity.
Qed.

Lemma script_click h w t x y ray :
  ScriptSpec.complete_page (Script.host_dom h) -> ScriptSpec.invariant h w ->
  let w1 := Script.click_target t w in
  let w' := Script.dispatch (Script.Click t x y ray) w in
  (forall first rest,
      ScriptSpec.picked ray w1 = first :: rest ->
      exists p,
        p ∈ Script.planets (Script.this w1) /\ Script.mesh p = hit_object first /\
        hit_distance first ∈ ray (Script.mesh p) /\
        (forall q d, q ∈ Script.planets (Script.this w1) -> d ∈ ray (Script.mesh q) ->
                     hit_distance first <= d) /\
        w' = Script.on_page
               (Script.set_dom (ScriptSpec.dom_show p (Script.dom (Script.page w1))))
               (ScriptSpec.click_mouse x y w1) /\
        Script.textContent <$> (Script.dom (Script.page w') !! "planetName")
        = Some (Script.PlanetName (Script.name (Script.config p))) /\
        Script.active <$> (Script.dom (Script.page w') !! "infoPanel") = Some true) /\
  (ScriptSpec.picked ray w1 = [] -> w' = ScriptSpec.click_mouse x y w1) /\
  (ScriptSpec.picked ray w1 = [] <->
   forall p, p ∈ Script.planets (Script.this w1) -> ray (Script.mesh p) = []).
Proof.
  intros C Iw w1 w'.
  assert (ScriptSpec.invariant h w1) as I1 by (apply invariant_click_target, Iw).
  pose proof (wired_invariant h w1 C I1) as W1.
  pose proof (ScriptSpec.inv_structure _ _ I1) as S1.
  assert (w' = Script.fire Script.WindowClick (Script.handlePlanetClick x y ray) w1) as Ew
      by reflexivity.
  clearbody w' w1.
  split; [|split].
  - intros first rest Hp.
    destruct (click_hit x y ray w1 first rest W1 S1 Hp) as (p & Hpp & Hm & Hd & Hn & E).
    exists p. rewrite Ew, E.
    split; [exact Hpp|]. split; [exact Hm|]. split; [exact Hd|]. split; [exact Hn|].
    split; [reflexivity|].
    destruct (dom_show_lookup p (Script.dom (Script.page w1)) (ScriptSpec.wo_dom _ W1))
      as (H1 & _ & _ & _ & H5).
    destruct w1 as [pg t1]. split; [exact H1|exact H5].
  - intros Hp. rewrite Ew. apply click_miss; assumption.
  - apply picked_nil, S1.
Qed.

Lemma gui_click w t x y now ray :
  GuiSpec.invariant w ->
  let w1 := Gui.click_target t now w in
  let w' := Gui.dispatch (Gui.Click t x y now ray) w in
  (forall first rest,
      Gui.pick ray w1 = first :: rest ->
      exists b d,
        b ∈ Gui.planets w1 /\ Gui.mesh b = hit_object first /\
        hit_distance first ∈ ray (Gui.mesh b) /\
        (forall q r, q ∈ Gui.planets w1 -> r ∈ ray (Gui.mesh q) -> hit_distance first <= r) /\
        d ∈ Gui.planetData /\ GuiSpec.mesh_of (Gui.store w1) (Gui.mesh b) d /\
        w' = GuiSpec.focused (Gui.mesh b) x y now w1 /\
        Gui.infoPanel w'
        = Gui.mkInfoPanel Gui.Block (Gui.PlanetInfo (Gui.d_name d) (Gui.d_radius d))) /\
  (Gui.pick ray w1 = [] ->
   w' = GuiSpec.hidden (Gui.set_mouse (Gui.ndc x y w1) w1) /\
   Gui.panel_display (Gui.infoPanel w') = Gui.DisplayNone) /\
  (Gui.pick ray w1 = [] <-> forall b, b ∈ Gui.planets w1 -> ray (Gui.mesh b) = []).
Proof.
  intros Iw w1 w'.
  pose proof (gui_invariant_click_target t now w Iw) as [S1 _ _ _]. fold w1 in S1.
  assert (w' = Gui.onMouseClick x y now ray w1) as Ew by reflexivity.
  clearbody w' w1. rewrite onMouseClick_eq in Ew.
  split; [|split].
  - intros first rest Hp. rewrite Hp in Ew.
    destruct (pick_first ray w1 first rest S1 Hp) as (b & Hb & Hm & Hd & Hn).
    destruct (planet_mesh_of w1 b S1 Hb) as (d & Hdd & Hmo).
    exists b, d. rewrite Ew, <- Hm.
    split; [exact Hb|]. split; [reflexivity|]. split; [exact Hd|]. split; [exact Hn|].
    split; [exact Hdd|]. split; [exact Hmo|]. split; [reflexivity|].
    apply focused_panel, Hmo.
  - intros Hp. rewrite Hp in Ew. rewrite Ew. split; reflexivity.
  - apply pick_nil, S1.
Qed.

(** C3, amended.  A click runs the listener of the control it lands
    on and then reaches the window.  If the pick ray meets a planet's
    mesh, the first intersection is of a planet none of whose
    crossings is nearer, and that planet is shown: in [script.js] (on
    a page with all its elements) its name and figures are written
    and the panel is made active; in the module variant the camera
    is focused on it and the panel shows the name and radius of its
    row.  If the ray meets no planet's mesh, the module variant hides
    the panel; [script.js] only records the mouse position and leaves
    the panel as it is. *)
Theorem C3_click_picks_nearest :
  (forall h es t x y ray,
      ScriptSpec.complete_page (Script.host_dom h) ->
      let w1 := Script.click_target t (Script.dispatch_all es (Script.load h)) in
      let w' := Script.dispatch (Script.Click t x y ray)
                                (Script.dispatch_all es (Script.load h)) in
      (forall first rest,
          ScriptSpec.picked ray w1 = first :: rest ->
          exists p,
            p ∈ Script.planets (Script.this w1) /\ Script.mesh p = hit_object first /\
            hit_distance first ∈ ray (Script.mesh p) /\
            (forall q d, q ∈ Script.planets (Script.this w1) -> d ∈ ray (Script.mesh q) ->
                         hit_distance first <= d) /\
            w' = Script.on_page
                   (Script.set_dom (ScriptSpec.dom_show p (Script.dom (Script.page w1))))
                   (ScriptSpec.click_mouse x y w1) /\
            Script.textContent <$> (Script.dom (Script.page w') !! "planetName")
            = Some (Script.PlanetName (Script.name (Script.config p))) /\
            Script.active <$> (Script.dom (Script.page w') !! "infoPanel") = Some true) /\
      (ScriptSpec.picked ray w1 = [] -> w' = ScriptSpec.click_mouse x y w1) /\
      (ScriptSpec.picked ray w1 = [] <->
       forall p, p ∈ Script.planets (Script.this w1) -> ray (Script.mesh p) = []))
  /\
  (forall W H now0 ray0 es t x y now ray,
      let w1 := Gui.click_target t now (Gui.dispatch_all es (Gui.load W H now0 ray0)) in
      let w' := Gui.dispatch (Gui.Click t x y now ray)
                             (Gui.dispatch_all es (Gui.load W H now0 ray0)) in
      (forall first rest,
          Gui.pick ray w1 = first :: rest ->
          exists b d,
            b ∈ Gui.planets w1 /\ Gui.mesh b = hit_object first /\
            hit_distance first ∈ ray (Gui.mesh b) /\
            (forall q r, q ∈ Gui.planets w1 -> r ∈ ray (Gui.mesh q) ->
                         hit_distance first <= r) /\
            d ∈ Gui.planetData /\ GuiSpec.mesh_of (Gui.store w1) (Gui.mesh b) d /\
            w' = GuiSpec.focused (Gui.mesh b) x y now w1 /\
            Gui.infoPanel w'
            = Gui.mkInfoPanel Gui.Block (Gui.PlanetInfo (Gui.d_name d) (Gui.d_radius d))) /\
      (Gui.pick ray w1 = [] ->
       w' = GuiSpec.hidden (Gui.set_mouse (Gui.ndc x y w1) w1) /\
       Gui.panel_display (Gui.infoPanel w') = Gui.DisplayNone) /\
      (Gui.pick ray w1 = [] <-> forall b, b ∈ Gui.planets w1 -> ray (Gui.mesh b) = [])).
Proof.
  split.
  - intros h es t x y ray C.
    exact (script_click h _ t x y ray C (invariant_reachable h es)).
  - intros W H now0 ray0 es t x y now ray.
    exact (gui_click _ t x y now ray (gui_invariant_reachable W H now0 ray0 es)).
Qed.

Lemma C3_click_picks_nearest_witness :
  exists p,
    Script.mesh p = 6%nat /\
    Script.textContent <$>
      (Script.dom
         (Script.page
            (Script.dispatch (Script.Click Script.Elsewhere 400 300 Stated.earth_ray)
               (Script.dispatch_all [] (Script.load Stated.demo_host))))
       !! "planetName")
    = Some (Script.PlanetName (Script.name (Script.config p))).
Proof.
  assert (ScriptSpec.complete_page (Script.host_dom Stated.demo_host)) as C
      by (apply (bool_decide_unpack _); vm_compute; reflexivity).
  destruct (proj1 (proj1 C3_click_picks_nearest Stated.demo_host [] Script.Elsewhere
                     400 300 Stated.earth_ray C)
              (mkIntersection 30 6%nat) [])
    as (p & _ & Hm & _ & _ & _ & Hn & _).
  - vm_compute. reflexivity.
  - exists p. split; [exact Hm|exact Hn].
Defined.
End Claim3.

(** ** Start-up with elements missing *)

Section Claim4.
Import Three Script ScriptSpec.
#[local] Opaque initial_store scene0 meshes0 orbits0 load built.

(** C4, as worded, fails: on the repository's page without
    [#infoPanel] the constructor logs the error and goes on; the first
    frame is drawn and the next one requested. *)
Lemma C4_render_loop_starts_without_anchor :
  ~ Stated.aborts_without_anchor Stated.no_panel_host.
Proof.
  intros Hc. destruct Hc as (_ & Hr & _).
  - left. vm_compute. reflexivity.
  - vm_compute in Hr. discriminate Hr.
Qed.

Lemma load_guarded h :
  anchors_missing (host_dom h) ->
  load h = add_listener WindowResize (animate_world (guarded (built h))).
Proof.
  intros Hm. pose proof (load_cases h) as C. cbv zeta in C.
  destruct Hm as [Hm|Hm]; rewrite Hm in C.
  - exact C.
  - destruct (host_dom h !! "infoPanel"); exact C.
Qed.

Lemma fire_unregistered l (m : M unit) w : l ∉ listeners (page w) -> fire l m w = w.
Proof. intros H. unfold fire, registered. rewrite bool_decide_eq_false_2 by exact H. reflexivity. Qed.

Lemma guarded_fields w :
  console (page (add_listener WindowResize (animate_world (guarded w))))
  = console (page w) ++ ["Info panel or close button not found in the DOM!"] /\
  uncaught (page (add_listener WindowResize (animate_world (guarded w)))) = uncaught (page w) /\
  listeners (page (add_listener WindowResize (animate_world (guarded w))))
  = listeners (page w) ++ [WindowResize] /\
  mouse (this (add_listener WindowResize (animate_world (guarded w)))) = mouse (this w) /\
  canvasAttached (page (add_listener WindowResize (animate_world (guarded w))))
  = canvasAttached (page w) /\
  rafPending (page (add_listener WindowResize (animate_world (guarded w)))) = true /\
  calls (page (add_listener WindowResize (animate_world (guarded w))))
  = calls (page w) ++
    [ControlsUpdate;
     Render (match camera (this w) with Some c => projectionAspect c | None => 0 end)
            (match renderer (this w) with Some r => width r | None => 0 end)
            (match renderer (this w) with Some r => height r | None => 0 end)] /\
  dom (page (add_listener WindowResize (animate_world (guarded w)))) = dom (page w).
Proof. destruct w as [pg t]. repeat split. Qed.

Lemma wired_fields w :
  console (page (add_listener WindowResize (animate_world (wired w)))) = console (page w) /\
  uncaught (page (add_listener WindowResize (animate_world (wired w)))) = uncaught (page w) /\
  listeners (page (add_listener WindowResize (animate_world (wired w))))
  = (listeners (page w) ++
     [AutoRotateClick; ToggleOrbitsClick; SpeedControlInput; WindowClick;
      CloseInfoPanelClick]) ++ [WindowResize] /\
  rafPending (page (add_listener WindowResize (animate_world (wired w)))) = true.
Proof. destruct w as [pg t]. repeat split. Qed.

Lemma report_fields e w :
  console (page (report e w)) = console (page w) /\
  uncaught (page (report e w)) = uncaught (page w) ++ [e] /\
  rafPending (page (report e w)) = rafPending (page w) /\
  calls (page (report e w)) = calls (page w) /\
  listeners (page (report e w)) = listeners (page w).
Proof. destruct w as [pg t]. repeat split. Qed.

Lemma add_listener_fields l w :
  console (page (add_listener l w)) = console (page w) /\
  uncaught (page (add_listener l w)) = uncaught (page w) /\
  rafPending (page (add_listener l w)) = rafPending (page w) /\
  calls (page (add_listener l w)) = calls (page w) /\
  listeners (page (add_listener l w)) = listeners (page w) ++ [l].
Proof. destruct w as [pg t]. repeat split. Qed.

Lemma anchored_page w : page (anchored w) = page w.
Proof. destruct w as [pg t]. reflexivity. Qed.

Lemma load_guarded_fields h :
  anchors_missing (host_dom h) ->
  console (page (load h)) = ["Info panel or close button not found in the DOM!"] /\
  uncaught (page (load h)) = [] /\
  listeners (page (load h)) = [WindowResize] /\
  mouse (this (load h)) = None /\
  canvasAttached (page (load h)) = true /\
  rafPending (page (load h)) = true /\
  calls (page (load h))
  = [ControlsUpdate;
     Render (host_innerWidth h / host_innerHeight h) (host_innerWidth h) (host_innerHeight h)] /\
  dom (page (load h)) = host_dom h.
Proof.
  intros Hm. rewrite (load_guarded h Hm).
  destruct (guarded_fields (built h)) as (-> & -> & -> & -> & -> & -> & -> & ->).
  rewrite (built_page h), (built_camera h), (built_renderer h).
  destruct (built_ui h) as (_ & _ & _ & ->).
  repeat split.
Qed.

Lemma load_wired_fields h :
  ~ anchors_missing (host_dom h) -> controls_present (host_dom h) ->
  console (page (load h)) = [] /\ uncaught (page (load h)) = [] /\
  listeners (page (load h)) = all_listeners /\ rafPending (page (load h)) = true.
Proof.
  intros Hn (H1 & H2 & H3). pose proof (load_cases h) as C. cbv zeta in C.
  destruct (host_dom h !! "infoPanel") as [e1|] eqn:E1;
    [|exfalso; apply Hn; left; exact E1].
  destruct (host_dom h !! "closeInfoPanel") as [e2|] eqn:E2;
    [|exfalso; apply Hn; right; exact E2].
  destruct H1 as [e3 H1], H2 as [e4 H2], H3 as [e5 H3]. rewrite H1, H2, H3 in C.
  rewrite C.
  destruct (wired_fields (built h)) as (-> & -> & -> & ->).
  rewrite (built_page h). repeat split.
Qed.

Ltac thrown_fields h :=
  repeat match goal with
         | |- context [report ?e ?w] =>
             destruct (report_fields e w) as (-> & -> & -> & -> & ->)
         | |- context [add_listener ?l ?w] =>
             destruct (add_listener_fields l w) as (-> & -> & -> & -> & ->)
         end;
  rewrite (anchored_page (built h)), (built_page h);
  cbn [console uncaught rafPending calls listeners app].

Lemma load_thrown_fields h :
  ~ anchors_missing (host_dom h) -> ~ controls_present (host_dom h) ->
  console (page (load h)) = [] /\
  (exists id, id ∈ ["autoRotate"; "toggleOrbits"; "speedControl"] /\
              host_dom h !! id = None /\ uncaught (page (load h)) = [TypeError id]) /\
  rafPending (page (load h)) = false /\ calls (page (load h)) = [] /\
  (WindowClick ∉ listeners (page (load h))) /\ (WindowResize ∉ listeners (page (load h))).
Proof.
  intros Hn Hc. pose proof (load_cases h) as C. cbv zeta in C.
  destruct (host_dom h !! "infoPanel") as [e1|] eqn:E1;
    [|exfalso; apply Hn; left; exact E1].
  destruct (host_dom h !! "closeInfoPanel") as [e2|] eqn:E2;
    [|exfalso; apply Hn; right; exact E2].
  unfold controls_present in Hc.
  assert (forall l : list Listener,
             Forall (fun x => x <> WindowClick /\ x <> WindowResize) l ->
             (WindowClick ∉ l) /\ (WindowResize ∉ l)) as Hnot.
  { intros l F. rewrite Forall_forall in F.
    split; intros H; destruct (F _ H) as [A B]; congruence. }
  destruct (host_dom h !! "autoRotate") as [e3|] eqn:E3.
  - destruct (host_dom h !! "toggleOrbits") as [e4|] eqn:E4.
    + destruct (host_dom h !! "speedControl") as [e5|] eqn:E5; [exfalso; apply Hc; eauto|].
      rewrite C. thrown_fields h. split; [reflexivity|]. split.
      { exists "speedControl". split; [do 2 right; left|]. split; [exact E5|reflexivity]. }
      split; [reflexivity|]. split; [reflexivity|].
      apply Hnot. repeat (apply Forall_cons; split; [split; discriminate|]).
      apply Forall_nil. exact I.
    + rewrite C. thrown_fields h. split; [reflexivity|]. split.
      { exists "toggleOrbits". split; [right; left|]. split; [exact E4|reflexivity]. }
      split; [reflexivity|]. split; [reflexivity|].
      apply Hnot. repeat (apply Forall_cons; split; [split; discriminate|]).
      apply Forall_nil. exact I.
  - rewrite C. thrown_fields h. split; [reflexivity|]. split.
    { exists "autoRotate". split; [left|]. split; [exact E3|reflexivity]. }
    split; [reflexivity|]. split; [reflexivity|].
    apply Hnot. apply Forall_nil. exact I.
Qed.

(** C4, amended.  If [#infoPanel] or [#closeInfoPanel] is missing,
    [setupUI] logs one error to the console and returns before it
    registers any listener; the constructor is not aborted: the canvas
    stays in the page, the first frame is drawn, the next one is
    requested and the resize listener is registered.  Clicks and the
    slider then do nothing.  The guard is the only check: with both
    anchors there and a button missing, [setupUI] throws a
    [TypeError] that nothing catches, and then no frame is drawn or
    requested and neither the window's click listener nor the resize
    listener is registered.  With every element there, nothing is
    logged or thrown. *)
Theorem C4_missing_anchor :
  forall h,
    (anchors_missing (host_dom h) ->
     console (page (load h)) = ["Info panel or close button not found in the DOM!"] /\
     uncaught (page (load h)) = [] /\
     listeners (page (load h)) = [WindowResize] /\
     mouse (this (load h)) = None /\
     canvasAttached (page (load h)) = true /\
     rafPending (page (load h)) = true /\
     calls (page (load h))
     = [ControlsUpdate;
        Render (host_innerWidth h / host_innerHeight h) (host_innerWidth h)
               (host_innerHeight h)] /\
     dom (page (load h)) = host_dom h /\
     (forall t x y ray, dispatch (Click t x y ray) (load h) = load h) /\
     (forall v, dispatch (SpeedInput v) (load h) = load h))
    /\
    (~ anchors_missing (host_dom h) -> controls_present (host_dom h) ->
     console (page (load h)) = [] /\ uncaught (page (load h)) = [] /\
     listeners (page (load h)) = all_listeners /\ rafPending (page (load h)) = true)
    /\
    (~ anchors_missing (host_dom h) -> ~ controls_present (host_dom h) ->
     console (page (load h)) = [] /\
     (exists id, id ∈ ["autoRotate"; "toggleOrbits"; "speedControl"] /\
                 host_dom h !! id = None /\ uncaught (page (load h)) = [TypeError id]) /\
     rafPending (page (load h)) = false /\ calls (page (load h)) = [] /\
     (WindowClick ∉ listeners (page (load h))) /\ (WindowResize ∉ listeners (page (load h)))).
Proof.
  intros h. split; [|split].
  - intros Hm.
    destruct (load_guarded_fields h Hm) as (H1 & H2 & H3 & H4 & H5 & H6 & H7 & H8).
    repeat (split; [assumption|]).
    assert (forall l, l <> WindowResize -> l ∉ listeners (page (load h))) as Hl.
    { intros l Hne Hin. rewrite H3 in Hin. apply list_elem_of_singleton in Hin. auto. }
    split.
    + intros t x y ray. unfold dispatch.
      assert (click_target t (load h) = load h) as ->.
      { destruct t; unfold click_target; [| | |reflexivity];
          apply fire_unregistered, Hl; discriminate. }
      apply fire_unregistered, Hl. discriminate.
    + intros v. unfold dispatch. apply fire_unregistered, Hl. discriminate.
  - apply load_wired_fields.
  - apply load_thrown_fields.
Qed.

Lemma C4_missing_anchor_witness :
  console (page (load Stated.no_panel_host))
  = ["Info panel or close button not found in the DOM!"] /\
  rafPending (page (load Stated.no_panel_host)) = true /\
  listeners (page (load Stated.no_panel_host)) = [WindowResize].
Proof.
  destruct (proj1 (C4_missing_anchor Stated.no_panel_host)) as (H1 & _ & H3 & _ & _ & H6 & _).
  - left. vm_compute. reflexivity.
  - split; [exact H1|]. split; [exact H6|exact H3].
Defined.
End Claim4.

(** ** The paused frame *)

Section Claim5.
Import Three Gui GuiSpec.
#[local] Opaque initial initial_store scene0 meshes0 orbits0.

Lemma paused_frame now ray w :
  rafPending w = true -> pause (params w) = true ->
  let w' := dispatch (AnimationFrame now ray) w in
  (store w' = store w /\ planets w' = planets w /\ sun w' = sun w /\ params w' = params w) /\
  rafPending w' = true /\
  tweens w' = List.filter (fun t => negb (tween_finished now t)) (tweens w) /\
  controls w' = controls (TWEEN_update now w) /\
  calls w'
  = calls w ++
    TweenUpdate :: replicate (length (List.filter (tween_finished now) (tweens w)))
                             ControlsUpdate ++
    [HoverRaycast; ControlsUpdate;
     Render (projectionAspect (camera w)) (width (renderer w)) (height (renderer w));
     LabelRender (width (labelRenderer w)) (height (labelRenderer w))] /\
  (pick ray w = [] ->
   INTERSECTED w' = None /\ tooltip_display (tooltip w') = DisplayNone) /\
  (forall first rest, pick ray w = first :: rest -> INTERSECTED w' = Some (hit_object first)).
Proof.
  intros Hr Hp w'. subst w'. unfold dispatch. rewrite Hr.
  set (w0 := set_rafPending false w).
  destruct (animate_scene now ray w0)
    as (E1 & E2 & E3 & E4 & E5 & E6 & _ & _ & _ & _ & _ & E12).
  pose proof (animate_calls now ray w0) as Ec.
  destruct (animate_hover now ray w0) as (Hn & Hh).
  destruct (animate_split now w0) as (w2 & Ea & _ & _ & _ & _ & _ & Ectl & _).
  specialize (Ea ray).
  assert (frame_store now w0 = store w) as Ef
      by (unfold frame_store; subst w0; cbn [params set_rafPending store]; rewrite Hp;
          reflexivity).
  rewrite Ef in E1, Hn, Hh.
  split; [repeat split; assumption|]. split; [exact E6|]. split; [exact E12|].
  split.
  { rewrite Ea. unfold log_call. cbn [controls set_calls].
    destruct (hover_scene ray w2) as (_ & _ & _ & _ & _ & _ & _ & -> & _).
    rewrite Ectl. subst w0. rewrite TWEEN_update_rafPending. reflexivity. }
  split; [exact Ec|]. split.
  - intros Hpick. destruct (Hn Hpick) as (Hi & Ht). split; [exact Hi|]. rewrite Ht. reflexivity.
  - intros first rest Hpick. apply (Hh first rest Hpick).
Qed.

(** C5.  In the module variant, a frame that runs while the pause box
    is ticked leaves the store of scene objects as it is, and with it
    the position and rotation of every body; the tables of bodies and
    the parameters are unchanged.  The frame still requests the next
    one, runs the tween update (finished tweens are dropped and their
    completion updates the controls), runs the hover raycast, whose
    outcome is recorded, updates the controls and renders the scene
    and the labels. *)
Theorem C5_paused_frame :
  forall W H now0 ray0 es now ray,
    let w := dispatch_all es (load W H now0 ray0) in
    let w' := dispatch (AnimationFrame now ray) w in
    pause (params w) = true ->
    (store w' = store w /\ planets w' = planets w /\ sun w' = sun w /\ params w' = params w) /\
    rafPending w' = true /\
    tweens w' = List.filter (fun t => negb (tween_finished now t)) (tweens w) /\
    controls w' = controls (TWEEN_update now w) /\
    calls w'
    = calls w ++
      TweenUpdate :: replicate (length (List.filter (tween_finished now) (tweens w)))
                               ControlsUpdate ++
      [HoverRaycast; ControlsUpdate;
       Render (projectionAspect (camera w)) (width (renderer w)) (height (renderer w));
       LabelRender (width (labelRenderer w)) (height (labelRenderer w))] /\
    (pick ray w = [] ->
     INTERSECTED w' = None /\ tooltip_display (tooltip w') = DisplayNone) /\
    (forall first rest,
        pick ray w = first :: rest -> INTERSECTED w' = Some (hit_object first)).
Proof.
  intros W H now0 ray0 es now ray w w' Hp.
  apply paused_frame; [|exact Hp].
  apply (inv_raf _ (gui_invariant_reachable W H now0 ray0 es)).
Qed.

Lemma C5_paused_frame_witness :
  store (dispatch (AnimationFrame 16 Stated.no_ray)
           (dispatch_all [Click PauseCheckbox 0 0 0 Stated.no_ray]
              (load 800 600 0 Stated.no_ray)))
  = store (dispatch_all [Click PauseCheckbox 0 0 0 Stated.no_ray]
             (load 800 600 0 Stated.no_ray)).
Proof.
  refine (proj1 (proj1 (C5_paused_frame 800 600 0 Stated.no_ray
                          [Click PauseCheckbox 0 0 0 Stated.no_ray] 16 Stated.no_ray _))).
  vm_compute. reflexivity.
Defined.
End Claim5.

(** ** The show-orbits toggle *)

Section Claim6.
Import Three.
#[local] Opaque ScriptSpec.initial_store ScriptSpec.scene0 ScriptSpec.meshes0
  ScriptSpec.orbits0 Script.load ScriptSpec.built
  GuiSpec.initial GuiSpec.initial_store GuiSpec.scene0 GuiSpec.meshes0 GuiSpec.orbits0.

(** C6, as worded, fails on the module variant: [createPlanet] gives
    the sun an orbit path too, and the check box leaves it as it is. *)
Lemma C6_sun_orbit_path_not_toggled :
  ~ Stated.toggle_flips_every_orbit_path (Gui.load 800 600 0 Stated.no_ray).
Proof.
  intros Hc. specialize (Hc 3%nat).
  assert (Some true = Some false) as E; [|discriminate E].
  etransitivity; [|etransitivity; [apply Hc|]].
  - vm_compute. reflexivity.
  - vm_compute. left.
  - vm_compute. reflexivity.
Qed.

Lemma script_toggle_click x y ray w :
  Script.registered Script.ToggleOrbitsClick w = true ->
  let w' := Script.dispatch (Script.Click Script.ToggleOrbitsButton x y ray) w in
  Script.store (Script.this w')
  = update_all flip_visible (map Script.orbit (Script.planets (Script.this w)))
               (Script.store (Script.this w)) /\
  Script.scene (Script.this w') = Script.scene (Script.this w) /\
  Script.sun (Script.this w') = Script.sun (Script.this w) /\
  Script.planets (Script.this w') = Script.planets (Script.this w).
Proof.
  intros Hreg w'.
  assert (ScriptSpec.scene_state (Script.this w')
          = (update_all flip_visible (map Script.orbit (Script.planets (Script.this w)))
                        (Script.store (Script.this w)),
             Script.scene (Script.this w), Script.sun (Script.this w),
             Script.planets (Script.this w))) as E.
  { subst w'. unfold Script.dispatch, Script.click_target.
    apply keeps_scene_fire; [apply keeps_scene_handlePlanetClick|].
    unfold Script.fire. rewrite Hreg, run_onToggleOrbitsClick.
    destruct w as [pg t]. reflexivity. }
  clearbody w'. unfold ScriptSpec.scene_state in E. injection E as E1 E2 E3 E4. auto.
Qed.

Lemma script_registered_same w0 w w' l :
  ScriptSpec.static_ok w0 w -> ScriptSpec.static_ok w0 w' ->
  Script.registered l w' = Script.registered l w.
Proof.
  intros [Hl _ _ _ _ _] [Hl' _ _ _ _ _]. unfold Script.registered. rewrite Hl, Hl'.
  reflexivity.
Qed.

Lemma script_toggle h w x y ray :
  ScriptSpec.invariant h w ->
  Script.registered Script.ToggleOrbitsClick w = true ->
  let w' := Script.dispatch (Script.Click Script.ToggleOrbitsButton x y ray) w in
  (forall p, p ∈ Script.planets (Script.this w) ->
             visible <$> get (Script.orbit p) (Script.store (Script.this w'))
             = negb <$> (visible <$> get (Script.orbit p) (Script.store (Script.this w)))) /\
  (forall id, but_visible <$> get id (Script.store (Script.this w'))
              = but_visible <$> get id (Script.store (Script.this w))) /\
  (forall id, id ∉ map Script.orbit (Script.planets (Script.this w)) ->
              get id (Script.store (Script.this w')) = get id (Script.store (Script.this w))) /\
  (Script.scene (Script.this w'), Script.sun (Script.this w'), Script.planets (Script.this w'))
  = (Script.scene (Script.this w), Script.sun (Script.this w), Script.planets (Script.this w)) /\
  (forall x2 y2 ray2,
      Script.store
        (Script.this (Script.dispatch (Script.Click Script.ToggleOrbitsButton x2 y2 ray2) w'))
      = Script.store (Script.this w)).
Proof.
  intros Iw Hreg w'.
  destruct (script_toggle_click x y ray w Hreg) as (Es & Esc & Esun & Epl).
  fold w' in Es, Esc, Esun, Epl.
  assert (NoDup (map Script.orbit (Script.planets (Script.this w)))) as Hnd.
  { rewrite (ScriptSpec.ok_orbits _ (ScriptSpec.inv_structure _ _ Iw)). apply orbits0_NoDup. }
  split; [|split; [|split; [|split]]].
  - intros p Hp. rewrite Es. apply visible_flip_all; [exact Hnd|].
    apply list_elem_of_fmap. eauto.
  - intros id. rewrite Es. apply but_visible_flip_all.
  - intros id Hid. rewrite Es. apply get_update_all_other, Hid.
  - rewrite Esc, Esun, Epl. reflexivity.
  - intros x2 y2 ray2.
    assert (Script.registered Script.ToggleOrbitsClick w' = true) as Hreg'.
    { rewrite <- Hreg. apply (script_registered_same (Script.load h)).
      - apply (ScriptSpec.inv_static _ _ Iw).
      - apply (ScriptSpec.inv_static h), invariant_dispatch, Iw. }
    destruct (script_toggle_click x2 y2 ray2 w' Hreg') as (Es2 & _).
    rewrite Es2, Epl, Es. apply flip_twice, Hnd.
Qed.

Lemma gui_toggle_click x y now ray w :
  let w' := Gui.dispatch (Gui.Click Gui.ShowOrbitsCheckbox x y now ray) w in
  Gui.store w'
  = update_all (set_visible (negb (Gui.showOrbits (Gui.params w))))
               (map Gui.orbit (Gui.planets w)) (Gui.store w) /\
  Gui.scene w' = Gui.scene w /\ Gui.sun w' = Gui.sun w /\ Gui.planets w' = Gui.planets w /\
  Gui.showOrbits (Gui.params w') = negb (Gui.showOrbits (Gui.params w)).
Proof.
  intros w'.
  assert (GuiSpec.scene_state w'
          = (update_all (set_visible (negb (Gui.showOrbits (Gui.params w))))
                        (map Gui.orbit (Gui.planets w)) (Gui.store w),
             Gui.scene w, Gui.sun w, Gui.planets w) /\
          Gui.showOrbits (Gui.params w') = negb (Gui.showOrbits (Gui.params w))) as [E Ep].
  { subst w'. unfold Gui.dispatch, Gui.click_target.
    destruct (onMouseClick_scene x y now ray (Gui.toggle_showOrbits w)) as (E1 & E2 & _).
    rewrite E1, E2. unfold Gui.toggle_showOrbits. rewrite showOrbits_onChange_eq.
    split; reflexivity. }
  clearbody w'. unfold GuiSpec.scene_state in E. injection E as E1 E2 E3 E4. auto.
Qed.

Lemma gui_toggle w x y now ray :
  GuiSpec.invariant w ->
  let w' := Gui.dispatch (Gui.Click Gui.ShowOrbitsCheckbox x y now ray) w in
  Gui.showOrbits (Gui.params w') = negb (Gui.showOrbits (Gui.params w)) /\
  (forall b, b ∈ Gui.planets w ->
             visible <$> get (Gui.orbit b) (Gui.store w)
             = Some (Gui.showOrbits (Gui.params w)) /\
             visible <$> get (Gui.orbit b) (Gui.store w')
             = Some (negb (Gui.showOrbits (Gui.params w)))) /\
  (forall id, but_visible <$> get id (Gui.store w') = but_visible <$> get id (Gui.store w)) /\
  (forall id, id ∉ map Gui.orbit (Gui.planets w) ->
              get id (Gui.store w') = get id (Gui.store w)) /\
  get (Gui.orbit (Gui.sun w)) (Gui.store w') = get (Gui.orbit (Gui.sun w)) (Gui.store w) /\
  visible <$> get (Gui.orbit (Gui.sun w)) (Gui.store w') = Some true /\
  (Gui.scene w', Gui.sun w', Gui.planets w') = (Gui.scene w, Gui.sun w, Gui.planets w) /\
  (forall x2 y2 now2 ray2,
      let w'' := Gui.dispatch (Gui.Click Gui.ShowOrbitsCheckbox x2 y2 now2 ray2) w' in
      Gui.store w'' = Gui.store w /\
      Gui.showOrbits (Gui.params w'') = Gui.showOrbits (Gui.params w)).
Proof.
  intros Iw w'.
  destruct (gui_toggle_click x y now ray w) as (Es & Esc & Esun & Epl & Ep).
  fold w' in Es, Esc, Esun, Epl, Ep.
  pose proof Iw as [S Hv _ _].
  assert (NoDup (map Gui.orbit (Gui.planets w))) as Hnd.
  { rewrite (planets_orbits w S). pose proof gui_orbits0_NoDup as H.
    apply NoDup_cons in H as [_ H]. exact H. }
  assert (forall id, id ∈ map Gui.orbit (Gui.planets w) ->
                     visible <$> get id (Gui.store w) = Some (Gui.showOrbits (Gui.params w)))
    as Hvis.
  { intros id Hid. rewrite (Hv id). rewrite (planets_orbits w S) in Hid.
    rewrite bool_decide_eq_true_2 by exact Hid. reflexivity. }
  assert (Gui.orbit (Gui.sun w) ∉ map Gui.orbit (Gui.planets w)) as Hsun.
  { rewrite (planets_orbits w S), (GuiSpec.ok_sun w S).
    pose proof gui_orbits0_NoDup as H. apply NoDup_cons in H as [H _]. exact H. }
  split; [exact Ep|]. split; [|split; [|split; [|split; [|split; [|split]]]]].
  - intros b Hb.
    assert (Gui.orbit b ∈ map Gui.orbit (Gui.planets w)) as Hin
        by (apply list_elem_of_fmap; eauto).
    split; [apply Hvis, Hin|].
    rewrite Es, get_update_all_elem by assumption.
    specialize (Hvis _ Hin). destruct (get (Gui.orbit b) (Gui.store w)); [reflexivity|].
    discriminate Hvis.
  - intros id. rewrite Es. apply but_visible_update_all.
  - intros id Hid. rewrite Es. apply get_update_all_other, Hid.
  - rewrite Es. apply get_update_all_other, Hsun.
  - rewrite Es, get_update_all_other by exact Hsun.
    rewrite (Hv _), (GuiSpec.ok_sun w S).
    assert (Gui.orbit (Gui.sun GuiSpec.initial) ∉ GuiSpec.orbits0) as Hn.
    { pose proof gui_orbits0_NoDup as H. apply NoDup_cons in H as [H _]. exact H. }
    rewrite bool_decide_eq_false_2 by exact Hn.
    apply gui_orbits0_visible. left.
  - rewrite Esc, Esun, Epl. reflexivity.
  - intros x2 y2 now2 ray2 w''.
    destruct (gui_toggle_click x2 y2 now2 ray2 w') as (Es2 & _ & _ & _ & Ep2).
    fold w'' in Es2, Ep2.
    split; [|rewrite Ep2, Ep; apply negb_involutive].
    rewrite Es2, Ep, Epl, Es, negb_involutive. apply set_visible_back; assumption.
Qed.

(** C6, amended.  One activation of the show-orbits toggle flips the
    visibility flag of every planet's orbit path and changes nothing
    else in the scene graph: every object keeps all its other fields,
    every object that is no planet's orbit path is left as it is, and
    the scene's children and the tables of bodies are the same.  A
    second activation restores the scene graph.  In [script.js] this is
    so once the button's listener is registered.  In the module variant
    the orbit path made for the sun is not among those toggled: it
    stays visible. *)
Theorem C6_toggle_orbits :
  (forall h es x y ray,
      let w := Script.dispatch_all es (Script.load h) in
      let w' := Script.dispatch (Script.Click Script.ToggleOrbitsButton x y ray) w in
      Script.registered Script.ToggleOrbitsClick w = true ->
      (forall p, p ∈ Script.planets (Script.this w) ->
                 visible <$> get (Script.orbit p) (Script.store (Script.this w'))
                 = negb <$> (visible <$> get (Script.orbit p) (Script.store (Script.this w)))) /\
      (forall id, but_visible <$> get id (Script.store (Script.this w'))
                  = but_visible <$> get id (Script.store (Script.this w))) /\
      (forall id, id ∉ map Script.orbit (Script.planets (Script.this w)) ->
                  get id (Script.store (Script.this w'))
                  = get id (Script.store (Script.this w))) /\
      (Script.scene (Script.this w'), Script.sun (Script.this w'),
       Script.planets (Script.this w'))
      = (Script.scene (Script.this w), Script.sun (Script.this w),
         Script.planets (Script.this w)) /\
      (forall x2 y2 ray2,
          Script.store
            (Script.this
               (Script.dispatch (Script.Click Script.ToggleOrbitsButton x2 y2 ray2) w'))
          = Script.store (Script.this w)))
  /\
  (forall W H now0 ray0 es x y now ray,
      let w := Gui.dispatch_all es (Gui.load W H now0 ray0) in
      let w' := Gui.dispatch (Gui.Click Gui.ShowOrbitsCheckbox x y now ray) w in
      Gui.showOrbits (Gui.params w') = negb (Gui.showOrbits (Gui.params w)) /\
      (forall b, b ∈ Gui.planets w ->
                 visible <$> get (Gui.orbit b) (Gui.store w)
                 = Some (Gui.showOrbits (Gui.params w)) /\
                 visible <$> get (Gui.orbit b) (Gui.store w')
                 = Some (negb (Gui.showOrbits (Gui.params w)))) /\
      (forall id, but_visible <$> get id (Gui.store w')
                  = but_visible <$> get id (Gui.store w)) /\
      (forall id, id ∉ map Gui.orbit (Gui.planets w) ->
                  get id (Gui.store w') = get id (Gui.store w)) /\
      get (Gui.orbit (Gui.sun w)) (Gui.store w') = get (Gui.orbit (Gui.sun w)) (Gui.store w) /\
      visible <$> get (Gui.orbit (Gui.sun w)) (Gui.store w') = Some true /\
      (Gui.scene w', Gui.sun w', Gui.planets w') = (Gui.scene w, Gui.sun w, Gui.planets w) /\
      (forall x2 y2 now2 ray2,
          let w'' := Gui.dispatch (Gui.Click Gui.ShowOrbitsCheckbox x2 y2 now2 ray2) w' in
          Gui.store w'' = Gui.store w /\
          Gui.showOrbits (Gui.params w'') = Gui.showOrbits (Gui.params w))).
Proof.
  split.
  - intros h es x y ray w w' Hreg.
    exact (script_toggle h w x y ray (invariant_reachable h es) Hreg).
  - intros W H now0 ray0 es x y now ray w w'.
    exact (gui_toggle w x y now ray (gui_invariant_reachable W H now0 ray0 es)).
Qed.

Lemma C6_toggle_orbits_witness :
  Script.store
    (Script.this
       (Script.dispatch (Script.Click Script.ToggleOrbitsButton 0 0 Stated.no_ray)
          (Script.dispatch (Script.Click Script.ToggleOrbitsButton 0 0 Stated.no_ray)
             (Script.dispatch_all [] (Script.load Stated.demo_host)))))
  = Script.store (Script.this (Script.dispatch_all [] (Script.load Stated.demo_host))).
Proof.
  refine (proj2 (proj2 (proj2 (proj2
            (proj1 C6_toggle_orbits Stated.demo_host [] 0 0 Stated.no_ray _))))
            0 0 Stated.no_ray).
  vm_compute. reflexivity.
Defined.
End Claim6.

Section Claim7.
Import Three Script ScriptSpec.

Lemma is_sphere_mesh_shape (s s' : Store) id :
  shape <$> get id s = shape <$> get id s' -> is_sphere_mesh s id = is_sphere_mesh s' id.
Proof.
  unfold is_sphere_mesh, shape. intros E.
  destruct (get id s) as [o|], (get id s') as [o'|]; try discriminate E; [|reflexivity].
  injection E as -> -> _ _ _. reflexivity.
Qed.

Lemma is_ring_mesh_shape (s s' : Store) id :
  shape <$> get id s = shape <$> get id s' -> is_ring_mesh s id = is_ring_mesh s' id.
Proof.
  unfold is_ring_mesh, shape. intros E.
  destruct (get id s) as [o|], (get id s') as [o'|]; try discriminate E; [|reflexivity].
  injection E as -> -> _ _ _. reflexivity.
Qed.

Lemma filter_ext_all {A} (f g : A -> bool) l :
  (forall a, f a = g a) -> List.filter f l = List.filter g l.
Proof. intros H. apply List.filter_ext. exact H. Qed.

Lemma scene0_spheres : List.filter (is_sphere_mesh initial_store) scene0 = sun0 :: meshes0.
Proof. vm_compute. reflexivity. Qed.

Lemma scene0_rings : List.filter (is_ring_mesh initial_store) scene0 = orbits0.
Proof. vm_compute. reflexivity. Qed.

Lemma planets_config_distances :
  map distance planets_config = [10; 15; 20; 25; 35; 45; 55; 65].
Proof. reflexivity. Qed.

Lemma orbit_rings_initial :
  Forall (fun co : Config * ObjId =>
            obj_geometry <$> get (snd co) initial_store
            = Some (RingGeometry (distance (fst co) - 0.1) (distance (fst co)) 64))
         (zip planets_config orbits0).
Proof.
  apply Forall_forall. intros [c o] H.
  set (l := zip planets_config orbits0) in H. vm_compute in l. subst l.
  repeat (apply elem_of_cons in H as [E|H];
          [injection E as -> ->; vm_compute; reflexivity|]).
  inversion H.
Qed.

Lemma zip_of_maps {A B C} (f : A -> B) (g : A -> C) (l : list A) :
  zip (map f l) (map g l) = map (fun a => (f a, g a)) l.
Proof. induction l as [|a l IH]; cbn; [reflexivity|]. f_equal. exact IH. Qed.

Lemma orbit_rings t p :
  structure_ok t -> p ∈ planets t ->
  exists o, get (orbit p) (store t) = Some o /\
            obj_geometry o
            = RingGeometry (distance (config p) - 0.1) (distance (config p)) 64.
Proof.
  intros S Hp.
  pose proof orbit_rings_initial as F.
  rewrite <- (ok_configs t S), <- (ok_orbits t S), zip_of_maps in F.
  rewrite Forall_forall in F.
  specialize (F (config p, orbit p)).
  cbn [fst snd] in F.
  assert (obj_geometry <$> get (orbit p) initial_store
          = Some (RingGeometry (distance (config p) - 0.1) (distance (config p)) 64)) as G.
  { apply F. apply list_elem_of_fmap. exists p. split; [reflexivity|exact Hp]. }
  pose proof (ok_shapes t S (orbit p)) as E. unfold shape in E.
  destruct (get (orbit p) (store t)) as [o|], (get (orbit p) initial_store) as [o'|];
    try discriminate E; try discriminate G.
  injection E as _ Eg _ _ _. injection G as G.
  exists o. split; [reflexivity|]. congruence.
Qed.

(** C7.  Whatever the page holds and whatever has happened since it
    loaded, the scene of [script.js] has, for the registry of 8
    planets with distances 10, 15, 20, 25, 35, 45, 55, 65: exactly
    nine sphere meshes among its children, the sun followed by one
    mesh per planet; exactly eight ring meshes among its children,
    one orbit path per planet; all of these distinct objects; and each
    orbit path is a ring whose outer radius is its planet's
    distance. *)
Theorem C7_scene_build :
  forall h es,
    let t := this (dispatch_all es (load h)) in
    map (fun p => distance (config p)) (planets t) = [10; 15; 20; 25; 35; 45; 55; 65] /\
    (exists s, sun t = Some s /\
               List.filter (is_sphere_mesh (store t)) (scene t) = s :: map mesh (planets t)) /\
    List.filter (is_ring_mesh (store t)) (scene t) = map orbit (planets t) /\
    length (map mesh (planets t)) = 8%nat /\
    length (map orbit (planets t)) = 8%nat /\
    NoDup (List.filter (is_sphere_mesh (store t)) (scene t) ++ map orbit (planets t)) /\
    (forall p, p ∈ planets t ->
               exists o, get (orbit p) (store t) = Some o /\
                         obj_geometry o
                         = RingGeometry (distance (config p) - 0.1)
                                        (distance (config p)) 64).
Proof.
  intros h es t. destruct (invariant_reachable h es) as [S _ _ _]. fold t in S.
  pose proof S as [S1 S2 S3 S4 S5 S6 _ _ _].
  assert (List.filter (is_sphere_mesh (store t)) (scene t) = sun0 :: map mesh (planets t)) as Es.
  { rewrite S1, S3, <- scene0_spheres. apply filter_ext_all.
    intros id. apply is_sphere_mesh_shape, S6. }
  repeat split.
  - rewrite <- (map_map config distance), S5. reflexivity.
  - exists sun0. split; [exact S2|exact Es].
  - rewrite S1, S4, <- scene0_rings. apply filter_ext_all.
    intros id. apply is_ring_mesh_shape, S6.
  - rewrite S3. vm_compute. reflexivity.
  - rewrite S4. vm_compute. reflexivity.
  - rewrite Es, S3, S4. apply (bool_decide_unpack _). vm_compute. reflexivity.
  - intros p Hp. apply orbit_rings; assumption.
Qed.
End Claim7.

Section Claim8.
Import Three.

Lemma inline_camera_unbound : Inline.globals !! "camera" = None.
Proof. vm_compute. reflexivity. Qed.

(** [script.js] does what C8 says: once the handler is registered, a
    resize sets the aspect ratio, the projection and the buffer size
    before the next frame is drawn, which draws with them. *)
Lemma script_resize h es W H :
  let w := Script.dispatch_all es (Script.load h) in
  let w' := Script.dispatch (Script.Resize W H) w in
  Script.registered Script.WindowResize w = true ->
  (exists c r, Script.camera (Script.this w') = Some c /\
               Script.renderer (Script.this w') = Some r /\
               Script.aspect c = W / H /\ Script.projectionAspect c = W / H /\
               Script.width r = W /\ Script.height r = H) /\
  (Script.rafPending (Script.page w') = true ->
   exists cs, Script.calls (Script.page (Script.dispatch Script.AnimationFrame w'))
              = cs ++ [Script.Render (W / H) W H]).
Proof.
  intros w w' Hreg.
  destruct (invariant_reachable h es) as [S _ _ _]. fold w in S.
  destruct (ScriptSpec.ok_camera _ S) as [c Hc].
  destruct (ScriptSpec.ok_renderer _ S) as [r Hr].
  destruct (ScriptSpec.ok_controls _ S) as [k Hk].
  assert (w' = Script.mkWorld
                 (Script.set_innerHeight H (Script.set_innerWidth W (Script.page w)))
                 (Script.set_renderer (Some (Script.mkRenderer W H (Script.pixelRatio r)))
                    (Script.set_camera
                       (Some (Script.mkCamera (Script.fov c) (W / H) (Script.near c)
                                              (Script.far c) (Script.camera_z c) (W / H)))
                       (Script.this w)))) as Ew.
  { subst w'. unfold Script.dispatch, Script.fire.
    change (Script.registered Script.WindowResize
              (Script.on_page (fun p => Script.set_innerHeight H (Script.set_innerWidth W p)) w))
      with (Script.registered Script.WindowResize w).
    rewrite Hreg. clearbody w. destruct w as [pg t]. cbn [Script.this] in Hc, Hr.
    unfold Script.run, Script.handleResize, Script.bind, Script.gets, Script.modify,
      Script.window_innerWidth, Script.window_innerHeight.
    cbn [Script.this Script.page Script.on_page]. rewrite Hc, Hr.
    destruct t, pg. reflexivity. }
  split.
  - rewrite Ew. eexists _, _. repeat split.
  - intros Hraf. unfold Script.dispatch at 1. rewrite Hraf.
    rewrite Ew. unfold Script.run. rewrite animate_done.
    + unfold ScriptSpec.animate_world.
      cbn [Script.page Script.this Script.on_page Script.calls Script.set_calls
           Script.camera Script.renderer Script.set_renderer Script.set_camera
           Script.projectionAspect Script.width Script.height].
      eexists (_ ++ [_]). rewrite <- app_assoc. reflexivity.
    + cbn. rewrite Hk. eauto.
    + cbn. eauto.
    + cbn. eauto.
Qed.

(** So does the module variant, for both of its renderers. *)
Lemma gui_resize W H w :
  let w' := Gui.dispatch (Gui.Resize W H) w in
  Gui.aspect (Gui.camera w') = W / H /\ Gui.projectionAspect (Gui.camera w') = W / H /\
  Gui.renderer w' = Gui.mkSize W H /\ Gui.labelRenderer w' = Gui.mkSize W H.
Proof. repeat split. Qed.

Lemma inline_resize_keeps W H dpr W' H' :
  let w := Inline.dispatch (Inline.Resize W' H') (Inline.load W H dpr) in
  Inline.uncaught w = [ReferenceError "camera"] /\
  Script.aspect (Inline.camera w) = W / H /\
  Script.projectionAspect (Inline.camera w) = W / H /\
  Script.width (Inline.renderer w) = W /\ Script.height (Inline.renderer w) = H /\
  Inline.calls (Inline.dispatch Inline.AnimationFrame w) = [Script.Render (W / H) W H].
Proof.
  cbv zeta. unfold Inline.dispatch, Inline.onResize.
  rewrite inline_camera_unbound. repeat split.
Qed.

(** On a window that goes from 800 by 600 to 1024 by 600 the page
    keeps drawing 4:3. *)
Lemma inline_resize_example :
  let w := Inline.dispatch (Inline.Resize 1024 600) (Inline.load 800 600 1) in
  Script.aspect (Inline.camera w) <> 1024 / 600 /\
  Script.width (Inline.renderer w) <> 1024.
Proof.
  destruct (inline_resize_keeps 800 600 1 1024 600) as (_ & Ea & _ & Ew & _).
  cbv zeta in *. rewrite Ea, Ew. split; lra.
Qed.
(** C8 fails on the HTML page with the inlined class: its resize
    listener names [camera] and [renderer], which are bound nowhere in
    the page (the class keeps them in [this.camera] and
    [this.renderer]), so it throws a [ReferenceError] before it sets
    anything.  The camera and the renderer stay as they were built and
    the next frame is drawn with the old aspect ratio and size. *)
Theorem C8_inline_resize_throws :
  forall W H dpr W' H',
    let w := Inline.dispatch (Inline.Resize W' H') (Inline.load W H dpr) in
    Inline.uncaught w = [ReferenceError "camera"] /\
    Script.aspect (Inline.camera w) = W / H /\
    Script.projectionAspect (Inline.camera w) = W / H /\
    Script.width (Inline.renderer w) = W /\ Script.height (Inline.renderer w) = H /\
    Inline.calls (Inline.dispatch Inline.AnimationFrame w) = [Script.Render (W / H) W H].
Proof. intros W H dpr W' H'. apply inline_resize_keeps. Qed.

End Claim8.

(** ** The sun is out of the pick's reach *)

Section Claim9.
Import Three.
#[local] Opaque ScriptSpec.initial_store ScriptSpec.scene0 ScriptSpec.meshes0
  ScriptSpec.orbits0 Script.load ScriptSpec.built
  GuiSpec.initial GuiSpec.initial_store GuiSpec.scene0 GuiSpec.meshes0 GuiSpec.orbits0.

Lemma planets_config_no_sun c : c ∈ Script.planets_config -> Script.name c <> "Sun".
Proof.
  intros H.
  assert (Forall (fun c => Script.name c <> "Sun") Script.planets_config) as F.
  { unfold Script.planets_config. repeat (apply Forall_cons; split; [discriminate|]).
    apply Forall_nil. exact I. }
  rewrite Forall_forall in F. apply F, H.
Qed.

Lemma keeps_name_set_textContent X id t :
  id <> "planetName" ->
  ScriptSpec.preserves (fun w => ScriptSpec.shown_name w = X) (Script.set_textContent id t).
Proof.
  intros Hne w Hw. rewrite set_textContent_eq.
  destruct (Script.dom (Script.page w) !! id) as [e|] eqn:He; [|exact Hw].
  unfold ScriptSpec.shown_name in *. destruct w as [pg ts].
  cbn [Script.on_page Script.page Script.dom Script.set_dom] in *.
  rewrite dom_set_text_other by exact Hne. exact Hw.
Qed.

Lemma keeps_name_set_active X what ref b :
  ScriptSpec.preserves (fun w => ScriptSpec.shown_name w = X) (Script.set_active what ref b).
Proof.
  intros w Hw. rewrite set_active_eq. destruct ref as [id|]; [|exact Hw].
  unfold ScriptSpec.shown_name in *. destruct w as [pg ts].
  cbn [Script.on_page Script.page Script.dom Script.set_dom] in *.
  rewrite dom_set_active_text. exact Hw.
Qed.

Lemma shown_name_click_target t w :
  ScriptSpec.shown_name (Script.click_target t w) = ScriptSpec.shown_name w.
Proof.
  destruct t; unfold Script.click_target; [| | |reflexivity].
  - apply (preserves_fire (fun w' => ScriptSpec.shown_name w' = ScriptSpec.shown_name w));
      [|intros e [pg ts] H; exact H|reflexivity].
    unfold Script.onAutoRotateClick. preserve_steps.
    + apply preserves_modify. intros [pg ts] H. exact H.
    + apply keeps_name_set_textContent. discriminate.
  - unfold Script.fire. destruct (Script.registered _ _); [|reflexivity].
    rewrite run_onToggleOrbitsClick. destruct w as [pg ts]. reflexivity.
  - apply (preserves_fire (fun w' => ScriptSpec.shown_name w' = ScriptSpec.shown_name w));
      [|intros e [pg ts] H; exact H|reflexivity].
    unfold Script.onCloseInfoPanelClick. preserve_steps. apply keeps_name_set_active.
Qed.

Lemma script_sun h w :
  ScriptSpec.invariant h w ->
  Script.sun (Script.this w) = Some ScriptSpec.sun0 /\
  (ScriptSpec.sun0 ∉ map Script.mesh (Script.planets (Script.this w))) /\
  (forall ray first rest,
      ScriptSpec.picked ray w = first :: rest -> hit_object first <> ScriptSpec.sun0) /\
  (forall t x y ray ray',
      (forall p, p ∈ Script.planets (Script.this w) ->
                 ray (Script.mesh p) = ray' (Script.mesh p)) ->
      Script.dispatch (Script.Click t x y ray) w
      = Script.dispatch (Script.Click t x y ray') w) /\
  (ScriptSpec.complete_page (Script.host_dom h) ->
   forall t x y ray,
     ScriptSpec.shown_name (Script.dispatch (Script.Click t x y ray) w)
     = ScriptSpec.shown_name w \/
     exists c, c ∈ Script.planets_config /\ Script.name c <> "Sun" /\
               ScriptSpec.shown_name (Script.dispatch (Script.Click t x y ray) w)
               = Some (Script.PlanetName (Script.name c))).
Proof.
  intros Iw. pose proof (ScriptSpec.inv_structure _ _ Iw) as S.
  destruct (sun_not_a_planet _ S) as (Hs & Hn).
  split; [exact Hs|]. split; [exact Hn|]. split; [|split].
  - intros ray first rest Hp E.
    destruct (picked_first ray w first rest S Hp) as (p & _ & Hpp & Hm & _).
    apply Hn. rewrite <- E, <- Hm. apply list_elem_of_fmap. eauto.
  - intros t x y ray ray'. apply click_ext.
  - intros C t x y ray.
    assert (ScriptSpec.invariant h (Script.click_target t w)) as I1
        by (apply invariant_click_target, Iw).
    pose proof (wired_invariant h _ C I1) as W1.
    pose proof (ScriptSpec.inv_structure _ _ I1) as S1.
    unfold Script.dispatch. rewrite <- (shown_name_click_target t w).
    destruct (ScriptSpec.picked ray (Script.click_target t w)) as [|first rest] eqn:Hp.
    + left. rewrite click_miss by assumption.
      destruct (Script.click_target t w) as [pg ts]. reflexivity.
    + right.
      destruct (click_hit x y ray _ first rest W1 S1 Hp) as (p & Hpp & _ & _ & _ & ->).
      assert (Script.config p ∈ Script.planets_config) as Hc.
      { rewrite <- (ScriptSpec.ok_configs _ S1). apply list_elem_of_fmap. eauto. }
      exists (Script.config p). split; [exact Hc|].
      split; [apply planets_config_no_sun, Hc|].
      destruct (dom_show_lookup p _ (ScriptSpec.wo_dom _ W1)) as (H1 & _).
      unfold ScriptSpec.shown_name.
      destruct (Script.click_target t w) as [pg ts]. exact H1.
Qed.

Lemma gui_sun w :
  GuiSpec.invariant w -> GuiSpec.panel_ok w ->
  (Gui.mesh (Gui.sun w) ∉ map Gui.mesh (Gui.planets w)) /\
  (forall ray first rest,
      Gui.pick ray w = first :: rest -> hit_object first <> Gui.mesh (Gui.sun w)) /\
  (forall t x y now ray ray',
      (forall b, b ∈ Gui.planets w -> ray (Gui.mesh b) = ray' (Gui.mesh b)) ->
      Gui.dispatch (Gui.Click t x y now ray) w = Gui.dispatch (Gui.Click t x y now ray') w) /\
  (forall now ray ray',
      (forall b, b ∈ Gui.planets w -> ray (Gui.mesh b) = ray' (Gui.mesh b)) ->
      Gui.dispatch (Gui.AnimationFrame now ray) w
      = Gui.dispatch (Gui.AnimationFrame now ray') w) /\
  (forall r, Gui.panel_content (Gui.infoPanel w) <> Gui.PlanetInfo "Sun" r).
Proof.
  intros Iw P. pose proof Iw as [S _ _ Hr].
  pose proof (gui_sun_not_a_planet w S) as Hn.
  split; [exact Hn|]. split; [|split; [|split]].
  - intros ray first rest Hp E.
    destruct (pick_first ray w first rest S Hp) as (b & Hb & Hm & _).
    apply Hn. rewrite <- E, <- Hm. apply list_elem_of_fmap. eauto.
  - intros t x y now ray ray'. apply gui_click_ext, Iw.
  - intros now ray ray' H. unfold Gui.dispatch. rewrite Hr.
    apply animate_ext; [|exact H].
    destruct S as [S1 S2 S3 S4]. split; assumption.
  - intros r E. destruct P as [P|(d & Hd & P)]; rewrite E in P; [discriminate P|].
    injection P as Pn _. apply (planetData_no_sun d Hd). symmetry. exact Pn.
Qed.

(** C9.  In every state the page reaches, the sun's mesh is not among
    the meshes handed to the raycaster, which are the planets' meshes;
    the object of a first intersection is never the sun; and a click
    depends on the ray only through what it meets of the planets'
    meshes, so a click whose ray meets only the sun does what a click
    into empty space does.  In [script.js] a click leaves the panel's
    heading as it was or sets it to the name of a row of the planet
    table, none of which is the sun's.  In the module variant the
    same holds of the hover check, and the panel never shows the
    sun's name. *)
Theorem C9_sun_is_not_pickable :
  (forall h es,
      let w := Script.dispatch_all es (Script.load h) in
      Script.sun (Script.this w) = Some ScriptSpec.sun0 /\
      (ScriptSpec.sun0 ∉ map Script.mesh (Script.planets (Script.this w))) /\
      (forall ray first rest,
          ScriptSpec.picked ray w = first :: rest -> hit_object first <> ScriptSpec.sun0) /\
      (forall t x y ray ray',
          (forall p, p ∈ Script.planets (Script.this w) ->
                     ray (Script.mesh p) = ray' (Script.mesh p)) ->
          Script.dispatch (Script.Click t x y ray) w
          = Script.dispatch (Script.Click t x y ray') w) /\
      (ScriptSpec.complete_page (Script.host_dom h) ->
       forall t x y ray,
         ScriptSpec.shown_name (Script.dispatch (Script.Click t x y ray) w)
         = ScriptSpec.shown_name w \/
         exists c, c ∈ Script.planets_config /\ Script.name c <> "Sun" /\
                   ScriptSpec.shown_name (Script.dispatch (Script.Click t x y ray) w)
                   = Some (Script.PlanetName (Script.name c))))
  /\
  (forall W H now0 ray0 es,
      let w := Gui.dispatch_all es (Gui.load W H now0 ray0) in
      (Gui.mesh (Gui.sun w) ∉ map Gui.mesh (Gui.planets w)) /\
      (forall ray first rest,
          Gui.pick ray w = first :: rest -> hit_object first <> Gui.mesh (Gui.sun w)) /\
      (forall t x y now ray ray',
          (forall b, b ∈ Gui.planets w -> ray (Gui.mesh b) = ray' (Gui.mesh b)) ->
          Gui.dispatch (Gui.Click t x y now ray) w
          = Gui.dispatch (Gui.Click t x y now ray') w) /\
      (forall now ray ray',
          (forall b, b ∈ Gui.planets w -> ray (Gui.mesh b) = ray' (Gui.mesh b)) ->
          Gui.dispatch (Gui.AnimationFrame now ray) w
          = Gui.dispatch (Gui.AnimationFrame now ray') w) /\
      (forall r, Gui.panel_content (Gui.infoPanel w) <> Gui.PlanetInfo "Sun" r)).
Proof.
  split.
  - intros h es. exact (script_sun h _ (invariant_reachable h es)).
  - intros W H now0 ray0 es.
    exact (gui_sun _ (gui_invariant_reachable W H now0 ray0 es)
                   (panel_reachable W H now0 ray0 es)).
Qed.

(** A ray that meets only the sun (object 1) of the loaded page. *)
Lemma C9_sun_is_not_pickable_witness :
  Script.dispatch
    (Script.Click Script.Elsewhere 400 300 (fun id => if Nat.eqb id 1 then [7] else []))
    (Script.dispatch_all [] (Script.load Stated.demo_host))
  = Script.dispatch (Script.Click Script.Elsewhere 400 300 Stated.no_ray)
      (Script.dispatch_all [] (Script.load Stated.demo_host)).
Proof.
  refine (proj1 (proj2 (proj2 (proj2 (proj1 C9_sun_is_not_pickable Stated.demo_host []))))
            Script.Elsewhere 400 300 _ _ _).
  intros p Hp.
  assert (Forall (fun p => (if Nat.eqb (Script.mesh p) 1 then [7] else []) = Stated.no_ray (Script.mesh p))
                 (Script.planets (Script.this (Script.dispatch_all [] (Script.load Stated.demo_host)))))
    as F.
  { set (l := Script.planets _). vm_compute in l. subst l.
    repeat (apply Forall_cons; split; [reflexivity|]). apply Forall_nil. exact I. }
  rewrite Forall_forall in F. apply F, Hp.
Defined.
End Claim9.

Section Claim10.
Import Three.

(** C10, as worded, fails on the module variant: [createPlanet] also
    makes an orbit path for the sun (a ring of radius 0), which the
    check box never reaches.  After one click on the check box the
    sun's orbit path is visible and Mercury's is not. *)
Lemma C10_sun_orbit_path_differs :
  ~ Stated.orbit_paths_agree
      (Gui.dispatch (Gui.Click Gui.ShowOrbitsCheckbox 0 0 0 Stated.no_ray)
                    (Gui.load 800 600 0 Stated.no_ray)).
Proof.
  intros Hc.
  specialize (Hc 3%nat 6%nat).
  assert (Some true = Some false) as E; [|discriminate E].
  etransitivity; [|etransitivity; [apply Hc|]].
  - vm_compute. reflexivity.
  - vm_compute. left.
  - vm_compute. right. left.
  - vm_compute. reflexivity.
Qed.

Lemma script_orbits_flag t b p :
  ScriptSpec.structure_ok t -> ScriptSpec.visibility_ok b (Script.store t) ->
  p ∈ Script.planets t ->
  visible <$> get (Script.orbit p) (Script.store t) = Some b.
Proof.
  intros S Hb Hp. rewrite (Hb (Script.orbit p)).
  rewrite bool_decide_eq_true_2; [reflexivity|].
  rewrite <- (ScriptSpec.ok_orbits _ S). apply list_elem_of_fmap. eauto.
Qed.

Lemma gui_orbits_follow_checkbox w b :
  GuiSpec.invariant w -> b ∈ Gui.planets w ->
  visible <$> get (Gui.orbit b) (Gui.store w) = Some (Gui.showOrbits (Gui.params w)).
Proof.
  intros [S Hv _ _] Hb. rewrite (Hv (Gui.orbit b)).
  rewrite bool_decide_eq_true_2; [reflexivity|].
  rewrite <- (planets_orbits w S). apply list_elem_of_fmap. eauto.
Qed.

Lemma gui_sun_orbit_not_planets : Gui.orbit (Gui.sun GuiSpec.initial) ∉ GuiSpec.orbits0.
Proof. pose proof gui_orbits0_NoDup as H. apply NoDup_cons in H as [H _]. exact H. Qed.

Lemma gui_sun_orbit_visible w :
  GuiSpec.invariant w ->
  visible <$> get (Gui.orbit (Gui.sun w)) (Gui.store w) = Some true.
Proof.
  intros [S Hv _ _]. rewrite (Hv (Gui.orbit (Gui.sun w))), (GuiSpec.ok_sun w S).
  rewrite bool_decide_eq_false_2 by apply gui_sun_orbit_not_planets.
  apply gui_orbits0_visible. left.
Qed.

(** C10, amended.  In every state the page reaches, the orbit paths
    of the planets all carry the same visibility flag; they are
    created visible.  In the module variant the flag is the value of
    the panel's check box, and the orbit path made for the sun stays
    visible whatever the check box says. *)
Theorem C10_planet_orbits_agree :
  (forall h es,
      let t := Script.this (Script.dispatch_all es (Script.load h)) in
      exists b, forall p, p ∈ Script.planets t ->
                          visible <$> get (Script.orbit p) (Script.store t) = Some b)
  /\
  (forall h p,
      let t := Script.this (ScriptSpec.built h) in
      p ∈ Script.planets t -> visible <$> get (Script.orbit p) (Script.store t) = Some true)
  /\
  (forall W H now ray es,
      let w := Gui.dispatch_all es (Gui.load W H now ray) in
      (forall b, b ∈ Gui.planets w ->
                 visible <$> get (Gui.orbit b) (Gui.store w)
                 = Some (Gui.showOrbits (Gui.params w))) /\
      visible <$> get (Gui.orbit (Gui.sun w)) (Gui.store w) = Some true)
  /\
  (forall W H b,
      b ∈ Gui.sun (Gui.build W H) :: Gui.planets (Gui.build W H) ->
      visible <$> get (Gui.orbit b) (Gui.store (Gui.build W H)) = Some true).
Proof.
  split; [|split; [|split]].
  - intros h es t. destruct (invariant_reachable h es) as [S _ [b Hb] _].
    exists b. intros p. exact (script_orbits_flag _ b p S Hb).
  - intros h p t. exact (script_orbits_flag _ true p (built_structure h) (built_visibility h)).
  - intros W H now ray es w. pose proof (gui_invariant_reachable W H now ray es) as I.
    split; [intros b Hb; apply gui_orbits_follow_checkbox; assumption|].
    apply gui_sun_orbit_visible, I.
  - intros W H b Hb. rewrite build_store. apply gui_orbits0_visible.
    rewrite build_sun, build_planets in Hb.
    change (Gui.orbit b ∈ map Gui.orbit (Gui.sun GuiSpec.initial :: Gui.planets GuiSpec.initial)).
    apply list_elem_of_fmap. eauto.
Qed.

Lemma C10_planet_orbits_agree_witness :
  Forall (fun p =>
            visible <$> get (Script.orbit p)
                            (Script.store (Script.this (ScriptSpec.built Stated.demo_host)))
            = Some true)
         (Script.planets (Script.this (ScriptSpec.built Stated.demo_host))).
Proof.
  apply Forall_forall. intros p Hp.
  exact (proj1 (proj2 C10_planet_orbits_agree) Stated.demo_host p Hp).
Defined.
End Claim10.

(** * Further properties *)

(** ** [script.js]: what the listeners leave alone *)

Section ScriptKeeps.
Import Three Script ScriptSpec ScriptView.
#[local] Open Scope js_scope.
#[local] Opaque initial_store scene0 meshes0 orbits0 load built.

Variable X : R * R * R * N * bool * list Listener * list string * bool * list Call.

Lemma keeps_page_on_page (f : Page -> Page) :
  (forall p, page_frame (f p) = page_frame p) -> keeps_page X (modify (on_page f)).
Proof.
  intros Hf. apply preserves_modify. intros [pg t] H. cbn [on_page page]. rewrite Hf. exact H.
Qed.

Lemma keeps_page_on_this (f : SolarSystem -> SolarSystem) : keeps_page X (modify (on_this f)).
Proof. apply preserves_modify. intros [pg t] H. exact H. Qed.

Lemma keeps_page_set_textContent id t : keeps_page X (set_textContent id t).
Proof.
  unfold keeps_page, set_textContent. preserve_steps.
  apply keeps_page_on_page. intros p. reflexivity.
Qed.

Lemma keeps_page_set_active what ref b : keeps_page X (set_active what ref b).
Proof.
  unfold keeps_page, set_active. preserve_steps.
  apply keeps_page_on_page. intros p. reflexivity.
Qed.

Lemma keeps_page_showPlanetInfo p : keeps_page X (showPlanetInfo p).
Proof.
  unfold keeps_page, showPlanetInfo. preserve_steps;
    first [apply keeps_page_set_textContent|apply keeps_page_set_active].
Qed.

Lemma keeps_page_handlePlanetClick x y ray : keeps_page X (handlePlanetClick x y ray).
Proof.
  unfold keeps_page, handlePlanetClick, window_innerWidth, window_innerHeight.
  preserve_steps; [apply keeps_page_on_this|apply keeps_page_showPlanetInfo].
Qed.

Lemma keeps_page_onAutoRotateClick : keeps_page X onAutoRotateClick.
Proof.
  unfold keeps_page, onAutoRotateClick. preserve_steps;
    [apply keeps_page_on_this|apply keeps_page_set_textContent].
Qed.

Lemma keeps_page_onToggleOrbitsClick : keeps_page X onToggleOrbitsClick.
Proof.
  unfold keeps_page, onToggleOrbitsClick, update_object. preserve_steps.
  apply keeps_page_on_this.
Qed.

Lemma keeps_page_onCloseInfoPanelClick : keeps_page X onCloseInfoPanelClick.
Proof. unfold keeps_page, onCloseInfoPanelClick. preserve_steps. apply keeps_page_set_active. Qed.

Lemma keeps_page_onSpeedControlInput v : keeps_page X (onSpeedControlInput v).
Proof. apply keeps_page_on_this. Qed.

Lemma keeps_page_handleResize : keeps_page X handleResize.
Proof.
  unfold keeps_page, handleResize, window_innerWidth, window_innerHeight.
  preserve_steps; apply keeps_page_on_this.
Qed.

Lemma keeps_page_fire l (m : M unit) w :
  keeps_page X m -> page_frame (page w) = X -> page_frame (page (fire l m w)) = X.
Proof.
  intros Hm Hw.
  apply (preserves_fire (fun w => page_frame (page w) = X)); [exact Hm| |exact Hw].
  intros e [pg t] H. exact H.
Qed.

Lemma keeps_page_click_target t w :
  page_frame (page w) = X -> page_frame (page (click_target t w)) = X.
Proof.
  intros Hw. destruct t; unfold click_target; [| | |exact Hw]; apply keeps_page_fire;
    [apply keeps_page_onAutoRotateClick|exact Hw|apply keeps_page_onToggleOrbitsClick|exact Hw
     |apply keeps_page_onCloseInfoPanelClick|exact Hw].
Qed.

Lemma keeps_page_click t x y ray w :
  page_frame (page w) = X -> page_frame (page (dispatch (Click t x y ray) w)) = X.
Proof.
  intros Hw. unfold dispatch. apply keeps_page_fire; [apply keeps_page_handlePlanetClick|].
  apply keeps_page_click_target, Hw.
Qed.

Lemma keeps_page_speed v w :
  page_frame (page w) = X -> page_frame (page (dispatch (SpeedInput v) w)) = X.
Proof.
  intros Hw. unfold dispatch. apply keeps_page_fire; [apply keeps_page_onSpeedControlInput|].
  exact Hw.
Qed.
End ScriptKeeps.

Section ScriptTexts.
Import Three Script ScriptSpec ScriptView.
#[local] Open Scope js_scope.
#[local] Opaque initial_store scene0 meshes0 orbits0 load built.

Variable key : string.
Variable T : option Text.

Lemma keeps_text_set_textContent id t :
  id <> key -> preserves (fun w => text_of key w = T) (set_textContent id t).
Proof.
  intros Hne w Hw. rewrite set_textContent_eq.
  destruct (dom (page w) !! id) as [e|] eqn:He; [|exact Hw].
  unfold text_of in *. destruct w as [pg ts].
  cbn [on_page page dom set_dom] in *.
  rewrite dom_set_text_other by exact Hne. exact Hw.
Qed.

Lemma keeps_text_set_active what ref b :
  preserves (fun w => text_of key w = T) (set_active what ref b).
Proof.
  intros w Hw. rewrite set_active_eq. destruct ref as [id|]; [|exact Hw].
  unfold text_of in *. destruct w as [pg ts].
  cbn [on_page page dom set_dom] in *.
  rewrite dom_set_active_text. exact Hw.
Qed.

Lemma keeps_text_on_this (f : SolarSystem -> SolarSystem) :
  preserves (fun w => text_of key w = T) (modify (on_this f)).
Proof. apply preserves_modify. intros [pg t] H. exact H. Qed.

Lemma keeps_text_showPlanetInfo p :
  key <> "planetName" -> key <> "planetRadius" -> key <> "orbitalPeriod" ->
  key <> "sunDistance" ->
  preserves (fun w => text_of key w = T) (showPlanetInfo p).
Proof.
  intros N1 N2 N3 N4. unfold showPlanetInfo. preserve_steps;
    first [apply keeps_text_set_textContent; congruence|apply keeps_text_set_active].
Qed.

Lemma keeps_text_handlePlanetClick x y ray :
  key <> "planetName" -> key <> "planetRadius" -> key <> "orbitalPeriod" ->
  key <> "sunDistance" ->
  preserves (fun w => text_of key w = T) (handlePlanetClick x y ray).
Proof.
  intros N1 N2 N3 N4.
  unfold handlePlanetClick, window_innerWidth, window_innerHeight.
  preserve_steps; [apply keeps_text_on_this|apply keeps_text_showPlanetInfo; assumption].
Qed.
End ScriptTexts.

Section ScriptControls.
Import Three Script ScriptSpec ScriptView.
#[local] Open Scope js_scope.
#[local] Opaque initial_store scene0 meshes0 orbits0 load built.

Variable C : option OrbitControls.

Lemma keeps_controls_on_page (f : Page -> Page) :
  preserves (fun w => controls (this w) = C) (modify (on_page f)).
Proof. apply preserves_modify. intros [pg t] H. exact H. Qed.

Lemma keeps_controls_set_textContent id t :
  preserves (fun w => controls (this w) = C) (set_textContent id t).
Proof. unfold set_textContent. preserve_steps. apply keeps_controls_on_page. Qed.

Lemma keeps_controls_set_active what ref b :
  preserves (fun w => controls (this w) = C) (set_active what ref b).
Proof. unfold set_active. preserve_steps. apply keeps_controls_on_page. Qed.

Lemma keeps_controls_handlePlanetClick x y ray :
  preserves (fun w => controls (this w) = C) (handlePlanetClick x y ray).
Proof.
  unfold handlePlanetClick, showPlanetInfo, window_innerWidth, window_innerHeight.
  preserve_steps;
    first [apply keeps_controls_set_textContent|apply keeps_controls_set_active|idtac].
  apply preserves_modify. intros [pg t] H. exact H.
Qed.

Lemma keeps_controls_onCloseInfoPanelClick :
  preserves (fun w => controls (this w) = C) onCloseInfoPanelClick.
Proof. unfold onCloseInfoPanelClick. preserve_steps. apply keeps_controls_set_active. Qed.

Lemma keeps_controls_onSpeedControlInput v :
  preserves (fun w => controls (this w) = C) (onSpeedControlInput v).
Proof. apply preserves_modify. intros [pg t] H. exact H. Qed.

Lemma keeps_controls_handleResize :
  preserves (fun w => controls (this w) = C) handleResize.
Proof.
  unfold handleResize, window_innerWidth, window_innerHeight.
  preserve_steps; apply preserves_modify; intros [pg t] H; exact H.
Qed.
End ScriptControls.

(** ** The module variant: what changes in the store, and the controls *)

Section GuiKeeps.
Import Three Gui GuiSpec GuiView.

Lemma initial_built_from :
  built_from initial_store sun_data (body_fixed (sun initial)) /\
  Forall2 (built_from initial_store) planetData (map body_fixed (planets initial)).
Proof.
  split.
  - vm_compute. repeat split.
  - set (l := map body_fixed (planets initial)). vm_compute in l. subst l. unfold planetData.
    repeat (apply Forall2_cons; split; [vm_compute; repeat split|]).
    apply Forall2_nil. exact I.
Qed.

Lemma initial_scene :
  scene0 = [0; 1]%nat ++ flat_map (fun b => [orbit b; mesh b]) (sun initial :: planets initial).
Proof. vm_compute. reflexivity. Qed.

#[local] Opaque initial initial_store scene0 meshes0 orbits0.

Lemma body_meshes_eq w : structure_ok w -> body_meshes w = mesh (sun initial) :: meshes0.
Proof. intros S. unfold body_meshes. rewrite (planets_meshes w S), (ok_sun w S). reflexivity. Qed.

Lemma frame_store_other now w id :
  id ∉ body_meshes w -> get id (frame_store now w) = get id (store w).
Proof.
  intros Hid. unfold body_meshes in Hid. apply not_elem_of_cons in Hid as [Hs Hp].
  unfold frame_store. destruct (pause (params w)); [reflexivity|].
  rewrite get_update_ne by congruence. apply move_planets_other, Hp.
Qed.

Lemma dispatch_bodies e w :
  sun (dispatch e w) = sun w /\ map body_fixed (planets (dispatch e w)) = map body_fixed (planets w).
Proof.
  destruct e as [now ray|x y|t x y now ray|v|i v|W H]; unfold dispatch.
  - destruct (rafPending w); [|split; reflexivity].
    destruct (animate_scene now ray (set_rafPending false w)) as (_ & _ & -> & -> & _).
    split; reflexivity.
  - split; reflexivity.
  - destruct (onMouseClick_scene x y now ray (click_target t now w)) as (E & _).
    unfold scene_state in E. injection E as _ _ -> ->.
    destruct t; split; reflexivity.
  - split; reflexivity.
  - split; [reflexivity|]. unfold set_planetTimeScale. cbn [planets set_planets].
    generalize (planets w). clear. intros l. revert i.
    induction l as [|b l IH]; intros [|i]; cbn; try reflexivity.
    f_equal. apply IH.
  - split; reflexivity.
Qed.

(** Off the bodies' meshes only the visibility flag ever changes. *)
Lemma dispatch_off_mesh e w id :
  id ∉ body_meshes w ->
  but_visible <$> get id (store (dispatch e w)) = but_visible <$> get id (store w).
Proof.
  intros Hid. destruct e as [now ray|x y|t x y now ray|v|i v|W H]; unfold dispatch;
    try reflexivity.
  - destruct (rafPending w); [|reflexivity].
    destruct (animate_scene now ray (set_rafPending false w)) as (-> & _).
    rewrite frame_store_other; [reflexivity|exact Hid].
  - destruct (onMouseClick_scene x y now ray (click_target t now w)) as (E & _).
    unfold scene_state in E. injection E as -> _ _ _.
    destruct t; try reflexivity.
    unfold click_target, toggle_showOrbits. rewrite showOrbits_onChange_eq.
    apply but_visible_update_all.
Qed.

Lemma orbits_kept_dispatch e w : invariant w -> orbits_kept w -> orbits_kept (dispatch e w).
Proof.
  intros [S _ _ _] K id Hid. rewrite <- (K id Hid). apply dispatch_off_mesh.
  rewrite (body_meshes_eq w S). intros Hm. exact (gui_meshes0_orbits0 id Hm Hid).
Qed.

Lemma orbits_kept_reachable W H now ray es : orbits_kept (dispatch_all es (load W H now ray)).
Proof.
  assert (forall es w, invariant w -> orbits_kept w -> orbits_kept (dispatch_all es w)) as Hall.
  { clear es. intros es. induction es as [|e es IH]; intros w Iw K; [exact K|].
    apply IH; [apply gui_invariant_dispatch, Iw|apply orbits_kept_dispatch; assumption]. }
  apply Hall; [apply gui_invariant_load|].
  intros id Hid. unfold load.
  destruct (animate_scene now ray (build W H)) as (-> & _).
  rewrite frame_store_other, build_store; [reflexivity|].
  rewrite (body_meshes_eq _ (build_structure W H)).
  intros Hm. exact (gui_meshes0_orbits0 id Hm Hid).
Qed.

(** *** The controls *)

Lemma filter_none_finished (f : Tween -> bool) l :
  List.filter f l = [] -> List.filter (fun t => negb (f t)) l = l.
Proof.
  induction l as [|t l IH]; [reflexivity|]. cbn [List.filter].
  destruct (f t); [discriminate|]. intros H. cbn [negb]. f_equal. apply IH, H.
Qed.

Lemma filter_all_finished (f : Tween -> bool) l :
  Forall (fun t => f t = true) l ->
  List.filter f l = l /\ List.filter (fun t => negb (f t)) l = [].
Proof.
  induction 1 as [|t l Ht _ [IH1 IH2]]; [split; reflexivity|].
  cbn [List.filter]. rewrite Ht. cbn [negb]. rewrite IH1, IH2. split; reflexivity.
Qed.

Lemma TWEEN_update_controls now w :
  (List.filter (tween_finished now) (tweens w) = [] ->
   controls (TWEEN_update now w) = controls w) /\
  (List.filter (tween_finished now) (tweens w) <> [] ->
   enabled (controls (TWEEN_update now w)) = true).
Proof.
  unfold TWEEN_update. split.
  - intros ->. reflexivity.
  - intros Hne. apply foldl_onComplete_enabled, Hne.
Qed.

Lemma animate_controls now ray w :
  controls (animate now ray w) = controls (TWEEN_update now w).
Proof.
  destruct (animate_split now w) as (w2 & Ea & _ & _ & _ & _ & _ & Ec & _).
  rewrite Ea. unfold log_call. cbn [controls set_calls].
  destruct (hover_scene ray w2) as (_ & _ & _ & _ & _ & _ & _ & -> & _). exact Ec.
Qed.

Lemma released_animate now ray w :
  controls_released w -> controls_released (animate now ray w).
Proof.
  intros Hw He. rewrite animate_controls in He.
  destruct (animate_scene now ray w) as (_ & _ & _ & _ & _ & _ & _ & _ & _ & _ & _ & Et).
  rewrite Et. destruct (TWEEN_update_controls now w) as (H1 & H2).
  destruct (List.filter (tween_finished now) (tweens w)) as [|t l] eqn:Ef.
  - rewrite (filter_none_finished _ _ Ef). apply Hw. rewrite <- (H1 eq_refl). exact He.
  - rewrite H2 in He by discriminate. discriminate He.
Qed.

Lemma released_onMouseClick x y now ray w :
  controls_released w -> controls_released (onMouseClick x y now ray w).
Proof.
  intros Hw. rewrite onMouseClick_eq. destruct (pick ray w) as [|first rest].
  - exact Hw.
  - intros _. unfold focused. cbv zeta.
    cbn [tweens set_infoPanel log_call set_calls set_controls set_tweens set_mouse].
    intros E. apply app_eq_nil in E as [_ E]. discriminate E.
Qed.

Lemma released_dispatch e w : controls_released w -> controls_released (dispatch e w).
Proof.
  intros Hw. destruct e as [now ray|x y|t x y now ray|v|i v|W H]; unfold dispatch;
    try exact Hw.
  - destruct (rafPending w); [|exact Hw]. apply released_animate. exact Hw.
  - apply released_onMouseClick. destruct t; try exact Hw.
    intros _. unfold click_target, resetCamera. cbv zeta.
    cbn [tweens set_infoPanel set_tweens].
    intros E. apply app_eq_nil in E as [_ E]. discriminate E.
Qed.

Lemma released_reachable W H now ray es :
  controls_released (dispatch_all es (load W H now ray)).
Proof.
  assert (forall es w, controls_released w -> controls_released (dispatch_all es w)) as Hall.
  { clear es. intros es. induction es as [|e es IH]; intros w K; [exact K|].
    apply IH, released_dispatch, K. }
  apply Hall. unfold load. apply released_animate.
  intros He. destruct (build_rest W H) as (_ & _ & _ & Ec & _). rewrite Ec in He.
  discriminate He.
Qed.
End GuiKeeps.

(** ** [script.js]: the scene as built *)

Section ScriptBuilt.
Import Three Script ScriptSpec ScriptView.
#[local] Open Scope js_scope.

Lemma meshes0_as_built : Forall2 (planet_as_built initial_store) meshes0 planets_config.
Proof.
  set (l := meshes0). vm_compute in l. subst l. unfold planets_config.
  repeat (apply Forall2_cons; split; [vm_compute; reflexivity|]).
  apply Forall2_nil. exact I.
Qed.

Lemma sun0_as_built :
  shape <$> get sun0 initial_store
  = Some (Mesh, SphereGeometry 3 32 32, 0xFFD700%Z, "",
          [mkLeaf 20%nat PointLight NoGeometry 0xFFFFFF "" zero3 zero3]).
Proof. vm_compute. reflexivity. Qed.

Lemma starField_as_built :
  head scene0 = Some 0%nat /\
  shape <$> get 0%nat initial_store
  = Some (Points, BufferGeometry 10000, 0xFFFFFF%Z, "", []).
Proof. split; vm_compute; reflexivity. Qed.

#[local] Opaque initial_store scene0 meshes0 orbits0 load built.





Lemma planet_lookup t p :
  structure_ok t -> p ∈ planets t ->
  exists i, meshes0 !! i = Some (mesh p) /\ planets_config !! i = Some (config p).
Proof.
  intros S Hp. apply list_elem_of_lookup_1 in Hp as [i Hi]. exists i.
  rewrite <- (ok_meshes _ S), <- (ok_configs _ S), !list_lookup_fmap, Hi. split; reflexivity.
Qed.

(** X2.  In every state the page reaches, each planet's mesh is the
    sphere of its row of the table, with the row's size and colour,
    and has no child, except Saturn's, whose one child is the ring
    mesh with radii 1.2 and 2.2 times Saturn's size, tilted by 0.4π.
    The sun is a sphere of radius 3 whose one child is the point
    light, and the first child of the scene is the star field of
    10000 points. *)
Theorem X2_meshes_are_as_built :
  forall h es,
    let w := dispatch_all es (load h) in
    (forall p, p ∈ planets (this w) ->
               planet_as_built (store (this w)) (mesh p) (config p)) /\
    sun (this w) = Some sun0 /\
    (exists id,
        shape <$> get sun0 (store (this w))
        = Some (Mesh, SphereGeometry 3 32 32, 0xFFD700%Z, "",
                [mkLeaf id PointLight NoGeometry 0xFFFFFF "" zero3 zero3])) /\
    head (scene (this w)) = Some 0%nat /\
    shape <$> get 0%nat (store (this w))
    = Some (Points, BufferGeometry 10000, 0xFFFFFF%Z, "", []).
Proof.
  intros h es w. destruct (invariant_reachable h es) as [S _ _ _]. fold w in S.
  clearbody w. split; [|split; [|split; [|split]]].
  - intros p Hp. destruct (planet_lookup _ p S Hp) as (i & Hm & Hc).
    pose proof (Forall2_lookup_lr _ _ _ _ _ _ meshes0_as_built Hm Hc) as H.
    unfold planet_as_built in *. rewrite (ok_shapes _ S). exact H.
  - apply (ok_sun _ S).
  - exists 20%nat. rewrite (ok_shapes _ S). apply sun0_as_built.
  - rewrite (ok_scene _ S). apply starField_as_built.
  - rewrite (ok_shapes _ S). apply starField_as_built.
Qed.
End ScriptBuilt.

(** ** [script.js]: frames *)

Section ScriptFrames.
Import Three Script ScriptSpec ScriptView.
#[local] Open Scope js_scope.
#[local] Opaque initial_store scene0 meshes0 orbits0 load built.

Lemma frames_at_speed n w :
  rafPending (page w) = true ->
  planets (this (frames n w))
  = map (fun p => set_angle
                    (angle p + INR n * (speed_factor (simulationSpeed (this w)) * orbitSpeed p))
                    p)
        (planets (this w)) /\
  rafPending (page (frames n w)) = true /\
  simulationSpeed (this (frames n w)) = simulationSpeed (this w).
Proof.
  intros Hr. induction n as [|n (IHp & IHr & IHs)].
  - split; [|split; [exact Hr|reflexivity]].
    change (frames 0 w) with w. rewrite <- (map_id (planets (this w))) at 1.
    apply map_ext. intros [c m o a]. unfold set_angle. cbn. f_equal. lra.
  - rewrite frames_S. destruct (frame_this (frames n w) IHr) as (Et & Er).
    split; [|split; [exact Er|]].
    + rewrite Et, planets_animate_this, IHp, IHs, map_map.
      apply map_ext. intros p. unfold set_angle, next_angle, orbitSpeed.
      cbn [config mesh orbit angle]. f_equal. rewrite S_INR. lra.
    + rewrite Et. unfold animate_this. cbn [simulationSpeed set_store set_planets].
      exact IHs.
Qed.

(** X3.  Once the slider has been moved to [v], every frame adds [v]
    times 0.005 * (10 / distance) to each planet's stored angle: the
    slider's value is the factor of the per-frame increment, and [n]
    frames add [n] such increments. *)
Theorem X3_slider_scales_the_increment :
  forall h es v n,
    let w0 := dispatch_all es (load h) in
    let w := dispatch (SpeedInput v) w0 in
    registered SpeedControlInput w0 = true ->
    rafPending (page w0) = true ->
    simulationSpeed (this w) = Some v /\
    planets (this (frames n w))
    = map (fun p => set_angle (angle p + INR n * (v * (0.005 * (10 / distance (config p))))) p)
          (planets (this w0)).
Proof.
  intros h es v n w0 w Hreg Hr.
  assert (w = on_this (set_simulationSpeed (Some v)) w0) as Ew.
  { subst w. unfold dispatch, fire. rewrite Hreg. reflexivity. }
  clearbody w w0. subst w. split; [destruct w0 as [pg t]; reflexivity|].
  destruct (frames_at_speed n (on_this (set_simulationSpeed (Some v)) w0)) as (E & _).
  - destruct w0 as [pg t]. exact Hr.
  - rewrite E. destruct w0 as [pg t]. reflexivity.
Qed.

Lemma X3_slider_scales_the_increment_witness :
  planets
    (this (frames 3 (dispatch (SpeedInput 4) (dispatch_all [] (load Stated.demo_host)))))
  = map (fun p => set_angle (angle p + INR 3 * (4 * (0.005 * (10 / distance (config p))))) p)
        (planets (this (dispatch_all [] (load Stated.demo_host)))).
Proof.
  refine (proj2 (X3_slider_scales_the_increment Stated.demo_host [] 4 3%nat _ _));
    vm_compute; reflexivity.
Defined.

Lemma planet_meshes_NoDup t : structure_ok t -> NoDup (map mesh (planets t)).
Proof. intros S. rewrite (ok_meshes _ S). apply meshes0_NoDup. Qed.

(** X4.  A frame changes the planets' meshes and nothing else in the
    scene graph: the sun, the orbit paths, the star field and the
    light are left as they are.  Of a planet's mesh it sets the x and
    z coordinates to the point of the orbit circle at the advanced
    angle and adds 0.02 to the rotation about y; the height, the other
    rotations, the visibility flag and the shape stay. *)
Theorem X4_frame_moves_only_planets :
  forall h es,
    let w := dispatch_all es (load h) in
    let w' := dispatch AnimationFrame w in
    rafPending (page w) = true ->
    (forall id, id ∉ map mesh (planets (this w)) ->
                get id (store (this w')) = get id (store (this w))) /\
    (forall p, p ∈ planets (this w) ->
               exists o o',
                 get (mesh p) (store (this w)) = Some o /\
                 get (mesh p) (store (this w')) = Some o' /\
                 vy (rotation o') = vy (rotation o) + 0.02 /\
                 off_orbit o' = off_orbit o /\ shape o' = shape o /\
                 visible o' = visible o /\
                 let a := angle p + 0.005 * (10 / distance (config p))
                                    * speed_factor (simulationSpeed (this w)) in
                 vx (position o') = cos a * distance (config p) /\
                 vz (position o') = sin a * distance (config p)).
Proof.
  intros h es w w' Hr.
  destruct (invariant_reachable h es) as [S _ _ _]. fold w in S.
  destruct (frame_this w Hr) as (Et & _). fold w' in Et.
  clearbody w' w. rewrite Et, store_animate_this. split.
  - intros id Hid. apply moved_fold_get_other, Hid.
  - intros p Hp. destruct (planet_mesh_stored _ p S Hp) as [o Ho].
    exists o, (moved (speed_factor (simulationSpeed (this w))) p o).
    split; [exact Ho|]. split.
    { rewrite moved_fold_get; [rewrite Ho; reflexivity|apply planet_meshes_NoDup, S|exact Hp]. }
    destruct o. repeat split.
Qed.

Lemma X4_frame_moves_only_planets_witness :
  get sun0 (store (this (dispatch AnimationFrame (dispatch_all [] (load Stated.demo_host)))))
  = get sun0 (store (this (dispatch_all [] (load Stated.demo_host)))).
Proof.
  refine (proj1 (X4_frame_moves_only_planets Stated.demo_host [] _) sun0 _).
  - vm_compute. reflexivity.
  - apply (bool_decide_unpack _). vm_compute. reflexivity.
Defined.

Lemma rafPending_dispatch e w :
  structure_ok (this w) ->
  rafPending (page (dispatch e w)) = rafPending (page w) /\
  (rafPending (page w) = false -> calls (page (dispatch e w)) = calls (page w)).
Proof.
  intros S. destruct e as [|t x y ray|v|W H].
  - unfold dispatch. destruct (rafPending (page w)) eqn:Hr; [|split; [exact Hr|reflexivity]].
    destruct (run_animate (on_page (set_rafPending false) w)) as (cs & us & ->).
    split; [reflexivity|discriminate].
  - pose proof (keeps_page_click _ t x y ray w eq_refl) as E.
    unfold page_frame in E. injection E as _ _ _ _ _ _ _ E1 E2. auto.
  - pose proof (keeps_page_speed _ v w eq_refl) as E.
    unfold page_frame in E. injection E as _ _ _ _ _ _ _ E1 E2. auto.
  - unfold dispatch.
    pose proof (keeps_page_fire _ WindowResize handleResize
                  (on_page (fun p => set_innerHeight H (set_innerWidth W p)) w)
                  (keeps_page_handleResize _) eq_refl) as E.
    unfold page_frame in E. injection E as _ _ _ _ _ _ _ E1 E2.
    destruct w as [pg t]. auto.
Qed.

(** X5.  The render loop of [script.js] never stops by itself: if the
    constructor got as far as its first frame, then in every state
    the page reaches the next frame is requested, and each frame
    makes exactly one [controls.update()] and one render, with the
    camera's projection and the renderer's size of that moment. *)
Theorem X5_render_loop_runs_on :
  forall h es,
    let w := dispatch_all es (load h) in
    rafPending (page (load h)) = true ->
    rafPending (page w) = true /\
    rafPending (page (dispatch AnimationFrame w)) = true /\
    exists c r,
      camera (this w) = Some c /\ renderer (this w) = Some r /\
      calls (page (dispatch AnimationFrame w))
      = calls (page w) ++ [ControlsUpdate; Render (projectionAspect c) (width r) (height r)].
Proof.
  intros h es w H0.
  assert (rafPending (page w) = true) as Hr.
  { subst w. revert H0. generalize (invariant_load h). generalize (load h).
    induction es as [|e es IH]; intros w0 I0 H0; [exact H0|].
    cbn [dispatch_all foldl]. apply IH; [apply invariant_dispatch, I0|].
    destruct (rafPending_dispatch e w0 (inv_structure _ _ I0)) as (E & _).
    rewrite E. exact H0. }
  destruct (invariant_reachable h es) as [S _ _ _]. fold w in S. clearbody w.
  split; [exact Hr|]. split; [apply (frame_this w Hr)|].
  destruct (ok_camera _ S) as [c Hc]. destruct (ok_renderer _ S) as [r Hre].
  exists c, r. split; [exact Hc|]. split; [exact Hre|].
  unfold dispatch. rewrite Hr. unfold run. rewrite animate_done.
  - unfold animate_world. destruct w as [pg t]. cbn [this] in Hc, Hre.
    cbn [page this on_page calls set_calls set_rafPending]. rewrite Hc, Hre. reflexivity.
  - destruct w as [pg t]. apply (ok_controls _ S).
  - destruct w as [pg t]. apply (ok_renderer _ S).
  - destruct w as [pg t]. apply (ok_camera _ S).
Qed.

Lemma X5_render_loop_runs_on_witness :
  rafPending
    (page (dispatch_all [Click Elsewhere 0 0 Stated.no_ray; AnimationFrame]
             (load Stated.demo_host)))
  = true.
Proof.
  refine (proj1 (X5_render_loop_runs_on Stated.demo_host
                   [Click Elsewhere 0 0 Stated.no_ray; AnimationFrame] _)).
  vm_compute. reflexivity.
Defined.

Lemma started_calls w w' :
  calls (page w) = [] -> started w w' -> rafPending (page w') = false ->
  calls (page w') = [].
Proof.
  intros Hc St Hr. destruct St.
  - destruct (wired_fields w) as (_ & _ & _ & E). rewrite E in Hr. discriminate Hr.
  - destruct (guarded_fields w) as (_ & _ & _ & _ & _ & E & _). rewrite E in Hr.
    discriminate Hr.
  - destruct w as [pg t]. exact Hc.
  - destruct w as [pg t]. exact Hc.
  - destruct w as [pg t]. exact Hc.
Qed.

(** X6.  If the constructor ends before its first frame (an uncaught
    [TypeError] in [setupUI]), nothing is ever drawn: in every state
    such a page reaches no frame is pending, no call to the renderer
    or the controls has been made, and an animation frame changes
    nothing. *)
Theorem X6_no_frame_without_first_frame :
  forall h es,
    let w := dispatch_all es (load h) in
    rafPending (page (load h)) = false ->
    rafPending (page w) = false /\ calls (page w) = [] /\ dispatch AnimationFrame w = w.
Proof.
  intros h es w H0.
  assert (calls (page (load h)) = []) as C0.
  { apply (started_calls (built h)); [rewrite built_page; reflexivity|apply load_started|].
    exact H0. }
  assert (rafPending (page w) = false /\ calls (page w) = []) as [Hr Hc].
  { subst w. revert H0 C0. generalize (invariant_load h). generalize (load h).
    induction es as [|e es IH]; intros w0 I0 H0 C0; [split; assumption|].
    cbn [dispatch_all foldl].
    destruct (rafPending_dispatch e w0 (inv_structure _ _ I0)) as (E & Ec).
    apply IH; [apply invariant_dispatch, I0|rewrite E; exact H0|].
    rewrite (Ec H0). exact C0. }
  split; [exact Hr|]. split; [exact Hc|].
  unfold dispatch. rewrite Hr. reflexivity.
Qed.

Lemma X6_no_frame_without_first_frame_witness :
  calls
    (page
       (dispatch_all [AnimationFrame; Resize 1024 600; AnimationFrame]
          (load (mkHost 800 600 1 (fun _ => 0) (delete "autoRotate" page_dom)))))
  = [].
Proof.
  refine (proj1 (proj2 (X6_no_frame_without_first_frame
                          (mkHost 800 600 1 (fun _ => 0) (delete "autoRotate" page_dom))
                          [AnimationFrame; Resize 1024 600; AnimationFrame] _))).
  vm_compute. reflexivity.
Defined.
End ScriptFrames.

(** ** [script.js]: the buttons and the panel *)

Section ScriptButtons.
Import Three Script ScriptSpec ScriptView.
#[local] Open Scope js_scope.
#[local] Opaque initial_store scene0 meshes0 orbits0 load built.

Lemma run_onAutoRotateClick w c :
  controls (this w) = Some c -> is_Some (dom (page w) !! "autoRotate") ->
  run onAutoRotateClick w
  = on_page (set_dom (dom_set_text "autoRotate" (autoRotate_label (negb (autoRotate c)))
                                   (dom (page w))))
            (on_this (set_controls (Some (toggled c))) w).
Proof.
  intros Hc Hd. unfold run, onAutoRotateClick, bind, gets. rewrite Hc.
  cbn [deref ret]. unfold modify. cbv beta iota zeta.
  rewrite set_textContent_done by (destruct w as [pg t]; exact Hd).
  destruct w as [pg t]. reflexivity.
Qed.

Lemma controls_onAutoRotateClick w c :
  controls (this w) = Some c ->
  controls (this (run onAutoRotateClick w)) = Some (toggled c).
Proof.
  intros Hc. unfold run, onAutoRotateClick, bind, gets. rewrite Hc.
  cbn [deref ret]. unfold modify. cbv beta iota zeta. rewrite set_textContent_eq.
  destruct w as [pg t]. cbn [on_this page this dom].
  destruct (dom pg !! "autoRotate"); reflexivity.
Qed.

Lemma toggled_twice c : toggled (toggled c) = c.
Proof. destruct c. unfold toggled. cbn. rewrite negb_involutive. reflexivity. Qed.

Lemma complete_autoRotate d : complete_page d -> is_Some (d !! "autoRotate").
Proof. intros C. unfold complete_page in C. apply Forall_cons in C as [H _]. exact H. Qed.

Lemma auto_rotate_click h w x y ray :
  complete_page (host_dom h) -> invariant h w ->
  let w' := dispatch (Click AutoRotateButton x y ray) w in
  exists c,
    controls (this w) = Some c /\ controls (this w') = Some (toggled c) /\
    text_of "autoRotate" w' = Some (autoRotate_label (negb (autoRotate c))) /\
    scene_state (this w') = scene_state (this w).
Proof.
  intros C Iw w'. pose proof (wired_invariant h w C Iw) as W.
  destruct (ok_controls _ (inv_structure _ _ Iw)) as [c Hc]. exists c.
  split; [exact Hc|].
  assert (click_target AutoRotateButton w
          = on_page (set_dom (dom_set_text "autoRotate"
                                (autoRotate_label (negb (autoRotate c))) (dom (page w))))
                    (on_this (set_controls (Some (toggled c))) w)) as E1.
  { unfold click_target, fire. rewrite (wired_registered _ _ W).
    apply run_onAutoRotateClick; [exact Hc|apply complete_autoRotate, (wo_dom _ W)]. }
  subst w'. unfold dispatch. rewrite E1. split; [|split].
  - apply (preserves_fire (fun w0 => controls (this w0) = Some (toggled c)));
      [apply keeps_controls_handlePlanetClick|intros e0 [pg0 ts0] H0; exact H0|].
    destruct w as [pg t]. reflexivity.
  - apply (preserves_fire
             (fun w0 => text_of "autoRotate" w0
                        = Some (autoRotate_label (negb (autoRotate c)))));
      [apply keeps_text_handlePlanetClick; discriminate|intros e0 [pg0 ts0] H0; exact H0|].
    unfold text_of. destruct w as [pg t]. cbn [on_page on_this page dom set_dom].
    apply dom_set_text_lookup, complete_autoRotate, (wo_dom _ W).
  - apply keeps_scene_fire; [apply keeps_scene_handlePlanetClick|].
    destruct w as [pg t]. reflexivity.
Qed.

(** X7.  On a page with all its elements, a click on the auto-rotate
    button negates [controls.autoRotate] and leaves the other
    settings of the controls; the button then reads the running
    label exactly when auto-rotation is on; the scene graph is not
    touched, whatever the click's ray meets on its way to the window;
    a second click restores the controls. *)
Theorem X7_auto_rotate_button :
  forall h es x y ray,
    complete_page (host_dom h) ->
    let w := dispatch_all es (load h) in
    let w' := dispatch (Click AutoRotateButton x y ray) w in
    exists c,
      controls (this w) = Some c /\ controls (this w') = Some (toggled c) /\
      text_of "autoRotate" w' = Some (autoRotate_label (negb (autoRotate c))) /\
      scene_state (this w') = scene_state (this w) /\
      (forall x2 y2 ray2,
          controls (this (dispatch (Click AutoRotateButton x2 y2 ray2) w')) = Some c).
Proof.
  intros h es x y ray C w w'.
  pose proof (invariant_reachable h es) as Iw. fold w in Iw.
  destruct (auto_rotate_click h w x y ray C Iw) as (c & H1 & H2 & H3 & H4).
  fold w' in H2, H3, H4. exists c. repeat (split; [assumption|]).
  intros x2 y2 ray2.
  destruct (auto_rotate_click h w' x2 y2 ray2 C (invariant_dispatch h _ w Iw))
    as (c' & G1 & G2 & _).
  rewrite G2. rewrite H2 in G1. injection G1 as <-. rewrite toggled_twice. reflexivity.
Qed.

Lemma X7_auto_rotate_button_witness :
  exists c,
    controls (this (dispatch_all [] (load Stated.demo_host))) = Some c /\
    controls
      (this (dispatch (Click AutoRotateButton 10 10 Stated.no_ray)
               (dispatch_all [] (load Stated.demo_host))))
    = Some (toggled c).
Proof.
  assert (complete_page (host_dom Stated.demo_host)) as C
      by (apply (bool_decide_unpack _); vm_compute; reflexivity).
  destruct (X7_auto_rotate_button Stated.demo_host [] 10 10 Stated.no_ray C)
    as (c & H1 & H2 & _).
  exists c. split; [exact H1|exact H2].
Defined.

Lemma started_controls w w' : started w w' -> controls (this w') = controls (this w).
Proof. intros St. destruct St; destruct w as [pg t]; reflexivity. Qed.

Lemma controls_as_set_toggled t c :
  controls t = Some c -> controls_as_set t ->
  exists b, Some (toggled c) = Some (mkOrbitControls true 0.05 20 200 b 0.5).
Proof.
  intros Hc [b Hb]. rewrite Hb in Hc. injection Hc as <-. exists (negb b). reflexivity.
Qed.

Lemma controls_as_set_dispatch e w : controls_as_set (this w) -> controls_as_set (this (dispatch e w)).
Proof.
  intros Hw. destruct e as [|t x y ray|v|W H]; unfold dispatch.
  - destruct (rafPending (page w)); [|exact Hw].
    destruct (run_animate (on_page (set_rafPending false) w)) as (cs & us & ->).
    cbn [this]. unfold controls_as_set.
    destruct (animate_this_fields (this (on_page (set_rafPending false) w))) as (-> & _).
    destruct w as [pg t]. exact Hw.
  - assert (controls_as_set (this (click_target t w))) as H1.
    { destruct t; unfold click_target; [| | |exact Hw].
      - unfold fire. destruct (registered _ _); [|exact Hw].
        destruct Hw as [b Hb]. unfold controls_as_set.
        rewrite (controls_onAutoRotateClick w _ Hb). exists (negb b). reflexivity.
      - unfold fire. destruct (registered _ _); [|exact Hw].
        rewrite run_onToggleOrbitsClick. destruct w as [pg t]. exact Hw.
      - destruct Hw as [b Hb]. exists b.
        apply (preserves_fire (fun w0 => controls (this w0) = Some _));
          [apply keeps_controls_onCloseInfoPanelClick|intros e0 [pg0 ts0] H0; exact H0|exact Hb]. }
    destruct H1 as [b Hb]. exists b.
    apply (preserves_fire (fun w0 => controls (this w0) = Some _));
      [apply keeps_controls_handlePlanetClick|intros e0 [pg0 ts0] H0; exact H0|exact Hb].
  - destruct Hw as [b Hb]. exists b.
    apply (preserves_fire (fun w0 => controls (this w0) = Some _));
      [apply keeps_controls_onSpeedControlInput|intros e0 [pg0 ts0] H0; exact H0|exact Hb].
  - destruct Hw as [b Hb]. exists b.
    apply (preserves_fire (fun w0 => controls (this w0) = Some _));
      [apply keeps_controls_handleResize|intros e0 [pg0 ts0] H0; exact H0|].
    destruct w as [pg t]. exact Hb.
Qed.

(** X8.  The constructor leaves the controls as [setupControls] sets
    them: damping on with factor 0.05, zoom between 20 and 200,
    auto-rotation on at speed 0.5.  In every state the page reaches
    they are still so, but for the auto-rotation flag, which is all
    the page ever changes of them. *)
Theorem X8_controls_settings :
  forall h es,
    controls (this (load h)) = Some (mkOrbitControls true 0.05 20 200 true 0.5) /\
    controls_as_set (this (dispatch_all es (load h))).
Proof.
  intros h es.
  assert (controls (this (load h)) = Some (mkOrbitControls true 0.05 20 200 true 0.5)) as H0.
  { rewrite (started_controls (built h) (load h) (load_started h)). apply built_controls. }
  split; [exact H0|].
  assert (controls_as_set (this (load h))) as C0 by (exists true; exact H0).
  revert C0. generalize (load h). clear H0.
  induction es as [|e es IH]; intros w0 C0; [exact C0|].
  cbn [dispatch_all foldl]. apply IH, controls_as_set_dispatch, C0.
Qed.
End ScriptButtons.

(** ** [script.js]: the panel, the mouse and the window *)

Section ScriptPanel.
Import Three Script ScriptSpec ScriptView.
#[local] Open Scope js_scope.
#[local] Opaque initial_store scene0 meshes0 orbits0 load built.

Lemma run_onCloseInfoPanelClick w :
  infoPanel (this w) = Some "infoPanel" ->
  run onCloseInfoPanelClick w
  = on_page (set_dom (dom_set_active "infoPanel" false (dom (page w)))) w.
Proof.
  intros Hip. unfold run, onCloseInfoPanelClick, bind, gets. rewrite Hip, set_active_eq.
  reflexivity.
Qed.

Lemma complete_infoPanel d : complete_page d -> is_Some (d !! "infoPanel").
Proof.
  intros C. unfold complete_page in C. do 3 (apply Forall_cons in C as [_ C]).
  apply Forall_cons in C as [H _]. exact H.
Qed.

(** X9.  On a page with all its elements, a click on the panel's
    close button whose ray meets no planet removes [active] from the
    panel and changes no text and nothing of the scene graph.  The
    click goes on to the window: if its ray meets a planet, the panel
    is opened again for that planet. *)
Theorem X9_close_button :
  forall h es x y ray,
    complete_page (host_dom h) ->
    let w := dispatch_all es (load h) in
    let w' := dispatch (Click CloseInfoPanelButton x y ray) w in
    ((forall p, p ∈ planets (this w) -> ray (mesh p) = []) ->
     active <$> (dom (page w') !! "infoPanel") = Some false /\
     (forall id, text_of id w' = text_of id w) /\
     scene_state (this w') = scene_state (this w)) /\
    (forall p d, p ∈ planets (this w) -> d ∈ ray (mesh p) ->
                 active <$> (dom (page w') !! "infoPanel") = Some true).
Proof.
  intros h es x y ray C w w'.
  pose proof (invariant_reachable h es) as Iw. fold w in Iw.
  pose proof (wired_invariant h w C Iw) as W.
  pose proof (inv_structure _ _ Iw) as S.
  set (w1 := on_page (set_dom (dom_set_active "infoPanel" false (dom (page w)))) w).
  assert (click_target CloseInfoPanelButton w = w1) as E1.
  { unfold click_target, fire. rewrite (wired_registered _ _ W).
    apply run_onCloseInfoPanelClick, (wo_infoPanel _ W). }
  assert (invariant h w1) as I1
      by (rewrite <- E1; apply invariant_click_target, Iw).
  pose proof (wired_invariant h w1 C I1) as W1.
  assert (picked ray w1 = picked ray w) as Ep by (destruct w as [pg t]; reflexivity).
  assert (w' = fire WindowClick (handlePlanetClick x y ray) w1) as Ew
      by (subst w'; unfold dispatch; rewrite E1; reflexivity).
  clearbody w'. split.
  - intros Hmiss.
    assert (picked ray w1 = []) as Hn by (rewrite Ep; apply (picked_nil ray w S), Hmiss).
    rewrite Ew, (click_miss x y ray w1 W1 Hn).
    subst w1. destruct w as [pg t]. unfold text_of.
    cbn [click_mouse on_page on_this page this dom set_dom scene_state store scene sun
         planets set_mouse].
    split; [apply dom_set_active_lookup, complete_infoPanel, (wo_dom _ W)|].
    split; [intros id; apply dom_set_active_text|reflexivity].
  - intros p d Hp Hd.
    destruct (picked ray w) as [|first rest] eqn:Hpk.
    + rewrite (proj1 (picked_nil ray w S) Hpk p Hp) in Hd. inversion Hd.
    + destruct (click_hit x y ray w1 first rest W1 (inv_structure _ _ I1) Ep)
        as (q & _ & _ & _ & _ & E).
      rewrite Ew, E.
      destruct (dom_show_lookup q (dom (page w1)) (wo_dom _ W1)) as (_ & _ & _ & _ & H5).
      destruct w1 as [pg1 t1]. exact H5.
Qed.

Lemma X9_close_button_witness :
  active <$>
    (dom (page (dispatch (Click CloseInfoPanelButton 700 20 Stated.no_ray)
                  (dispatch_all [Click Elsewhere 400 300 Stated.earth_ray]
                     (load Stated.demo_host))))
     !! "infoPanel")
  = Some false.
Proof.
  assert (complete_page (host_dom Stated.demo_host)) as C
      by (apply (bool_decide_unpack _); vm_compute; reflexivity).
  refine (proj1 (proj1 (X9_close_button Stated.demo_host
                          [Click Elsewhere 400 300 Stated.earth_ray] 700 20 Stated.no_ray C)
                   _)).
  intros p Hp. reflexivity.
Defined.

Lemma showPlanetInfo_named p w :
  showPlanetInfo (Some p) w
  = bind (set_textContent "planetName" (PlanetName (name (config p))))
         (fun _ =>
            set_textContent "planetRadius" (Kilometres (size (config p) * 12742)) ;;;
            set_textContent "orbitalPeriod"
              (EarthDays (Math_round (distance (config p) * 10))) ;;;
            set_textContent "sunDistance" (MillionKm (distance (config p) * 149.6)) ;;;
            ip <- gets (fun w => infoPanel (this w)) ;;
            set_active "infoPanel" ip true) w.
Proof. reflexivity. Qed.

(** X10.  [showPlanetInfo] writes its fields in order and stops at
    the first element that is missing: called without a planet it
    throws before it writes anything; without [#planetName] likewise;
    with [#planetName] but without [#planetRadius] it has written the
    name when it throws, and the panel is not opened.  On a page with
    all its elements it writes the name, the size times 12742 km, the
    distance times 10 rounded as the period in days, the distance
    times 149.6 million km, and opens the panel. *)
Theorem X10_showPlanetInfo_steps :
  forall p w,
    showPlanetInfo None w = Thrown (TypeError "planet") w /\
    (dom (page w) !! "planetName" = None ->
     showPlanetInfo (Some p) w = Thrown (TypeError "planetName") w) /\
    (is_Some (dom (page w) !! "planetName") -> dom (page w) !! "planetRadius" = None ->
     showPlanetInfo (Some p) w
     = Thrown (TypeError "planetRadius")
              (on_page (set_dom (dom_set_text "planetName" (PlanetName (name (config p)))
                                              (dom (page w)))) w)) /\
    (complete_page (dom (page w)) -> infoPanel (this w) = Some "infoPanel" ->
     exists w',
       showPlanetInfo (Some p) w = Done tt w' /\
       this w' = this w /\
       text_of "planetName" w' = Some (PlanetName (name (config p))) /\
       text_of "planetRadius" w' = Some (Kilometres (size (config p) * 12742)) /\
       text_of "orbitalPeriod" w' = Some (EarthDays (Math_round (distance (config p) * 10))) /\
       text_of "sunDistance" w' = Some (MillionKm (distance (config p) * 149.6)) /\
       active <$> (dom (page w') !! "infoPanel") = Some true).
Proof.
  intros p w. split; [reflexivity|]. split; [|split].
  - intros Hn. rewrite showPlanetInfo_named. unfold bind at 1.
    rewrite set_textContent_eq, Hn. reflexivity.
  - intros H1 H2. rewrite showPlanetInfo_named. unfold bind at 1.
    rewrite (set_textContent_done _ _ w H1). unfold bind at 1.
    rewrite set_textContent_eq.
    assert (dom (page (on_page (set_dom (dom_set_text "planetName"
                                           (PlanetName (name (config p))) (dom (page w)))) w))
                !! "planetRadius" = None) as ->; [|reflexivity].
    destruct w as [pg t]. cbn [on_page page dom set_dom].
    rewrite dom_set_text_other by discriminate. exact H2.
  - intros C Hip. exists (on_page (set_dom (dom_show p (dom (page w)))) w).
    split.
    + apply showPlanetInfo_done; [exact Hip|].
      unfold complete_page in C. do 5 (apply Forall_cons in C as [_ C]). exact C.
    + destruct (dom_show_lookup p (dom (page w)) C) as (H1 & H2 & H3 & H4 & H5).
      unfold text_of. destruct w as [pg t]. cbn [on_page page this dom set_dom].
      repeat split; assumption.
Qed.

Lemma X10_showPlanetInfo_steps_witness :
  showPlanetInfo
    (Some (mkPlanet (mkConfig "Earth" 0x4169E1 1 20) 6%nat 7%nat 0))
    (blank (mkHost 800 600 1 (fun _ => 0) (delete "planetRadius" page_dom)))
  = Thrown (TypeError "planetRadius")
      (on_page
         (set_dom
            (dom_set_text "planetName" (PlanetName "Earth")
               (dom (page (blank (mkHost 800 600 1 (fun _ => 0)
                                         (delete "planetRadius" page_dom)))))))
         (blank (mkHost 800 600 1 (fun _ => 0) (delete "planetRadius" page_dom)))).
Proof.
  refine (proj1 (proj2 (proj2 (X10_showPlanetInfo_steps
                                 (mkPlanet (mkConfig "Earth" 0x4169E1 1 20) 6%nat 7%nat 0)
                                 (blank (mkHost 800 600 1 (fun _ => 0)
                                                (delete "planetRadius" page_dom))))))
            _ _).
  - apply (bool_decide_unpack _). vm_compute. reflexivity.
  - vm_compute. reflexivity.
Defined.

Lemma ndc_range W x :
  0 < W -> 0 <= x <= W ->
  -1 <= x / W * 2 - 1 <= 1 /\ -1 <= - (x / W) * 2 + 1 <= 1.
Proof.
  intros HW [H0 H1].
  assert (0 <= x / W <= 1) as [A B].
  { unfold Rdiv. pose proof (Rinv_0_lt_compat W HW) as Hi. split.
    - apply Rmult_le_pos; lra.
    - replace 1 with (W * / W) by (apply Rinv_r; lra).
      apply Rmult_le_compat_r; lra. }
  split; split; lra.
Qed.

Lemma click_mouse_set t x y ray w :
  wired_ok (click_target t w) -> structure_ok (this (click_target t w)) ->
  mouse (this (dispatch (Click t x y ray) w))
  = Some (mkVec2 (x / innerWidth (page w) * 2 - 1) (- (y / innerHeight (page w)) * 2 + 1)).
Proof.
  intros W1 S1.
  pose proof (keeps_page_click_target _ t w eq_refl) as Ef.
  unfold page_frame in Ef. injection Ef as EW EH _ _ _ _ _ _ _.
  unfold dispatch. rewrite <- EW, <- EH.
  destruct (picked ray (click_target t w)) as [|first rest] eqn:Hp.
  - rewrite (click_miss x y ray _ W1 Hp).
    destruct (click_target t w) as [pg1 t1]. reflexivity.
  - destruct (click_hit x y ray _ first rest W1 S1 Hp) as (q & _ & _ & _ & _ & E).
    rewrite E. destruct (click_target t w) as [pg1 t1]. reflexivity.
Qed.

(** X11.  A click at a point of the window leaves in the mouse
    vector the point's normalised device coordinates,
    [x / width * 2 - 1] and [- (y / height) * 2 + 1], both between
    -1 and 1: in [script.js] on a page with all its elements, in the
    module variant always, there also for a mouse move, which puts
    the tooltip 10 px right of and 25 px above the pointer. *)
Theorem X11_mouse_is_normalised :
  (forall h es t x y ray,
      let w := dispatch_all es (load h) in
      let w' := dispatch (Click t x y ray) w in
      complete_page (host_dom h) ->
      0 < innerWidth (page w) -> 0 < innerHeight (page w) ->
      0 <= x <= innerWidth (page w) -> 0 <= y <= innerHeight (page w) ->
      exists m,
        mouse (this w') = Some m /\
        v2x m = x / innerWidth (page w) * 2 - 1 /\
        v2y m = - (y / innerHeight (page w)) * 2 + 1 /\
        -1 <= v2x m <= 1 /\ -1 <= v2y m <= 1)
  /\
  (forall W H now0 ray0 es x y,
      let w := Gui.dispatch_all es (Gui.load W H now0 ray0) in
      0 < Gui.innerWidth w -> 0 < Gui.innerHeight w ->
      0 <= x <= Gui.innerWidth w -> 0 <= y <= Gui.innerHeight w ->
      (forall t now ray,
          Gui.mouse (Gui.dispatch (Gui.Click t x y now ray) w)
          = mkVec2 (x / Gui.innerWidth w * 2 - 1) (- (y / Gui.innerHeight w) * 2 + 1)) /\
      Gui.mouse (Gui.dispatch (Gui.MouseMove x y) w)
      = mkVec2 (x / Gui.innerWidth w * 2 - 1) (- (y / Gui.innerHeight w) * 2 + 1) /\
      Gui.tooltip_left (Gui.tooltip (Gui.dispatch (Gui.MouseMove x y) w)) = x + 10 /\
      Gui.tooltip_top (Gui.tooltip (Gui.dispatch (Gui.MouseMove x y) w)) = y - 25 /\
      -1 <= x / Gui.innerWidth w * 2 - 1 <= 1 /\
      -1 <= - (y / Gui.innerHeight w) * 2 + 1 <= 1).
Proof.
  split.
  - intros h es t x y ray w w' C HW HH Hx Hy.
    pose proof (invariant_reachable h es) as Iw. fold w in Iw.
    assert (invariant h (click_target t w)) as I1 by (apply invariant_click_target, Iw).
    eexists. split.
    { apply click_mouse_set; [apply (wired_invariant h _ C I1)|apply (inv_structure _ _ I1)]. }
    cbn [v2x v2y]. split; [reflexivity|]. split; [reflexivity|].
    split; [apply (ndc_range _ x HW Hx)|apply (ndc_range _ y HH Hy)].
  - intros W H now0 ray0 es x y w HW HH Hx Hy.
    split; [|split; [reflexivity|split; [reflexivity|split; [reflexivity|]]]].
    + intros t now ray. unfold Gui.dispatch. rewrite onMouseClick_eq.
      assert (Gui.ndc x y (Gui.click_target t now w) = Gui.ndc x y w) as E
          by (destruct t; reflexivity).
      destruct (Gui.pick ray (Gui.click_target t now w));
        unfold GuiSpec.focused, GuiSpec.hidden; cbv zeta;
        cbn [Gui.mouse Gui.set_infoPanel Gui.log_call Gui.set_calls Gui.set_controls
             Gui.set_tweens Gui.set_mouse]; rewrite E; reflexivity.
    + split; [apply (ndc_range _ x HW Hx)|apply (ndc_range _ y HH Hy)].
Qed.

Lemma X11_mouse_is_normalised_witness :
  exists m,
    mouse (this (dispatch (Click Elsewhere 400 300 Stated.no_ray)
                   (dispatch_all [] (load Stated.demo_host))))
    = Some m /\ -1 <= v2x m <= 1 /\ -1 <= v2y m <= 1.
Proof.
  assert (complete_page (host_dom Stated.demo_host)) as C
      by (apply (bool_decide_unpack _); vm_compute; reflexivity).
  destruct (proj1 X11_mouse_is_normalised Stated.demo_host [] Elsewhere 400 300
              Stated.no_ray C) as (m & Hm & _ & _ & Hx & Hy).
  - vm_compute. lra.
  - vm_compute. lra.
  - vm_compute. lra.
  - vm_compute. lra.
  - exists m. split; [exact Hm|]. split; [exact Hx|exact Hy].
Defined.

(** X12.  In [script.js] a resize of the window, once the handler is
    registered, sets the camera's aspect ratio and projection to the
    new width over the new height and the renderer's size to the new
    size, and the next frame is drawn with them. *)
Theorem X12_script_resize :
  forall h es W H,
    let w := dispatch_all es (load h) in
    let w' := dispatch (Resize W H) w in
    registered WindowResize w = true ->
    (exists c r, camera (this w') = Some c /\ renderer (this w') = Some r /\
                 aspect c = W / H /\ projectionAspect c = W / H /\
                 width r = W /\ height r = H) /\
    (rafPending (page w') = true ->
     exists cs, calls (page (dispatch AnimationFrame w')) = cs ++ [Render (W / H) W H]).
Proof. intros h es W H. apply script_resize. Qed.

Lemma X12_script_resize_witness :
  exists c r,
    camera (this (dispatch (Resize 1024 600) (dispatch_all [] (load Stated.demo_host))))
    = Some c /\
    renderer (this (dispatch (Resize 1024 600) (dispatch_all [] (load Stated.demo_host))))
    = Some r /\
    aspect c = 1024 / 600 /\ projectionAspect c = 1024 / 600 /\
    width r = 1024 /\ height r = 600.
Proof.
  refine (proj1 (X12_script_resize Stated.demo_host [] 1024 600 _)).
  vm_compute. reflexivity.
Defined.
End ScriptPanel.

(** ** The module variant: the scene, the frame, the camera *)

Section GuiMore.
Import Three Gui GuiSpec GuiView.
#[local] Opaque initial initial_store scene0 meshes0 orbits0.

Lemma built_from_store s s0 d f :
  (forall id, shape <$> get id s = shape <$> get id s0) ->
  (but_visible <$> get (snd f) s = but_visible <$> get (snd f) s0) ->
  built_from s0 d f -> built_from s d f.
Proof.
  destruct f as [[[[m r] sp] rs] o]. cbn [snd]. intros Hs Hv (H1 & H2 & H3 & H4 & H5 & H6).
  unfold built_from. rewrite Hs, Hv. auto 10.
Qed.

Lemma flat_map_fixed (l l' : list Body) :
  map body_fixed l = map body_fixed l' ->
  flat_map (fun b => [orbit b; mesh b]) l = flat_map (fun b => [orbit b; mesh b]) l'.
Proof.
  revert l'. induction l as [|b l IH]; intros [|b' l'] E; try discriminate E; [reflexivity|].
  cbn [map] in E. unfold body_fixed at 1 3 in E. injection E as Em _ _ _ Eo E.
  cbn [flat_map]. rewrite (IH l' E), Em, Eo. reflexivity.
Qed.

(** X13.  In every state the page reaches, every body is as
    [createPlanet] made it from its row of the table (the sun from
    its own arguments): its mesh is the sphere of the row's radius,
    colour and name whose one child is the label with that name at
    the row's radius plus 1 above the centre; its orbit path is the
    line ring from the distance minus 0.1 to the distance plus 0.1,
    turned by π/2 about x, which nothing but the visibility flag has
    changed; and the scene's children are the two lights followed, for
    the sun and then each planet, by the orbit path and the mesh. *)
Theorem X13_bodies_are_as_built :
  forall W H now0 ray0 es,
    let w := dispatch_all es (load W H now0 ray0) in
    built_from (store w) sun_data (body_fixed (sun w)) /\
    Forall2 (fun d b => built_from (store w) d (body_fixed b)) planetData (planets w) /\
    scene w = [0; 1]%nat ++ flat_map (fun b => [orbit b; mesh b]) (sun w :: planets w).
Proof.
  intros W H now0 ray0 es w.
  destruct (gui_invariant_reachable W H now0 ray0 es) as [S _ _ _].
  pose proof (orbits_kept_reachable W H now0 ray0 es) as K.
  fold w in S, K. clearbody w. destruct initial_built_from as (B0 & F0).
  split; [|split].
  - rewrite (ok_sun w S). apply (built_from_store _ initial_store); [apply (ok_shapes w S)| |exact B0].
    apply K. left.
  - apply Forall2_same_length_lookup. split.
    + rewrite (Forall2_length _ _ _ F0), <- (ok_bodies w S), length_map. reflexivity.
    + intros i d b Hd Hb.
      assert (map body_fixed (planets initial) !! i = Some (body_fixed b)) as Hf
          by (rewrite <- (ok_bodies w S), list_lookup_fmap, Hb; reflexivity).
      apply (built_from_store _ initial_store); [apply (ok_shapes w S)| |].
      * apply K. right. change (snd (body_fixed b)) with (orbit b).
        rewrite <- (planets_orbits w S). apply list_elem_of_fmap. exists b.
        split; [reflexivity|]. eapply list_elem_of_lookup_2, Hb.
      * apply (Forall2_lookup_lr _ _ _ _ _ _ F0 Hd Hf).
  - rewrite (ok_scene w S), initial_scene. f_equal.
    apply (flat_map_fixed (sun initial :: planets initial) (sun w :: planets w)).
    cbn [map]. rewrite (ok_bodies w S), (ok_sun w S). reflexivity.
Qed.

Lemma sun_rotationSpeed : rotationSpeed (sun initial) = 0.01.
Proof. vm_compute. reflexivity. Qed.

(** X14.  A running frame of the module variant changes the bodies'
    meshes and nothing else in the store.  Of a planet's mesh it adds
    the planet's rotation speed to the rotation about y and leaves the
    height, the other rotations, the visibility flag and the shape;
    to the sun's mesh it only adds 0.01 to the rotation about y. *)
Theorem X14_running_frame_moves_only_bodies :
  forall W H now0 ray0 es now ray,
    let w := dispatch_all es (load W H now0 ray0) in
    let w' := dispatch (AnimationFrame now ray) w in
    pause (params w) = false ->
    (forall id, id ∉ body_meshes w -> get id (store w') = get id (store w)) /\
    (forall b, b ∈ planets w ->
               exists o o',
                 get (mesh b) (store w) = Some o /\ get (mesh b) (store w') = Some o' /\
                 vy (rotation o') = vy (rotation o) + rotationSpeed b /\
                 off_orbit o' = off_orbit o /\ shape o' = shape o /\
                 visible o' = visible o) /\
    (exists o,
        get (mesh (sun w)) (store w) = Some o /\
        get (mesh (sun w)) (store w') = Some (add_rotation_y 0.01 o)).
Proof.
  intros W H now0 ray0 es now ray w w' Hp.
  destruct (gui_invariant_reachable W H now0 ray0 es) as [S _ _ Hr]. fold w in S, Hr.
  assert (store w' = frame_store now w) as Es.
  { subst w'. unfold dispatch. rewrite Hr.
    destruct (animate_scene now ray (set_rafPending false w)) as (-> & _). reflexivity. }
  clearbody w' w. rewrite Es.
  pose proof gui_meshes0_NoDup as Hnd.
  rewrite <- (planets_meshes w S), <- (ok_sun w S) in Hnd.
  apply NoDup_cons in Hnd as [Hsun Hnd].
  split; [intros id Hid; apply frame_store_other, Hid|]. split.
  - intros b Hb. destruct (body_mesh_stored w b S) as [o Ho]; [right; exact Hb|].
    exists o, (moved (now * 0.001) (params_timeScale (params w)) b o).
    split; [exact Ho|]. split.
    { unfold frame_store. rewrite Hp. rewrite get_update_ne.
      - rewrite move_planets_get by assumption. rewrite Ho. reflexivity.
      - intros E. apply Hsun. rewrite E. apply list_elem_of_fmap. eauto. }
    destruct o. repeat split.
  - destruct (body_mesh_stored w (sun w) S) as [o Ho]; [left|].
    exists o. split; [exact Ho|].
    unfold frame_store. rewrite Hp, get_update_eq, move_planets_other by exact Hsun.
    rewrite Ho, (ok_sun w S), sun_rotationSpeed. reflexivity.
Qed.

Lemma X14_running_frame_moves_only_bodies_witness :
  exists o,
    get (mesh (sun (dispatch_all [] (load 800 600 0 Stated.no_ray))))
        (store (dispatch_all [] (load 800 600 0 Stated.no_ray)))
    = Some o /\
    get (mesh (sun (dispatch_all [] (load 800 600 0 Stated.no_ray))))
        (store (dispatch (AnimationFrame 16 Stated.no_ray)
                  (dispatch_all [] (load 800 600 0 Stated.no_ray))))
    = Some (add_rotation_y 0.01 o).
Proof.
  refine (proj2 (proj2 (X14_running_frame_moves_only_bodies
                          800 600 0 Stated.no_ray [] 16 Stated.no_ray _))).
  vm_compute. reflexivity.
Defined.

Lemma finished_le now t : tween_start t + 1000 <= now -> tween_finished now t = true.
Proof. intros H. unfold tween_finished. destruct (Rle_dec _ _); [reflexivity|contradiction]. Qed.

(** X15.  The camera is always handed back.  In every state the page
    reaches, the controls are disabled only while a tween is under
    way.  A click whose ray meets a planet disables them, aims them
    at the planet and starts a tween towards the planet's position
    plus its radius times (2.5, 1.5, 2.5); and a frame by which every
    tween has run its 1000 ms leaves no tween and the controls
    enabled. *)
Theorem X15_controls_are_released :
  forall W H now0 ray0 es,
    let w := dispatch_all es (load W H now0 ray0) in
    controls_released w /\
    (forall t x y now ray first rest,
        let w1 := click_target t now w in
        let w' := dispatch (Click t x y now ray) w in
        pick ray w1 = first :: rest ->
        exists o,
          get (hit_object first) (store w1) = Some o /\
          controls w' = mkOrbitControls false (position o) /\
          tweens w'
          = tweens w1 ++
            [mkTween (add3 (position o)
                           (mkVec3 (parameters_radius (obj_geometry o) * 2.5)
                                   (parameters_radius (obj_geometry o) * 1.5)
                                   (parameters_radius (obj_geometry o) * 2.5)))
                     (LookAtObject (hit_object first)) now]) /\
    (forall now ray,
        (forall t, t ∈ tweens w -> tween_start t + 1000 <= now) ->
        tweens (dispatch (AnimationFrame now ray) w) = [] /\
        enabled (controls (dispatch (AnimationFrame now ray) w)) = true).
Proof.
  intros W H now0 ray0 es w.
  pose proof (gui_invariant_reachable W H now0 ray0 es) as Iw.
  pose proof (released_reachable W H now0 ray0 es) as Rw.
  fold w in Iw, Rw. clearbody w. split; [exact Rw|]. split.
  - intros t x y now ray first rest w1 w' Hp.
    pose proof (gui_invariant_click_target t now w Iw) as [S1 _ _ _]. fold w1 in S1.
    assert (w' = focused (hit_object first) x y now w1) as ->.
    { subst w'. unfold dispatch. fold w1. rewrite onMouseClick_eq, Hp. reflexivity. }
    destruct (pick_first ray w1 first rest S1 Hp) as (b & Hb & Hm & _).
    destruct (body_mesh_stored w1 b S1) as [o Ho]; [right; exact Hb|].
    rewrite Hm in Ho. exists o. split; [exact Ho|].
    unfold focused, object_at. cbv zeta. rewrite Ho. split; reflexivity.
  - intros now ray Hall. unfold dispatch. rewrite (inv_raf _ Iw).
    destruct (animate_scene now ray (set_rafPending false w))
      as (_ & _ & _ & _ & _ & _ & _ & _ & _ & _ & _ & Et).
    rewrite Et, animate_controls. cbn [tweens set_rafPending].
    assert (Forall (fun t => tween_finished now t = true) (tweens w)) as F.
    { apply Forall_forall. intros t Ht. apply finished_le, Hall, Ht. }
    destruct (filter_all_finished _ _ F) as (F1 & F2). split; [exact F2|].
    destruct (TWEEN_update_controls now (set_rafPending false w)) as (H1 & H2).
    cbn [tweens set_rafPending] in H1, H2. rewrite F1 in H1, H2.
    destruct (tweens w) as [|t l] eqn:Etw.
    + rewrite (H1 eq_refl). cbn [controls set_rafPending].
      destruct (enabled (controls w)) eqn:Ee; [reflexivity|].
      exfalso. apply (Rw Ee). exact Etw.
    + apply H2. discriminate.
Qed.

Lemma X15_controls_are_released_witness :
  enabled
    (controls
       (dispatch (AnimationFrame 2000 Stated.no_ray)
          (dispatch_all [Click Elsewhere 400 300 500 earth_ray]
             (load 800 600 0 Stated.no_ray))))
  = true.
Proof.
  refine (proj2 (proj2 (proj2 (X15_controls_are_released 800 600 0 Stated.no_ray
            [Click Elsewhere 400 300 500 earth_ray]))
            2000 Stated.no_ray _)).
  intros t Ht.
  set (l := tweens _) in Ht. vm_compute in l. subst l.
  apply elem_of_cons in Ht as [->|Ht]; [|inversion Ht].
  cbn [tween_start]. lra.
Defined.
End GuiMore.

(** ** The module variant: reset, resize, hover and the loop *)

Section GuiPanel.
Import Three Gui GuiSpec GuiView.
#[local] Opaque initial initial_store scene0 meshes0 orbits0.

Lemma reset_click_miss x y now ray w :
  pick ray (click_target ResetButton now w) = [] ->
  let w' := dispatch (Click ResetButton x y now ray) w in
  tweens w' = tweens w ++ [mkTween (mkVec3 0 50 150) LookAtScene now] /\
  infoPanel w' = mkInfoPanel DisplayNone (panel_content (infoPanel w)) /\
  controls w' = controls w /\ scene_state w' = scene_state w /\ params w' = params w.
Proof.
  intros Hp. cbv zeta. unfold dispatch. rewrite onMouseClick_eq, Hp.
  repeat split.
Qed.

(** X16.  A click on the reset button whose ray meets no planet
    starts a tween of the camera to (0, 50, 150) that looks at the
    scene's origin, and hides the panel, whose content stays; it does
    not disable the controls and touches neither the scene graph nor
    the panel's settings. *)
Theorem X16_reset_button :
  forall W H now0 ray0 es x y now ray,
    let w := dispatch_all es (load W H now0 ray0) in
    let w' := dispatch (Click ResetButton x y now ray) w in
    (forall b, b ∈ planets w -> ray (mesh b) = []) ->
    tweens w' = tweens w ++ [mkTween (mkVec3 0 50 150) LookAtScene now] /\
    infoPanel w' = mkInfoPanel DisplayNone (panel_content (infoPanel w)) /\
    controls w' = controls w /\ scene_state w' = scene_state w /\ params w' = params w.
Proof.
  intros W H now0 ray0 es x y now ray w w' Hmiss.
  pose proof (gui_invariant_reachable W H now0 ray0 es) as Iw. fold w in Iw.
  pose proof (gui_invariant_click_target ResetButton now w Iw) as [S1 _ _ _].
  apply reset_click_miss.
  apply (pick_nil ray _ S1). exact Hmiss.
Qed.

Lemma X16_reset_button_witness :
  tweens (dispatch (Click ResetButton 700 20 1000 Stated.no_ray)
            (dispatch_all [] (load 800 600 0 Stated.no_ray)))
  = tweens (dispatch_all [] (load 800 600 0 Stated.no_ray))
    ++ [mkTween (mkVec3 0 50 150) LookAtScene 1000].
Proof.
  refine (proj1 (X16_reset_button 800 600 0 Stated.no_ray [] 700 20 1000 Stated.no_ray _)).
  intros b Hb. reflexivity.
Defined.

Lemma resize_then_frame W H now ray w :
  rafPending w = true ->
  let w' := dispatch (Resize W H) w in
  scene_state w' = scene_state w /\
  exists cs,
    calls (dispatch (AnimationFrame now ray) w')
    = cs ++ [Render (W / H) W H; LabelRender W H].
Proof.
  intros Hr. cbv zeta. split; [reflexivity|].
  unfold dispatch at 1.
  assert (rafPending (dispatch (Resize W H) w) = true) as -> by exact Hr.
  rewrite animate_calls.
  change (projectionAspect (camera (set_rafPending false (dispatch (Resize W H) w))))
    with (W / H).
  change (renderer (set_rafPending false (dispatch (Resize W H) w))) with (mkSize W H).
  change (labelRenderer (set_rafPending false (dispatch (Resize W H) w)))
    with (mkSize W H).
  cbn [width height].
  generalize (calls (set_rafPending false (dispatch (Resize W H) w))) as cs.
  generalize (replicate
                (length (List.filter (tween_finished now)
                           (tweens (set_rafPending false (dispatch (Resize W H) w)))))
                ControlsUpdate) as rs.
  intros rs cs. exists (cs ++ TweenUpdate :: rs ++ [HoverRaycast; ControlsUpdate]).
  rewrite <- app_assoc. cbn [app]. rewrite <- app_assoc. reflexivity.
Qed.

(** X17.  In the module variant a resize of the window sets the
    camera's aspect ratio and projection to the new width over the
    new height and both renderers to the new size, leaves the scene
    graph alone, and in every state the page reaches the next frame
    ends by drawing the scene and the labels with the new values. *)
Theorem X17_gui_resize :
  forall W0 H0 now0 ray0 es W H now ray,
    let w := dispatch_all es (load W0 H0 now0 ray0) in
    let w' := dispatch (Resize W H) w in
    aspect (camera w') = W / H /\ projectionAspect (camera w') = W / H /\
    renderer w' = mkSize W H /\ labelRenderer w' = mkSize W H /\
    scene_state w' = scene_state w /\
    exists cs,
      calls (dispatch (AnimationFrame now ray) w')
      = cs ++ [Render (W / H) W H; LabelRender W H].
Proof.
  intros W0 H0 now0 ray0 es W H now ray w w'.
  pose proof (gui_invariant_reachable W0 H0 now0 ray0 es) as Iw. fold w in Iw.
  pose proof (inv_raf _ Iw) as Hr. clearbody w. subst w'.
  repeat (split; [reflexivity|]).
  apply resize_then_frame. exact Hr.
Qed.
End GuiPanel.

(** ** The module variant: the hover check and the loop *)

Section GuiHover.
Import Three Gui GuiSpec GuiView.
#[local] Opaque initial initial_store scene0 meshes0 orbits0.






(** X19.  In the module variant a frame is pending in every state the
    page reaches, and a frame adds to the record of calls, in this
    order: the update of the tweens, one update of the controls for
    each tween that has run its 1000 ms, the hover raycast, the
    update of the controls, the render of the scene with the camera's
    projection and the renderer's size, and the render of the
    labels; it does so whether or not the animation is paused. *)
Theorem X19_frame_calls :
  forall W H now0 ray0 es now ray,
    let w := dispatch_all es (load W H now0 ray0) in
    let w' := dispatch (AnimationFrame now ray) w in
    rafPending w = true /\ rafPending w' = true /\
    calls w'
    = calls w ++
      TweenUpdate :: replicate (length (List.filter (tween_finished now) (tweens w)))
                               ControlsUpdate ++
      [HoverRaycast; ControlsUpdate;
       Render (projectionAspect (camera w)) (width (renderer w)) (height (renderer w));
       LabelRender (width (labelRenderer w)) (height (labelRenderer w))].
Proof.
  intros W H now0 ray0 es now ray w w'.
  pose proof (gui_invariant_reachable W H now0 ray0 es) as Iw. fold w in Iw.
  pose proof (inv_raf _ (gui_invariant_dispatch (AnimationFrame now ray) w Iw)) as Hr'.
  pose proof (inv_raf _ Iw) as Hr.
  split; [exact Hr|]. split; [exact Hr'|].
  subst w'. unfold dispatch. rewrite Hr. rewrite animate_calls. reflexivity.
Qed.
End GuiHover.

(** ** The info panel of the page with the class inlined *)

Section InlineTimers.
Import InlinePanel.

Lemma closes_itself_dispatch e w :
  (panel_active w = true -> timers w <> []) ->
  panel_active (dispatch e w) = true -> timers (dispatch e w) <> [].
Proof.
  intros I. destruct e as [c now|now]; cbn [dispatch].
  - intros _. unfold showPlanetInfo. cbn [timers].
    intros E. apply app_eq_nil in E as [_ E]. discriminate E.
  - unfold run_timer. destruct (timers w) as [|t rest] eqn:Et; [rewrite Et; exact I|].
    destruct (Rle_dec t now); [discriminate|]. rewrite Et. exact I.
Qed.

Lemma closes_itself_reachable es :
  panel_active (dispatch_all es load) = true -> timers (dispatch_all es load) <> [].
Proof.
  assert (forall es w, (panel_active w = true -> timers w <> []) ->
                       panel_active (dispatch_all es w) = true ->
                       timers (dispatch_all es w) <> []) as Hall.
  { clear es. intros es. induction es as [|e es IH]; intros w I; [exact I|].
    apply IH, closes_itself_dispatch, I. }
  apply Hall. discriminate.
Qed.

(** X20.  On the page with the class inlined an open info panel
    always has a timer pending: whatever planets are clicked and
    whichever timers have run, when the panel is open the list of
    pending timers has an oldest one, and once that one is due and
    runs the panel is closed, its texts staying as they are. *)
Theorem X20_open_panel_has_a_timer :
  forall es,
    let w := dispatch_all es load in
    panel_active w = true ->
    exists t rest,
      timers w = t :: rest /\
      forall now, t <= now ->
                  dispatch (Timer now) w = mkWorld false (panel_info w) rest.
Proof.
  intros es w Ha. pose proof (closes_itself_reachable es Ha) as Ht. fold w in Ht.
  clearbody w. destruct (timers w) as [|t rest] eqn:Et; [destruct (Ht eq_refl)|].
  exists t, rest. split; [reflexivity|]. intros now Hle.
  cbn [dispatch]. unfold run_timer. rewrite Et.
  destruct (Rle_dec t now) as [_|Hn]; [reflexivity|destruct (Hn Hle)].
Qed.

Lemma X20_open_panel_has_a_timer_witness :
  exists t rest,
    timers (dispatch_all [ClickPlanet earth 0] load) = t :: rest /\
    forall now, t <= now ->
                dispatch (Timer now) (dispatch_all [ClickPlanet earth 0] load)
                = mkWorld false (panel_info (dispatch_all [ClickPlanet earth 0] load)) rest.
Proof. exact (X20_open_panel_has_a_timer [ClickPlanet earth 0] eq_refl). Defined.

(** X21.  Nothing cancels a timer: when a planet is clicked while the
    timer of an earlier click is pending, the panel then opened is
    closed as soon as that older timer runs, however short a time
    after the click, with the texts of the planet just clicked left
    in it and the new timer still pending. *)
Theorem X21_older_timer_closes_the_panel :
  forall es c now t rest now',
    let w := dispatch_all es load in
    timers w = t :: rest -> t <= now' ->
    let w1 := dispatch (ClickPlanet c now) w in
    panel_active w1 = true /\ panel_info w1 = Some (info_of c) /\
    dispatch (Timer now') w1 = mkWorld false (Some (info_of c)) (rest ++ [now + 5000]).
Proof.
  intros es c now t rest now' w Et Hle w1. subst w1. clearbody w.
  split; [reflexivity|]. split; [reflexivity|].
  cbn [dispatch]. unfold run_timer, showPlanetInfo. cbn [timers panel_active panel_info].
  rewrite Et. cbn [app].
  destruct (Rle_dec t now') as [_|Hn]; [reflexivity|destruct (Hn Hle)].
Qed.

Lemma X21_older_timer_closes_the_panel_witness :
  dispatch (Timer 5000)
    (dispatch (ClickPlanet mars 4000) (dispatch_all [ClickPlanet earth 0] load))
  = mkWorld false (Some (info_of mars)) ([] ++ [4000 + 5000]).
Proof.
  refine (proj2 (proj2 (X21_older_timer_closes_the_panel
                          [ClickPlanet earth 0] mars 4000 (0 + 5000) [] 5000 _ _))).
  - reflexivity.
  - lra.
Defined.
End InlineTimers.

(** ** The module variant: the time scales of the panel *)

Section GuiTimeScales.
Import Three Gui GuiSpec GuiView.
#[local] Opaque initial initial_store scene0 meshes0 orbits0.

(** X22.  The time scales set from the panel take effect at the next
    running frame, which places the planets from the clock alone.
    Once the global scale is set to [g] and the scale of the planet
    of index [i] to [v], neither of which touches the scene graph,
    a frame at clock value [now] puts that planet at angle
    [now * 0.001 * orbitSpeed * g * v] on its circle and every other
    planet at [now * 0.001 * orbitSpeed * g * timeScale] with the
    scale it had. *)
Theorem X22_time_scales :
  forall W H now0 ray0 es g i v now ray b,
    let w := dispatch_all es (load W H now0 ray0) in
    let w1 := dispatch (PlanetTimeScale i v) (dispatch (GlobalTimeScale g) w) in
    let w' := dispatch (AnimationFrame now ray) w1 in
    pause (params w) = false -> planets w !! i = Some b ->
    store w1 = store w /\
    (exists o,
        get (mesh b) (store w') = Some o /\
        vx (position o) = cos (now * 0.001 * orbitSpeed b * g * v) * orbitRadius b /\
        vz (position o) = sin (now * 0.001 * orbitSpeed b * g * v) * orbitRadius b) /\
    (forall j q,
        j <> i -> planets w !! j = Some q ->
        exists o,
          get (mesh q) (store w') = Some o /\
          vx (position o) = cos (now * 0.001 * orbitSpeed q * g * timeScale q) * orbitRadius q /\
          vz (position o) = sin (now * 0.001 * orbitSpeed q * g * timeScale q) * orbitRadius q).
Proof.
  intros W H now0 ray0 es g i v now ray b w w1 w' Hp Hb.
  pose proof (gui_invariant_reachable W H now0 ray0 es) as Iw. fold w in Iw.
  pose proof (gui_invariant_dispatch (PlanetTimeScale i v) _
                (gui_invariant_dispatch (GlobalTimeScale g) w Iw)) as I1.
  fold w1 in I1.
  assert (pause (params w1) = false) as Hp1 by exact Hp.
  assert (planets w1 = alter (set_timeScale v) i (planets w)) as El by reflexivity.
  assert (params_timeScale (params w1) = g) as Eg by reflexivity.
  assert (store w1 = store w) as Es by reflexivity.
  subst w'. clearbody w1 w.
  split; [exact Es|]. split.
  - assert (set_timeScale v b ∈ planets w1) as Hin.
    { rewrite El. apply (list_elem_of_lookup_2 _ i).
      rewrite list_lookup_alter, Hb. case_decide; [reflexivity|congruence]. }
    destruct (gui_frame_position now ray w1 _ I1 Hp1 Hin) as (o & Hg & Hx & Hz).
    exists o. unfold clock_angle in Hx, Hz. rewrite Eg in Hx, Hz.
    split; [exact Hg|]. split; [exact Hx|exact Hz].
  - intros j q Hj Hq.
    assert (q ∈ planets w1) as Hin.
    { rewrite El. apply (list_elem_of_lookup_2 _ j).
      rewrite list_lookup_alter_ne by congruence. exact Hq. }
    destruct (gui_frame_position now ray w1 _ I1 Hp1 Hin) as (o & Hg & Hx & Hz).
    exists o. unfold clock_angle in Hx, Hz. rewrite Eg in Hx, Hz.
    split; [exact Hg|]. split; [exact Hx|exact Hz].
Qed.

Lemma X22_time_scales_witness :
  exists o,
    get 11%nat
        (store (dispatch (AnimationFrame 2000 Stated.no_ray)
                  (dispatch (PlanetTimeScale 2 3)
                     (dispatch (GlobalTimeScale 5)
                        (dispatch_all [] (load 800 600 0 Stated.no_ray))))))
    = Some o /\
    vx (position o) = cos (2000 * 0.001 * 0.01 * 5 * 3) * 35 /\
    vz (position o) = sin (2000 * 0.001 * 0.01 * 5 * 3) * 35.
Proof.
  refine (proj1 (proj2 (X22_time_scales 800 600 0 Stated.no_ray [] 5 2 3 2000 Stated.no_ray
                          (mkBody 11%nat 35 0.01 0.02 12%nat 1.0) _ _))).
  - reflexivity.
  - vm_compute. reflexivity.
Defined.
End GuiTimeScales.
